(** * Hyena E-Bike integration: frame decoder, telemetry store and
      connection manager

    A shallow embedding of [const.py], [coordinator.py], [sensor.py],
    [__init__.py] and [config_flow.py], with the properties of the
    specification (C1 to C10) and further properties of the code (X1 on)
    stated over it.

    Conventions of the embedding:
    - [bytes] is [list byte]; a Python value of dynamic type is a [pyval];
      a [dict] with string keys is a [gmap string pyval];
    - code that can raise returns a [result];
    - a method of the coordinator is a [coro]: a tree of accesses to [self],
      calls to the host and suspension points ([await]);
    - logging is left out: it has no effect on the modelled state. *)

From Stdlib Require Import ZArith List Floats Uint63 Lia Bool.
From Stdlib.Strings Require Import Byte Ascii String.
From stdpp Require Import gmap strings list.

Open Scope Z_scope.

(** ** Python values, exceptions *)

Inductive pyval : Type :=
| PyNone
| PyInt (z : Z)
| PyFloat (f : float)
| PyStr (s : string).

(** The exceptions the modelled code can meet.  [CancelledError] derives from
    [BaseException] only; the others are instances of [Exception]. *)
Inductive exn : Type :=
| IndexError
| KeyError
| TypeError
| StructError                 (* struct.error *)
| BleakError
| TimeoutError                (* asyncio.TimeoutError *)
| UpdateFailed
| ConfigEntryNotReady
| AttributeError
| OtherException (name : string)
| CancelledError.

Definition isinstance_Exception (e : exn) : bool :=
  match e with
  | CancelledError => false
  | _ => true
  end.

Inductive result (A : Type) : Type :=
| Ok (a : A)
| Err (e : exn).
Arguments Ok {A} a.
Arguments Err {A} e.

#[global] Instance result_ret : MRet result := fun A a => Ok a.
#[global] Instance result_bind : MBind result :=
  fun A B f m => match m with Ok a => f a | Err e => Err e end.

(** [try: body except cls: handler] for a body without suspension. *)
Definition try_except {A} (body : result A) (caught : exn -> bool)
    (handler : result A) : result A :=
  match body with
  | Ok a => Ok a
  | Err e => if caught e then handler else Err e
  end.

(** ** Bytes *)

#[global] Instance byte_eq_dec : EqDecision byte := Byte.byte_eq_dec.

Definition byte_val (b : byte) : Z := Z.of_N (Byte.to_N b).

(** [data[i]] on [bytes], for an index that is not negative. *)
Definition getitem (data : list byte) (i : nat) : result pyval :=
  match data !! i with
  | Some b => Ok (PyInt (byte_val b))
  | None => Err IndexError
  end.

(** [struct.unpack(">H", b)[0]]: exactly two bytes, big-endian. *)
Definition struct_unpack_BE_H (b : list byte) : result pyval :=
  match b with
  | [hi; lo] => Ok (PyInt (byte_val hi * 256 + byte_val lo))
  | _ => Err StructError
  end.

Definition hex_digit (n : N) : ascii :=
  if (n <? 10)%N then ascii_of_N (48 + n) else ascii_of_N (87 + n).

(** [bytes.hex()] *)
Fixpoint hex (data : list byte) : string :=
  match data with
  | [] => EmptyString
  | b :: rest =>
      String (hex_digit (Byte.to_N b / 16))
        (String (hex_digit (Byte.to_N b mod 16)) (hex rest))
  end.

(** ** Operations on dynamic values *)

Definition float_of_Z (z : Z) : float := PrimFloat.of_uint63 (Uint63.of_Z z).

(** [a == b].  An [int] is compared with a [float] through its conversion,
    which is exact below 2^53. *)
Definition py_eq (a b : pyval) : bool :=
  match a, b with
  | PyNone, PyNone => true
  | PyInt x, PyInt y => x =? y
  | PyFloat x, PyFloat y => PrimFloat.eqb x y
  | PyInt x, PyFloat y => PrimFloat.eqb (float_of_Z x) y
  | PyFloat x, PyInt y => PrimFloat.eqb x (float_of_Z y)
  | PyStr x, PyStr y => bool_decide (x = y)
  | _, _ => false
  end.

(** [a is None] *)
Definition is_None (a : pyval) : bool :=
  match a with PyNone => true | _ => false end.

(** [a / b], true division, for the operands the code uses (a numerator
    that is not negative and a non-zero [float] denominator). *)
Definition py_truediv (a b : pyval) : result pyval :=
  match a, b with
  | PyInt x, PyFloat y => Ok (PyFloat (PrimFloat.div (float_of_Z x) y))
  | PyFloat x, PyFloat y => Ok (PyFloat (PrimFloat.div x y))
  | _, _ => Err TypeError
  end.

(** [d[k]] and [d.get(k)] on a [dict]. *)
Definition dict_getitem (d : gmap string pyval) (k : string) : result pyval :=
  match d !! k with
  | Some v => Ok v
  | None => Err KeyError
  end.

Definition dict_get (d : gmap string pyval) (k : string) : pyval :=
  default PyNone (d !! k).

(** ** const.py *)

Definition DOMAIN : string := "hyena_ebike".
Definition MANUFACTURER : string := "Hyena".
Definition MODEL : string := "Trek FX+2".

Definition PACKET_ID_BATTERY_SOC : pyval := PyInt 0x0A.
Definition PACKET_ID_VOLTAGE : pyval := PyInt 0x01.
Definition PACKET_ID_CURRENT_POWER : pyval := PyInt 0x06.
Definition PACKET_ID_TEMPERATURE : pyval := PyInt 0x07.
Definition PACKET_ID_SPEED_RPM : pyval := PyInt 0x05.
Definition PACKET_ID_PEDAL_CADENCE : pyval := PyInt 0x08.
Definition PACKET_ID_MOTOR_STATUS : pyval := PyInt 0x09.

(** [bytes.fromhex("ee00000000000000")] *)
Definition FRAME_DELIMITER : list byte :=
  [xee; x00; x00; x00; x00; x00; x00; x00].

Definition SENSOR_BATTERY : string := "battery".
Definition SENSOR_TEMPERATURE : string := "temperature".

(** ** coordinator.py: [_parse_packet] *)

Definition CONNECTION_TIMEOUT : Z := 30.
Definition DISCONNECT_DELAY : nat := 120.

Definition caught_struct_error (e : exn) : bool :=
  match e with StructError => true | _ => false end.

(** The result is [None] or the [packet_info] dict. *)
Definition _parse_packet (data : list byte) : result (option (gmap string pyval)) :=
  if (length data <? 2)%nat then Ok None
  else
    packet_id ← getitem data 0;
    let packet_data := drop 1 data in
    let packet_info : gmap string pyval :=
      <["parsed_value" := PyNone]>
        (<["raw_data" := PyStr (hex data)]>
           (<["packet_id" := packet_id]> ∅)) in
    try_except
      (if py_eq packet_id PACKET_ID_BATTERY_SOC
          && (1 <=? length packet_data)%nat
       then
         v ← getitem packet_data 0;
         Ok (Some (<["parsed_value" := v]> packet_info))
       else if py_eq packet_id PACKET_ID_TEMPERATURE
               && (2 <=? length packet_data)%nat
       then
         temp_raw ← struct_unpack_BE_H (take 2 packet_data);
         Ok (Some (<["parsed_value" := temp_raw]> packet_info))
       else Ok None)
      caught_struct_error
      (Ok None).

(** ** Coroutines

    A method body is a tree: it reads and writes [self], calls the host
    synchronously, or suspends on an awaitable; the awaitable's outcome (a
    value, or an exception thrown into the coroutine, which is also how a
    cancellation arrives) resumes it. *)

(** The coroutines of the coordinator that are started as tasks. *)
Inductive Entry : Type :=
| EnsureConnection
| AsyncUpdateData
| DisconnectAfterDelay
| AsyncDisconnect
| AsyncShutdown.

(** The [BleakClient] the coordinator holds: the link and the subscription
    to the telemetry characteristic. *)
Record BleakClient : Type := mkClient {
  is_connected : bool;
  notifying : bool;
}.

Inductive Platform : Type := SENSOR.


(** Synchronous calls into the host. *)
Inductive hostE : Type -> Type :=
| AsyncBleDeviceFromAddress (address : string) : hostE (option string)
| AsyncCreateTask (c : Entry) : hostE nat
| TaskCancel (t : nat) : hostE unit
| AsyncSetUpdatedData (d : gmap string pyval) : hostE unit.

(** Awaitables.  The first refresh works on the coordinator object and
    leaves it in some state whether it raises or not. *)
Inductive awaitE : Type -> Type :=
| LockAcquire : awaitE unit
| EstablishConnection (device address : string) : awaitE BleakClient
| StartNotify (uuid : string) : awaitE unit
| StopNotify (uuid : string) : awaitE unit
| ClientDisconnect : awaitE unit
| Sleep (seconds : nat) : awaitE unit
| AsyncConfigEntryFirstRefresh (ref : nat) : awaitE unit
| AsyncForwardEntrySetups (entry_id : string) (platforms : list Platform) :
    awaitE unit.

Section Coro.
Context {Self : Type}.

Inductive coro (A : Type) : Type :=
| Ret (a : A)
| Raise (e : exn)
| Load (k : Self -> coro A)
| Store (s : Self) (k : coro A)
| Host {R : Type} (c : hostE R) (k : R -> coro A)
| Await {R : Type} (a : awaitE R) (k : result R -> coro A).

Arguments Ret {A} a.
Arguments Raise {A} e.
Arguments Load {A} k.
Arguments Store {A} s k.
Arguments Host {A R} c k.
Arguments Await {A R} a k.

Fixpoint coro_bind {A B} (f : A -> coro B) (m : coro A) : coro B :=
  match m with
  | Ret a => f a
  | Raise e => Raise e
  | Load k => Load (fun s => coro_bind f (k s))
  | Store s k => Store s (coro_bind f k)
  | Host c k => Host c (fun r => coro_bind f (k r))
  | Await a k => Await a (fun r => coro_bind f (k r))
  end.

(** [try: body except <caught>: handler] *)
Fixpoint try_catch {A} (body : coro A) (caught : exn -> bool)
    (handler : exn -> coro A) : coro A :=
  match body with
  | Ret a => Ret a
  | Raise e => if caught e then handler e else Raise e
  | Load k => Load (fun s => try_catch (k s) caught handler)
  | Store s k => Store s (try_catch k caught handler)
  | Host c k => Host c (fun r => try_catch (k r) caught handler)
  | Await a k => Await a (fun r => try_catch (k r) caught handler)
  end.

(** [try: body finally: final], for a [final] that does not suspend. *)
Fixpoint try_finally {A} (body : coro A) (final : coro unit) : coro A :=
  match body with
  | Ret a => coro_bind (fun _ => Ret a) final
  | Raise e => coro_bind (fun _ => Raise e) final
  | Load k => Load (fun s => try_finally (k s) final)
  | Store s k => Store s (try_finally k final)
  | Host c k => Host c (fun r => try_finally (k r) final)
  | Await a k => Await a (fun r => try_finally (k r) final)
  end.

Definition lift {A} (r : result A) : coro A :=
  match r with Ok a => Ret a | Err e => Raise e end.
Definition load : coro Self := Load Ret.
Definition modify (f : Self -> Self) : coro unit :=
  Load (fun s => Store (f s) (Ret tt)).
Definition host {R} (c : hostE R) : coro R := Host c Ret.
Definition await {R} (a : awaitE R) : coro R := Await a lift.
End Coro.

Arguments coro : clear implicits.
Arguments Ret {Self A} a.
Arguments Raise {Self A} e.
Arguments Load {Self A} k.
Arguments Store {Self A} s k.
Arguments Host {Self A R} c k.
Arguments Await {Self A R} a k.

#[global] Instance coro_ret {Self} : MRet (coro Self) := fun A a => Ret a.
#[global] Instance coro_mbind {Self} : MBind (coro Self) :=
  fun A B f m => coro_bind f m.

(** ** coordinator.py: [HyenaEBikeCoordinator] *)

Definition MAIN_CHARACTERISTIC_UUID : string :=
  "48590001-6879-656E-6174-656B2E485550".

Record Coordinator : Type := mkCoordinator {
  device_address : string;
  _client : option BleakClient;
  _connection_lock : bool;          (* the asyncio.Lock: is it held? *)
  _disconnect_task : option nat;    (* handle of the idle-disconnect task *)
  _expected_disconnect : bool;
  data : gmap string pyval;
}.

Definition set_client (v : option BleakClient) (self : Coordinator) :=
  mkCoordinator (device_address self) v (_connection_lock self)
    (_disconnect_task self) (_expected_disconnect self) (data self).
Definition set_connection_lock (v : bool) (self : Coordinator) :=
  mkCoordinator (device_address self) (_client self) v
    (_disconnect_task self) (_expected_disconnect self) (data self).
Definition set_disconnect_task (v : option nat) (self : Coordinator) :=
  mkCoordinator (device_address self) (_client self) (_connection_lock self)
    v (_expected_disconnect self) (data self).
Definition set_expected_disconnect (v : bool) (self : Coordinator) :=
  mkCoordinator (device_address self) (_client self) (_connection_lock self)
    (_disconnect_task self) v (data self).
Definition set_data (v : gmap string pyval) (self : Coordinator) :=
  mkCoordinator (device_address self) (_client self) (_connection_lock self)
    (_disconnect_task self) (_expected_disconnect self) v.

(** [__init__] *)
Definition HyenaEBikeCoordinator (address : string) : Coordinator :=
  {| device_address := address;
     _client := None;
     _connection_lock := false;
     _disconnect_task := None;
     _expected_disconnect := false;
     data := <[SENSOR_TEMPERATURE := PyNone]> (<[SENSOR_BATTERY := PyNone]> ∅) |}.

(** [self._client and self._client.is_connected] *)
Definition client_connected (self : Coordinator) : bool :=
  match _client self with
  | Some c => is_connected c
  | None => false
  end.

Abbreviation method := (coro Coordinator).

(** [async with self._connection_lock: body] *)
Definition with_connection_lock {A} (body : method A) : method A :=
  Await LockAcquire (fun r =>
    match r with
    | Err e => Raise e
    | Ok _ => try_finally body (modify (set_connection_lock false))
    end).

(** [await self._client.<call>]: an attribute of [None] cannot be reached. *)
Definition client_call (a : awaitE unit) : method unit :=
  self ← load;
  match _client self with
  | None => Raise AttributeError
  | Some _ => await a
  end.

Definition caught_bleak_or_timeout (e : exn) : bool :=
  match e with BleakError | TimeoutError => true | _ => false end.
Definition caught_bleak (e : exn) : bool :=
  match e with BleakError => true | _ => false end.
Definition caught_cancelled (e : exn) : bool :=
  match e with CancelledError => true | _ => false end.

Definition _ensure_connection : method unit :=
  with_connection_lock
    (self ← load;
     if client_connected self then Ret tt
     else
       try_catch
         (ble_device ← host (AsyncBleDeviceFromAddress (device_address self));
          match ble_device with
          | None => Raise UpdateFailed
          | Some ble_device =>
              client ← await (EstablishConnection ble_device (device_address self));
              modify (set_client (Some client));;
              client_call (StartNotify MAIN_CHARACTERISTIC_UUID)
          end)
         caught_bleak_or_timeout
         (fun ex => Raise UpdateFailed)).

(** Returns [self.data]. *)
Definition _async_update_data : method (gmap string pyval) :=
  self ← load;
  (if negb (client_connected self) then _ensure_connection else Ret tt);;
  self ← load;
  Ret (data self).

Definition _disconnected_callback : method unit :=
  self ← load;
  if _expected_disconnect self then Ret tt
  else
    modify (set_client None);;
    _ ← host (AsyncCreateTask AsyncUpdateData);
    Ret tt.

Definition _reset_disconnect_timer : method unit :=
  self ← load;
  (match _disconnect_task self with
   | Some t =>
       host (TaskCancel t);;
       modify (set_disconnect_task None)
   | None => Ret tt
   end);;
  t ← host (AsyncCreateTask DisconnectAfterDelay);
  modify (set_disconnect_task (Some t)).

(** [not packet_info] *)
Definition dict_falsy (d : option (gmap string pyval)) : bool :=
  match d with
  | None => true
  | Some d => bool_decide (d = ∅)
  end.

Definition _notification_handler (payload : list byte) : method unit :=
  if bool_decide (payload = FRAME_DELIMITER) then Ret tt
  else
    packet_info ← lift (_parse_packet payload);
    match packet_info with
    | None => Ret tt
    | Some packet_info =>
        if dict_falsy (Some packet_info) then Ret tt
        else
          packet_id ← lift (dict_getitem packet_info "packet_id");
          let parsed_value := dict_get packet_info "parsed_value" in
          if is_None parsed_value then Ret tt
          else
            updated ←
              (if py_eq packet_id PACKET_ID_BATTERY_SOC then
                 modify (fun self =>
                   set_data (<[SENSOR_BATTERY := parsed_value]> (data self)) self);;
                 Ret true
               else if py_eq packet_id PACKET_ID_TEMPERATURE then
                 temperature_celsius ← lift (py_truediv parsed_value (PyFloat 10));
                 modify (fun self =>
                   set_data (<[SENSOR_TEMPERATURE := temperature_celsius]> (data self))
                     self);;
                 Ret true
               else Ret false);
            if (updated : bool) then
              self ← load;
              host (AsyncSetUpdatedData (data self));;
              _reset_disconnect_timer
            else Ret tt
    end.

Definition _async_disconnect : method unit :=
  with_connection_lock
    (self ← load;
     if negb (client_connected self) then Ret tt
     else
       modify (set_expected_disconnect true);;
       try_finally
         (try_catch
            (client_call (StopNotify MAIN_CHARACTERISTIC_UUID);;
             client_call ClientDisconnect)
            caught_bleak
            (fun ex => Ret tt))
         (modify (set_client None);;
          modify (set_expected_disconnect false))).

Definition _disconnect_after_delay : method unit :=
  try_catch
    (await (Sleep DISCONNECT_DELAY);;
     _async_disconnect)
    caught_cancelled
    (fun _ => Ret tt).

Definition async_shutdown : method unit :=
  self ← load;
  (match _disconnect_task self with
   | Some t =>
       host (TaskCancel t);;
       modify (set_disconnect_task None)
   | None => Ret tt
   end);;
  _async_disconnect.

(** The body a task runs. *)
Definition entry_body (c : Entry) : method unit :=
  match c with
  | EnsureConnection => _ensure_connection
  | AsyncUpdateData => _async_update_data;; Ret tt
  | DisconnectAfterDelay => _disconnect_after_delay
  | AsyncDisconnect => _async_disconnect
  | AsyncShutdown => async_shutdown
  end.

(** ** The event loop

    asyncio runs one task at a time and switches only at a suspension
    point.  The world is the coordinator object together with what the host
    keeps: the tasks, the clock (in seconds), whether the bike is in radio
    range, and the record of what the coordinator asked of the host. *)

Inductive Event : Type :=
| EvPublished (d : gmap string pyval)   (* async_set_updated_data *)
| EvTaskCreated (t : nat) (c : Entry)   (* hass.async_create_task *)
| EvTaskCancel (t : nat)                (* task.cancel() *)
| EvConnectAttempt (address : string)   (* establish_connection called *)
| EvStartNotify
| EvStopNotify
| EvClientDisconnect.

Record TaskState : Type := mkTask {
  prog : method unit;        (* what is left to run *)
  started : bool;
  since : nat;               (* the clock when it last suspended *)
  cancel_requested : bool;
}.

Record World : Type := mkWorld {
  coordinator : Coordinator;
  tasks : list TaskState;
  clock : nat;
  in_range : bool;
  events : list Event;
}.

Definition set_coordinator (c : Coordinator) (w : World) : World :=
  mkWorld c (tasks w) (clock w) (in_range w) (events w).
Definition set_tasks (ts : list TaskState) (w : World) : World :=
  mkWorld (coordinator w) ts (clock w) (in_range w) (events w).
Definition emit (e : Event) (w : World) : World :=
  mkWorld (coordinator w) (tasks w) (clock w) (in_range w) (events w ++ [e]).

Definition finished {A} (p : method A) : bool :=
  match p with
  | Ret _ | Raise _ => true
  | _ => false
  end.

Definition request_cancel (task : TaskState) : TaskState :=
  if finished (prog task) then task
  else mkTask (prog task) (started task) (since task) true.

Definition host_call {R} (c : hostE R) (w : World) : R * World :=
  match c in hostE R return R * World with
  | AsyncBleDeviceFromAddress address =>
      (if in_range w then Some address else None, w)
  | AsyncCreateTask c =>
      let t := length (tasks w) in
      (t, emit (EvTaskCreated t c)
            (set_tasks (tasks w ++ [mkTask (entry_body c) false (clock w) false]) w))
  | TaskCancel t =>
      (tt, emit (EvTaskCancel t)
             (set_tasks (alter request_cancel t (tasks w)) w))
  | AsyncSetUpdatedData d => (tt, emit (EvPublished d) w)
  end.

(** An awaitable that completes without suspending: the lock, when free. *)
Definition completes_now {R} (a : awaitE R) (w : World) : option (R * World) :=
  match a in awaitE R return option (R * World) with
  | LockAcquire =>
      if _connection_lock (coordinator w) then None
      else Some (tt, set_coordinator (set_connection_lock true (coordinator w)) w)
  | _ => None
  end.

(** What the host records when a coroutine suspends on an awaitable. *)
Definition note_await {R} (a : awaitE R) (w : World) : World :=
  match a with
  | EstablishConnection _ address => emit (EvConnectAttempt address) w
  | StartNotify _ => emit EvStartNotify w
  | StopNotify _ => emit EvStopNotify w
  | ClientDisconnect => emit EvClientDisconnect w
  | _ => w
  end.

(** Run a coroutine up to its next suspension, its return or its raise. *)
Fixpoint run {A} (p : method A) (w : World) : method A * World :=
  match p with
  | Ret a => (Ret a, w)
  | Raise e => (Raise e, w)
  | Load k => run (k (coordinator w)) w
  | Store s k => run k (set_coordinator s w)
  | Host c k => let '(r, w') := host_call c w in run (k r) w'
  | Await a k =>
      match completes_now a w with
      | Some (r, w') => run (k (Ok r)) w'
      | None => (Await a k, note_await a w)
      end
  end.

(** A callback the adapter invokes: it runs to its end at once. *)
Definition call_back (p : method unit) (w : World) : World := (run p w).2.

Definition set_link (c : option BleakClient) (w : World) : World :=
  set_coordinator (set_client c (coordinator w)) w.

Inductive Outcome : Type :=
| Succeeds
| Fails (e : exn).

(** The completion of an awaitable a task is suspended on: [None] when the
    outcome cannot happen in this world. *)
Definition await_outcome {R} (a : awaitE R) (o : Outcome) (suspended : nat)
    (w : World) : option (result R * World) :=
  match a in awaitE R return option (result R * World) with
  | LockAcquire =>
      match o with
      | Succeeds =>
          if _connection_lock (coordinator w) then None
          else Some (Ok tt, set_coordinator (set_connection_lock true (coordinator w)) w)
      | Fails _ => None
      end
  | EstablishConnection _ _ =>
      match o with
      | Succeeds => Some (Ok (mkClient true false), w)
      | Fails e => Some (Err e, w)
      end
  | StartNotify _ =>
      match o with
      | Succeeds =>
          match _client (coordinator w) with
          | Some c =>
              if is_connected c then Some (Ok tt, set_link (Some (mkClient true true)) w)
              else None
          | None => None
          end
      | Fails e => Some (Err e, w)
      end
  | StopNotify _ =>
      match o with
      | Succeeds =>
          match _client (coordinator w) with
          | Some c =>
              if is_connected c then Some (Ok tt, set_link (Some (mkClient true false)) w)
              else None
          | None => None
          end
      | Fails e => Some (Err e, w)
      end
  | ClientDisconnect =>
      match o with
      | Succeeds =>
          match _client (coordinator w) with
          | Some c =>
              if is_connected c then
                Some (Ok tt, call_back _disconnected_callback
                               (set_link (Some (mkClient false false)) w))
              else Some (Ok tt, w)
          | None => Some (Ok tt, w)
          end
      | Fails e => Some (Err e, w)
      end
  | Sleep seconds =>
      match o with
      | Succeeds =>
          if (suspended + seconds <=? clock w)%nat then Some (Ok tt, w) else None
      | Fails _ => None
      end
  | AsyncConfigEntryFirstRefresh _ => None
  | AsyncForwardEntrySetups _ _ => None
  end.

Definition store_task (t : nat) (p : method unit) (w : World) : World :=
  set_tasks (<[t := mkTask p true (clock w) false]> (tasks w)) w.

(** Let task [t] run from [p] to its next suspension. *)
Definition continue (t : nat) (p : method unit) (w : World) : World :=
  let '(p', w') := run p w in store_task t p' w'.

Definition resume (t : nat) (o : Outcome) (w : World) : option World :=
  task ← tasks w !! t;
  if negb (started task) then
    if cancel_requested task then Some (store_task t (Raise CancelledError) w)
    else Some (continue t (prog task) w)
  else
    match prog task with
    | Await a k =>
        if cancel_requested task then Some (continue t (k (Err CancelledError)) w)
        else
          '(r, w') ← await_outcome a o (since task) w;
          Some (continue t (k r) w')
    | _ => None
    end.

Inductive Label : Type :=
| Resume (t : nat) (o : Outcome)      (* the loop resumes a task *)
| Notification (payload : list byte)  (* the adapter delivers a notification *)
| LinkLost                            (* the adapter reports the link gone *)
| Elapse (seconds : nat)
| Spawn (c : Entry)                   (* a caller starts a coroutine *)
| Range (b : bool).                   (* the bike comes in or goes out of range *)

Definition step (l : Label) (w : World) : option World :=
  match l with
  | Resume t o => resume t o w
  | Notification payload =>
      match _client (coordinator w) with
      | Some c =>
          if is_connected c && notifying c
          then Some (call_back (_notification_handler payload) w)
          else None
      | None => None
      end
  | LinkLost =>
      if client_connected (coordinator w)
      then Some (call_back _disconnected_callback
                   (set_link (Some (mkClient false false)) w))
      else None
  | Elapse seconds =>
      Some (mkWorld (coordinator w) (tasks w) (clock w + seconds) (in_range w)
              (events w))
  | Spawn c => Some (host_call (AsyncCreateTask c) w).2
  | Range b =>
      Some (mkWorld (coordinator w) (tasks w) (clock w) b (events w))
  end.

Fixpoint exec (ls : list Label) (w : World) : option World :=
  match ls with
  | [] => Some w
  | l :: ls => w' ← step l w; exec ls w'
  end.

Definition boot (address : string) : World :=
  mkWorld (HyenaEBikeCoordinator address) [] 0 true [].

(** A coroutine driven alone to its end: each suspension is completed by
    the next outcome of the list. *)
Fixpoint drive {A} (os : list Outcome) (p : method A) (w : World)
    : option (result A * World) :=
  let '(p', w') := run p w in
  match p' with
  | Ret a => Some (Ok a, w')
  | Raise e => Some (Err e, w')
  | Await a k =>
      match os with
      | [] => None
      | o :: os' =>
          match await_outcome a o (clock w') w' with
          | Some (r, w'') => drive os' (k r) w''
          | None => None
          end
      end
  | _ => None
  end.

(** The adapter delivers the notifications of a list, in order. *)
Definition deliver (payloads : list (list byte)) (w : World) : World :=
  fold_left (fun w payload => call_back (_notification_handler payload) w)
    payloads w.

(** ** sensor.py: [native_value] of the two sensors *)

Definition battery_native_value (c : Coordinator) : pyval :=
  dict_get (data c) SENSOR_BATTERY.

Definition temperature_native_value (c : Coordinator) : pyval :=
  dict_get (data c) SENSOR_TEMPERATURE.

(** ** The decoder and the store of the specification

    [decode] is the contract of section 4.1 read off the handler: the
    delimiter test, [_parse_packet], the test for a missing value and the
    dispatch on the packet identifier.  [handler_decode_apply] below shows
    that the handler is [decode] followed by [apply]. *)

Inductive DecodedReading : Type :=
| BatterySoc (percent : Z)
| BatteryTemperature (celsius : float).

Definition decode_frame (payload : list byte) : result (option DecodedReading) :=
  packet_info ← _parse_packet payload;
  match packet_info with
  | None => Ok None
  | Some packet_info =>
      if dict_falsy (Some packet_info) then Ok None
      else
        packet_id ← dict_getitem packet_info "packet_id";
        let parsed_value := dict_get packet_info "parsed_value" in
        if is_None parsed_value then Ok None
        else if py_eq packet_id PACKET_ID_BATTERY_SOC then
          match parsed_value with
          | PyInt v => Ok (Some (BatterySoc v))
          | _ => Err TypeError
          end
        else if py_eq packet_id PACKET_ID_TEMPERATURE then
          t ← py_truediv parsed_value (PyFloat 10);
          match t with
          | PyFloat f => Ok (Some (BatteryTemperature f))
          | _ => Err TypeError
          end
        else Ok None
  end.

Definition decode (payload : list byte) : result (option DecodedReading) :=
  if bool_decide (payload = FRAME_DELIMITER) then Ok None
  else decode_frame payload.

Definition metric_key (r : DecodedReading) : string :=
  match r with
  | BatterySoc _ => SENSOR_BATTERY
  | BatteryTemperature _ => SENSOR_TEMPERATURE
  end.

Definition metric_value (r : DecodedReading) : pyval :=
  match r with
  | BatterySoc v => PyInt v
  | BatteryTemperature f => PyFloat f
  end.

(** Section 4.2: the slot of the reading's metric is overwritten. *)
Definition apply (r : DecodedReading) (c : Coordinator) : Coordinator :=
  set_data (<[metric_key r := metric_value r]> (data c)) c.

(** What the handler does once a reading is stored: it publishes the store
    and restarts the idle timer. *)
Definition publish_and_reset : method unit :=
  self ← load;
  host (AsyncSetUpdatedData (data self));;
  _reset_disconnect_timer.

(** ** __init__.py: [async_setup_entry] *)

Definition CONF_DEVICE_ADDRESS : string := "device_address".
Definition PLATFORMS : list Platform := [SENSOR].

Record ConfigEntry : Type := mkEntry {
  entry_id : string;
  entry_data : gmap string string;
}.

(** [hass]: the coordinator objects, [hass.data] (which holds references to
    them) and the platforms set up for each entry. *)
Record HomeAssistant : Type := mkHass {
  objects : list Coordinator;
  hass_data : gmap string (gmap string nat);
  forwarded : list (string * list Platform);
}.

Definition new_coordinator (address : string) : coro HomeAssistant nat :=
  Load (fun hass =>
    Store (mkHass (objects hass ++ [HyenaEBikeCoordinator address])
             (hass_data hass) (forwarded hass))
      (Ret (length (objects hass)))).

(** [hass.data.setdefault(DOMAIN, {})] *)
Definition setdefault_domain (hass : HomeAssistant) : HomeAssistant :=
  match hass_data hass !! DOMAIN with
  | Some _ => hass
  | None => mkHass (objects hass) (<[DOMAIN := ∅]> (hass_data hass)) (forwarded hass)
  end.

(** [hass.data[DOMAIN][entry.entry_id] = coordinator] *)
Definition register (entry : ConfigEntry) (coordinator : nat)
    : coro HomeAssistant unit :=
  Load (fun hass =>
    match hass_data hass !! DOMAIN with
    | None => Raise KeyError
    | Some d =>
        Store (mkHass (objects hass)
                 (<[DOMAIN := <[entry_id entry := coordinator]> d]> (hass_data hass))
                 (forwarded hass))
          (Ret tt)
    end).

Definition async_setup_entry (entry : ConfigEntry) : coro HomeAssistant bool :=
  device_address ←
    lift (match entry_data entry !! CONF_DEVICE_ADDRESS with
          | Some a => Ok a
          | None => Err KeyError
          end);
  coordinator ← new_coordinator device_address;
  try_catch (await (AsyncConfigEntryFirstRefresh coordinator))
    isinstance_Exception (fun ex => Ret tt);;
  modify setdefault_domain;;
  register entry coordinator;;
  await (AsyncForwardEntrySetups (entry_id entry) PLATFORMS);;
  Ret true.

(** What the host does for the two awaitables of the set-up: the first
    refresh leaves the coordinator object in some state and returns or
    raises; forwarding to the platforms returns or raises. *)
Record SetupEnv : Type := mkSetupEnv {
  first_refresh : Coordinator -> Coordinator * result unit;
  forward_entry_setups : result unit;
}.

Definition setup_outcome {R} (env : SetupEnv) (a : awaitE R) (hass : HomeAssistant)
    : option (result R * HomeAssistant) :=
  match a in awaitE R return option (result R * HomeAssistant) with
  | AsyncConfigEntryFirstRefresh ref =>
      match objects hass !! ref with
      | Some c =>
          let '(c', r) := first_refresh env c in
          Some (r, mkHass (<[ref := c']> (objects hass)) (hass_data hass)
                     (forwarded hass))
      | None => None
      end
  | AsyncForwardEntrySetups id platforms =>
      match forward_entry_setups env with
      | Ok _ =>
          Some (Ok tt, mkHass (objects hass) (hass_data hass)
                         (forwarded hass ++ [(id, platforms)]))
      | Err e => Some (Err e, hass)
      end
  | _ => None
  end.

(** The set-up run to its end; [None] when it meets a call that is not the
    set-up's. *)
Fixpoint run_setup {A} (env : SetupEnv) (p : coro HomeAssistant A)
    (hass : HomeAssistant) : option (result A * HomeAssistant) :=
  match p with
  | Ret a => Some (Ok a, hass)
  | Raise e => Some (Err e, hass)
  | Load k => run_setup env (k hass) hass
  | Store s k => run_setup env k s
  | Host _ _ => None
  | Await a k =>
      match setup_outcome env a hass with
      | Some (r, hass') => run_setup env (k r) hass'
      | None => None
      end
  end.

(** ** Auxiliary definitions of the statements *)

(** The [packet_info] dict [_parse_packet] returns for a recognised frame. *)
Definition packet_info_of (payload : list byte) (packet_id parsed_value : pyval)
    : gmap string pyval :=
  <["parsed_value" := parsed_value]>
    (<["parsed_value" := PyNone]>
       (<["raw_data" := PyStr (hex payload)]>
          (<["packet_id" := packet_id]> ∅))).

(** The shapes a notification payload can have, as [_parse_packet] tells
    them apart. *)
Inductive frame_shape (payload : list byte) : Prop :=
| shape_short : (length payload < 2)%nat -> frame_shape payload
| shape_battery p rest : payload = x0a :: p :: rest -> frame_shape payload
| shape_temperature hi lo rest :
    payload = x07 :: hi :: lo :: rest -> frame_shape payload
| shape_temperature_short b : payload = [x07; b] -> frame_shape payload
| shape_other tag p rest :
    payload = tag :: p :: rest -> tag <> x0a -> tag <> x07 -> frame_shape payload.

(** The handler, as the decoder followed by the store and the publication. *)
Definition handler_spec (payload : list byte) (w : World) : method unit * World :=
  match decode payload with
  | Ok None => (Ret tt, w)
  | Ok (Some r) =>
      run publish_and_reset (set_coordinator (apply r (coordinator w)) w)
  | Err e => (Raise e, w)
  end.

(** What [_reset_disconnect_timer] asks of the host. *)
Definition restart_events (w : World) : list Event :=
  match _disconnect_task (coordinator w) with
  | Some t => [EvTaskCancel t]
  | None => []
  end ++ [EvTaskCreated (length (tasks w)) DisconnectAfterDelay].

(** The payloads for which the decoder yields no reading. *)
Definition no_reading (payload : list byte) : Prop :=
  payload = FRAME_DELIMITER
  \/ (length payload < 2)%nat
  \/ (exists tag rest, payload = tag :: rest /\ tag <> x0a /\ tag <> x07)
  \/ (exists rest, payload = x0a :: rest /\ (length rest < 1)%nat)
  \/ (exists rest, payload = x07 :: rest /\ (length rest < 2)%nat).

(** A battery value in the range of a percentage, and in the range of a
    byte. *)
Definition percentage (v : pyval) : Prop :=
  v = PyNone \/ exists z, v = PyInt z /\ 0 <= z <= 100.

Definition byte_ranged (v : pyval) : Prop :=
  v = PyNone \/ exists z, v = PyInt z /\ 0 <= z <= 255.

Definition published_byte_ranged (e : Event) : Prop :=
  match e with
  | EvPublished d => byte_ranged (dict_get d SENSOR_BATTERY)
  | _ => True
  end.

(** The bike connected and subscribed, nothing received yet. *)
Definition connect_schedule : list Label :=
  [Spawn EnsureConnection; Resume 0 Succeeds; Resume 0 Succeeds; Resume 0 Succeeds].

(** The store and everything published so far hold a battery value in the
    range of a byte. *)
Definition world_byte_ranged (w : World) : Prop :=
  byte_ranged (battery_native_value (coordinator w))
  /\ Forall published_byte_ranged (events w).

(** The address of the bike in the concrete scenarios. *)
Definition address_of_bike : string := "AA:BB:CC:00:00:01".

(** The world after an unexpected disconnection was reported: the link
    state cleared and one task created to refresh. *)
Definition reconnect_scheduled (w : World) : World :=
  emit (EvTaskCreated (length (tasks w)) AsyncUpdateData)
    (set_tasks (tasks w ++ [mkTask (entry_body AsyncUpdateData) false (clock w) false])
       (set_link None w)).

(** Steps in which nothing is received and nobody calls the coordinator:
    time passes, the loop resumes tasks, the bike moves in or out of range. *)
Definition quiet (l : Label) : Prop :=
  match l with
  | Elapse _ | Resume _ _ | Range _ => True
  | _ => False
  end.

(** The state [connect_schedule] leads to. *)
Definition connected_and_silent (address : string) (w : World) : Prop :=
  coordinator w
  = mkCoordinator address (Some (mkClient true true)) false None false
      (data (HyenaEBikeCoordinator address))
  /\ tasks w = [mkTask (Ret tt) true 0 false]
  /\ events w
     = [EvTaskCreated 0 EnsureConnection; EvConnectAttempt address; EvStartNotify].

Definition is_connect_attempt (e : Event) : bool :=
  match e with EvConnectAttempt _ => true | _ => false end.

(** How many times [establish_connection] was called. *)
Definition connect_attempts (w : World) : nat :=
  length (filter (fun e => is_connect_attempt e = true) (events w)).

Definition returned (t : TaskState) : bool :=
  match prog t with Ret _ => true | _ => false end.

Definition all_returned (w : World) : bool := forallb returned (tasks w).

(** Two callers of [_ensure_connection] on a fresh coordinator, neither of
    them started. *)
Definition two_callers (address : string) : World :=
  (host_call (AsyncCreateTask EnsureConnection)
     (host_call (AsyncCreateTask EnsureConnection) (boot address)).2).2.

(** The loop resumes a task whose awaited operation succeeded. *)
Definition is_resume_success (l : Label) : Prop :=
  exists t, l = Resume t Succeeds.

Definition one_attempt (w : World) : bool :=
  (connect_attempts w <=? 1)%nat
  && (if all_returned w
      then (connect_attempts w =? 1)%nat && client_connected (coordinator w)
      else true).

(** A task inside the connect sequence: suspended on
    [establish_connection] or on [start_notify]. *)
Definition connecting (t : TaskState) : bool :=
  match prog t with
  | Await (EstablishConnection _ _) _ => true
  | Await (StartNotify _) _ => true
  | _ => false
  end.

Definition in_connect_sequence (w : World) : nat :=
  length (filter (fun t => connecting t = true) (tasks w)).

Definition once_and_serialized (w : World) : bool :=
  one_attempt w && (in_connect_sequence w <=? 1)%nat.

(** The temperature of the raw value [v]. *)
Definition tenths (v : Z) : float := PrimFloat.div (float_of_Z v) 10.

Definition tenths_exact (v : Z) : bool :=
  PrimFloat.eqb (PrimFloat.mul (tenths v) 10) (float_of_Z v)
  && PrimFloat.ltb (tenths v) (tenths (v + 1)).

(** [tenths_exact] on the [n] values from [v] on. *)
Fixpoint tenths_exact_from (n : nat) (v : Z) : bool :=
  match n with
  | O => true
  | S n => tenths_exact v && tenths_exact_from n (v + 1)
  end.

(** [P] holds in every world reached by resuming tasks, in any order, and
    no run is longer than [n] steps. *)
Fixpoint explore (n : nat) (P : World -> bool) (w : World) : bool :=
  P w
  && forallb (fun t =>
       match resume t Succeeds w with
       | None => true
       | Some w' =>
           match n with
           | O => false
           | S n' => explore n' P w'
           end
       end) (seq 0 (length (tasks w))).

(** Two fallback polls ([_async_update_data]) on a fresh coordinator. *)
Definition two_polls (address : string) : World :=
  (host_call (AsyncCreateTask AsyncUpdateData)
     (host_call (AsyncCreateTask AsyncUpdateData) (boot address)).2).2.

(** One interleaving of the two callers: the second asks for the lock
    while the first is connecting. *)
Definition interleaving : list Label :=
  [Resume 0 Succeeds; Resume 1 Succeeds; Resume 0 Succeeds; Resume 0 Succeeds;
   Resume 1 Succeeds].

(** ** sensor.py: availability, icon, unique identifiers, platform set-up *)

(** [HyenaEBikeSensorBase.available], given the [last_update_success] the
    host keeps for the coordinator. *)
Definition available (last_update_success : bool) (native_value : pyval) : bool :=
  last_update_success && negb (is_None native_value).

(** [a >= b] *)
Definition py_ge (a b : pyval) : result bool :=
  match a, b with
  | PyInt x, PyInt y => Ok (y <=? x)
  | PyFloat x, PyFloat y => Ok (PrimFloat.leb y x)
  | PyInt x, PyFloat y => Ok (PrimFloat.leb y (float_of_Z x))
  | PyFloat x, PyInt y => Ok (PrimFloat.leb (float_of_Z y) x)
  | PyStr x, PyStr y => Ok (String.leb y x)
  | _, _ => Err TypeError
  end.

(** [HyenaBatterySensor.icon] *)
Definition battery_icon (c : Coordinator) : result string :=
  let battery_level := battery_native_value c in
  if is_None battery_level then Ok "mdi:battery-unknown"
  else
    b ← py_ge battery_level (PyInt 90);
    if (b : bool) then Ok "mdi:battery" else
    b ← py_ge battery_level (PyInt 80);
    if (b : bool) then Ok "mdi:battery-90" else
    b ← py_ge battery_level (PyInt 70);
    if (b : bool) then Ok "mdi:battery-80" else
    b ← py_ge battery_level (PyInt 60);
    if (b : bool) then Ok "mdi:battery-70" else
    b ← py_ge battery_level (PyInt 50);
    if (b : bool) then Ok "mdi:battery-60" else
    b ← py_ge battery_level (PyInt 40);
    if (b : bool) then Ok "mdi:battery-50" else
    b ← py_ge battery_level (PyInt 30);
    if (b : bool) then Ok "mdi:battery-40" else
    b ← py_ge battery_level (PyInt 20);
    if (b : bool) then Ok "mdi:battery-30" else
    b ← py_ge battery_level (PyInt 10);
    if (b : bool) then Ok "mdi:battery-20" else
    Ok "mdi:battery-10".

(** [f"{coordinator.device_address}_{SENSOR_BATTERY}"] and its counterpart *)
Definition battery_unique_id (c : Coordinator) : string :=
  device_address c +:+ "_" +:+ SENSOR_BATTERY.
Definition temperature_unique_id (c : Coordinator) : string :=
  device_address c +:+ "_" +:+ SENSOR_TEMPERATURE.

(** A sensor entity: the coordinator it reads (a reference into [hass]),
    its name and the unique identifier its constructor computes. *)
Record SensorEntity : Type := mkSensor {
  sensor_coordinator : nat;
  _attr_name : string;
  _attr_unique_id : string;
}.

Definition HyenaBatterySensor (coordinator : nat) (c : Coordinator) : SensorEntity :=
  mkSensor coordinator "Battery" (battery_unique_id c).
Definition HyenaTemperatureSensor (coordinator : nat) (c : Coordinator)
    : SensorEntity :=
  mkSensor coordinator "Battery Temperature" (temperature_unique_id c).

Module sensor.
(** sensor.py: [async_setup_entry]; the result is the list handed to
    [async_add_entities].  A reference of the registry always denotes an
    object of [hass], so the last [None] stands for no state of a run. *)
Definition async_setup_entry (config_entry : ConfigEntry) (hass : HomeAssistant)
    : result (list SensorEntity) :=
  match hass_data hass !! DOMAIN with
  | None => Err KeyError
  | Some registry =>
      match registry !! entry_id config_entry with
      | None => Err KeyError
      | Some coordinator =>
          match objects hass !! coordinator with
          | None => Err AttributeError
          | Some c =>
              Ok [HyenaBatterySensor coordinator c;
                  HyenaTemperatureSensor coordinator c]
          end
      end
  end.
End sensor.

(** ** __init__.py: [async_unload_entry] *)

(** What the host does for the two awaits of the unload: unloading the
    platforms returns a flag or raises; [async_shutdown] leaves the
    coordinator object in some state and returns or raises. *)
Record UnloadEnv : Type := mkUnloadEnv {
  unload_platforms : result bool;
  shutdown : Coordinator -> Coordinator * result unit;
}.

Definition async_unload_entry (env : UnloadEnv) (entry : ConfigEntry)
    (hass : HomeAssistant) : result bool * HomeAssistant :=
  match unload_platforms env with
  | Err e => (Err e, hass)
  | Ok unload_ok =>
      if unload_ok then
        match hass_data hass !! DOMAIN with
        | None => (Err KeyError, hass)
        | Some registry =>
            match registry !! entry_id entry with
            | None => (Err KeyError, hass)
            | Some coordinator =>
                match objects hass !! coordinator with
                | None => (Err AttributeError, hass)
                | Some c =>
                    let '(c', r) := shutdown env c in
                    let hass := mkHass (<[coordinator := c']> (objects hass))
                                  (hass_data hass) (forwarded hass) in
                    match r with
                    | Err e => (Err e, hass)
                    | Ok _ =>
                        (Ok unload_ok,
                         mkHass (objects hass)
                           (<[DOMAIN := delete (entry_id entry) registry]>
                              (hass_data hass))
                           (forwarded hass))
                    end
                end
            end
        end
      else (Ok unload_ok, hass)
  end.

(** ** config_flow.py *)

Definition DEVICE_NAME : string := "XWTK00008OXW".
(** [homeassistant.const.CONF_ADDRESS] *)
Definition CONF_ADDRESS : string := "address".

(** [BluetoothServiceInfoBleak]: the advertised name, possibly missing, and
    the address. *)
Record ServiceInfo : Type := mkInfo {
  info_name : option string;
  info_address : string;
}.

Inductive Schema : Type :=
| SchemaStr                                  (* {Required(CONF_ADDRESS): str} *)
| SchemaIn (choices : gmap string string).   (* {Required(CONF_ADDRESS): In(choices)} *)

(** What a step returns.  A placeholder holds a name, which can be [None]. *)
Inductive FlowResult : Type :=
| FlowAbort (reason : string)
| FlowCreateEntry (title : string) (entry_data : gmap string string)
| FlowShowForm (step_id : string) (data_schema : option Schema)
    (errors : option (gmap string string))
    (description_placeholders : option (gmap string (option string))).

(** How a step ends: it returns, the host's helper raises [AbortFlow], or
    the step raises. *)
Inductive FlowOutcome : Type :=
| Returns (r : FlowResult)
| AbortFlow (reason : string)
| Raises (e : exn).

Record ConfigFlow : Type := mkFlow {
  _discovery_info : option ServiceInfo;
  _discovered_devices : gmap string ServiceInfo;
  unique_id : option string;
  confirm_only : bool;
}.

(** [__init__] *)
Definition HyenaEBikeConfigFlow : ConfigFlow := mkFlow None ∅ None false.

(** [homeassistant.config_entries]: the sources of a flow or of an entry. *)
Definition SOURCE_USER : string := "user".
Definition SOURCE_BLUETOOTH : string := "bluetooth".
Definition SOURCE_IGNORE : string := "ignore".

(** What the host knows while a step of the flow runs: the source the flow
    was started with ([self.source], that is [self.context["source"]], which
    the flow manager sets and the integration never changes), the entries of
    the domain that have a unique id, each with its source (the host keeps
    one entry per unique id), the unique ids of the other flows of the
    domain in progress, and the devices the Bluetooth integration has
    discovered. *)
Record FlowHost : Type := mkFlowHost {
  flow_source : string;
  entries : gmap string string;
  in_progress : gset string;
  discovered_service_info : list ServiceInfo;
}.

(** [self._async_current_ids()]: the unique ids of all the entries of the
    domain, the ignored ones included. *)
Definition current_ids (host : FlowHost) : gset string := dom (entries host).

(** [name and name.startswith(DEVICE_NAME)] *)
Definition name_supported (name : option string) : bool :=
  match name with
  | None => false
  | Some n => negb (bool_decide (n = "")) && String.prefix DEVICE_NAME n
  end.

(** [f"{name}"] *)
Definition format_name (name : option string) : string := default "None" name.

(** [await self.async_set_unique_id(a)], whose result the steps drop: when
    another flow of the domain is in progress for [a] the helper raises
    [AbortFlow("already_in_progress")] before it sets anything; otherwise
    the unique id of the flow becomes [a].  (The helper then also aborts the
    flows in progress that were discovered without a unique id; these are
    other flows, which no step of this one reads.) *)
Definition async_set_unique_id (host : FlowHost) (a : string) (self : ConfigFlow)
    : option string * ConfigFlow :=
  if bool_decide (a ∈ in_progress host)
  then (Some "already_in_progress", self)
  else (None,
        mkFlow (_discovery_info self) (_discovered_devices self) (Some a)
          (confirm_only self)).

(** [self._abort_if_unique_id_configured()], called without updates: with
    no unique id or no entry that has it the helper returns; an ignored
    entry lets a flow started by the user through; any other entry raises
    [AbortFlow("already_configured")]. *)
Definition _abort_if_unique_id_configured (host : FlowHost) (self : ConfigFlow)
    : option string :=
  match unique_id self with
  | None => None
  | Some a =>
      match entries host !! a with
      | None => None
      | Some source =>
          if bool_decide (source = SOURCE_IGNORE)
             && bool_decide (flow_source host = SOURCE_USER)
          then None
          else Some "already_configured"
      end
  end.

Definition async_step_confirm (user_input : option (gmap string string))
    (self : ConfigFlow) : FlowOutcome * ConfigFlow :=
  match user_input with
  | Some _ =>
      match _discovery_info self with
      | None => (Raises AttributeError, self)
      | Some info =>
          (Returns (FlowCreateEntry
                      ("Hyena E-Bike (" +:+ format_name (info_name info) +:+ ")")
                      (<[CONF_DEVICE_ADDRESS := info_address info]> ∅)), self)
      end
  | None =>
      let self := mkFlow (_discovery_info self) (_discovered_devices self)
                    (unique_id self) true in
      match _discovery_info self with
      | None => (Raises AttributeError, self)
      | Some info =>
          (Returns (FlowShowForm "confirm" None None
                      (Some (<["address" := Some (info_address info)]>
                               (<["name" := info_name info]> ∅)))), self)
      end
  end.

Definition async_step_bluetooth (host : FlowHost) (discovery_info : ServiceInfo)
    (self : ConfigFlow) : FlowOutcome * ConfigFlow :=
  if negb (name_supported (info_name discovery_info))
  then (Returns (FlowAbort "not_supported"), self)
  else
    match async_set_unique_id host (info_address discovery_info) self with
    | (Some reason, self) => (AbortFlow reason, self)
    | (None, self) =>
        match _abort_if_unique_id_configured host self with
        | Some reason => (AbortFlow reason, self)
        | None =>
            let self := mkFlow (Some discovery_info) (_discovered_devices self)
                          (unique_id self) (confirm_only self) in
            async_step_confirm None self
        end
    end.

(** The body of the loop over the discovered devices. *)
Definition remember_device (host : FlowHost) (self : ConfigFlow) (device : ServiceInfo)
    : ConfigFlow :=
  if name_supported (info_name device)
     && negb (bool_decide (info_address device ∈ current_ids host))
  then mkFlow (_discovery_info self)
         (<[info_address device := device]> (_discovered_devices self))
         (unique_id self) (confirm_only self)
  else self.

Definition async_step_user (host : FlowHost)
    (user_input : option (gmap string string)) (self : ConfigFlow)
    : FlowOutcome * ConfigFlow :=
  match user_input with
  | Some user_input =>
      match user_input !! CONF_ADDRESS with
      | None => (Raises KeyError, self)
      | Some address =>
          match async_set_unique_id host address self with
          | (Some reason, self) => (AbortFlow reason, self)
          | (None, self) =>
              match _abort_if_unique_id_configured host self with
              | Some reason => (AbortFlow reason, self)
              | None =>
                  (Returns (FlowCreateEntry ("Hyena E-Bike (" +:+ address +:+ ")")
                              (<[CONF_DEVICE_ADDRESS := address]> ∅)), self)
              end
          end
      end
  | None =>
      let self := fold_left (remember_device host) (discovered_service_info host) self in
      let data_schema :=
        if bool_decide (_discovered_devices self = ∅) then SchemaStr
        else SchemaIn
               (map_imap (fun address device =>
                  Some (format_name (info_name device) +:+ " (" +:+ address +:+ ")"))
                  (_discovered_devices self)) in
      (Returns (FlowShowForm "user" (Some data_schema) (Some ∅) None), self)
  end.

(** ** Auxiliary definitions of the further statements *)

(** The exception [_ensure_connection] surfaces for a failure [e] of the
    adapter. *)
Definition surfaced (e : exn) : exn :=
  if caught_bleak_or_timeout e then UpdateFailed else e.

(** What [_async_disconnect] returns for a failure [e] of the adapter. *)
Definition swallowed (e : exn) : result unit :=
  if caught_bleak e then Ok tt else Err e.

Definition disconnect_result (o1 o2 : Outcome) : result unit :=
  match o1 with
  | Fails e => swallowed e
  | Succeeds => match o2 with Succeeds => Ok tt | Fails e => swallowed e end
  end.

Definition disconnect_events (o1 : Outcome) : list Event :=
  match o1 with
  | Succeeds => [EvStopNotify; EvClientDisconnect]
  | Fails _ => [EvStopNotify]
  end.

(** The tasks once the idle timer, if any, was asked to stop. *)
Definition timer_cancelled (w : World) : list TaskState :=
  match _disconnect_task (coordinator w) with
  | Some t => alter request_cancel t (tasks w)
  | None => tasks w
  end.

(** The band of ten a level falls in: below 10 is band 0, 90 and above
    band 9. *)
Definition icon_band (level : Z) : Z := Z.max 0 (Z.min 9 (level / 10)).

Definition icon_of_band (band : Z) : string :=
  match band with
  | 0 => "mdi:battery-10" | 1 => "mdi:battery-20" | 2 => "mdi:battery-30"
  | 3 => "mdi:battery-40" | 4 => "mdi:battery-50" | 5 => "mdi:battery-60"
  | 6 => "mdi:battery-70" | 7 => "mdi:battery-80" | 8 => "mdi:battery-90"
  | _ => "mdi:battery"
  end.

(** The form the discovery step shows, and the entry a flow creates. *)
Definition confirm_form (info : ServiceInfo) : FlowResult :=
  FlowShowForm "confirm" None None
    (Some (<["address" := Some (info_address info)]>
             (<["name" := info_name info]> ∅))).

Definition entry_for (label address : string) : FlowResult :=
  FlowCreateEntry ("Hyena E-Bike (" +:+ label +:+ ")")
    (<[CONF_DEVICE_ADDRESS := address]> ∅).

(** What [_abort_if_unique_id_configured] finds for an address: no entry at
    all, or an ignored entry met by a flow the user started. *)
Definition lets_through (host : FlowHost) (address : string) : Prop :=
  entries host !! address = None
  \/ (entries host !! address = Some SOURCE_IGNORE
      /\ flow_source host = SOURCE_USER).

(** A discovered device the user step offers, and its label. *)
Definition offerable (host : FlowHost) (device : ServiceInfo) : Prop :=
  name_supported (info_name device) = true
  /\ info_address device ∉ current_ids host.

Definition choice_label (device : ServiceInfo) : string :=
  format_name (info_name device) +:+ " (" +:+ info_address device +:+ ")".

(** The first refresh did not end in a cancellation. *)
Definition refresh_handled (r : result unit) : Prop :=
  match r with
  | Ok _ => True
  | Err e => isinstance_Exception e = true
  end.

(** The registry of the integration in [hass.data], empty when absent. *)
Definition registry_of (hass : HomeAssistant) : gmap string nat :=
  default ∅ (hass_data hass !! DOMAIN).

(** ** Invariants of the event loop *)

(** [p] leaves the store alone: started with the store [d], every state it
    writes before its next suspension holds [d]; after a suspension the
    same holds for whatever store it then finds. *)
Fixpoint keeps_data {A} (p : method A) (d : gmap string pyval) : Prop :=
  match p with
  | Ret _ | Raise _ => True
  | Load k => forall s, data s = d -> keeps_data (k s) d
  | Store s k => data s = d /\ keeps_data k d
  | Host _ k => forall r, keeps_data (k r) d
  | Await _ k => forall r d', keeps_data (k r) d'
  end.

Definition keeps {A} (p : method A) : Prop := forall d, keeps_data p d.

(** The payloads of the notifications of a schedule, in order. *)
Fixpoint notifications (ls : list Label) : list (list byte) :=
  match ls with
  | [] => []
  | Notification payload :: ls => payload :: notifications ls
  | _ :: ls => notifications ls
  end.

(** What a payload does to the store. *)
Definition stored (d : gmap string pyval) (payload : list byte) : gmap string pyval :=
  match decode payload with
  | Ok (Some r) => <[metric_key r := metric_value r]> d
  | _ => d
  end.

Definition tasks_keep (w : World) : Prop :=
  Forall (fun t => keeps (prog t)) (tasks w).

(** What a coroutine can be suspended on, as far as the lock is concerned. *)
Inductive AwaitKind : Type := OnLock | OnConnect | OnOther.

Definition await_kind {R} (a : awaitE R) : AwaitKind :=
  match a with
  | LockAcquire => OnLock
  | EstablishConnection _ _ | StartNotify _ => OnConnect
  | _ => OnOther
  end.

(** The lock discipline of a coroutine that runs with the lock flag [cur]
    and holds the lock or not ([mine]): it asks for the lock only when it
    does not hold it, waits for the adapter to connect only when it does,
    changes the flag only when it holds the lock, and ends in [Q]. *)
Fixpoint disciplined {A} (p : method A) (mine cur : bool)
    (Q : bool -> bool -> Prop) : Prop :=
  match p with
  | Ret _ | Raise _ => Q mine cur
  | Load k => forall s, _connection_lock s = cur -> disciplined (k s) mine cur Q
  | Store s k =>
      (mine = false -> _connection_lock s = cur)
      /\ disciplined k (mine && _connection_lock s) (_connection_lock s) Q
  | Host _ k => forall r, disciplined (k r) mine cur Q
  | Await a k =>
      match await_kind a with
      | OnLock =>
          mine = false
          /\ forall r, match r with
                       | Ok _ => disciplined (k r) true true Q
                       | Err _ => forall cur', disciplined (k r) false cur' Q
                       end
      | OnConnect => mine = true /\ forall r, disciplined (k r) true true Q
      | OnOther =>
          forall r, if mine then disciplined (k r) true true Q
                    else forall cur', disciplined (k r) false cur' Q
      end
  end.

Definition released (mine cur : bool) : Prop := mine = false.

(** A coroutine that can be started at any time. *)
Definition startable {A} (p : method A) : Prop :=
  forall cur, disciplined p false cur released.

Definition task_disciplined (mine : bool) (task : TaskState) : Prop :=
  (forall cur, disciplined (prog task) mine cur released)
  /\ (mine = true -> started task = true).

(** The tasks other than [skip] follow the discipline, [owner] holding the
    lock. *)
Definition tasks_disciplined (skip owner : option nat) (ts : list TaskState) : Prop :=
  (forall t, owner = Some t -> (t < length ts)%nat)
  /\ forall t task, ts !! t = Some task -> skip <> Some t ->
       task_disciplined (bool_decide (owner = Some t)) task.

Definition lock_inv (owner : option nat) (w : World) : Prop :=
  _connection_lock (coordinator w) = bool_decide (is_Some owner)
  /\ tasks_disciplined None owner (tasks w).

(** The idle timer once started: suspended on its sleep. *)
Definition sleeping_timer : method unit := (run _disconnect_after_delay (boot "")).1.

(** The raw value a temperature was computed from: ten times the
    temperature, read as an integer off its mantissa and exponent. *)
Definition raw_of_tenths (f : float) : Z :=
  let '(m, e) := PrimFloat.frshiftexp (PrimFloat.mul f 10) in
  Z.shiftr (Uint63.to_Z (PrimFloat.normfr_mantissa m))
    (53 - (Uint63.to_Z e - 2101)).

Fixpoint raw_recovered_from (n : nat) (v : Z) : bool :=
  match n with
  | O => true
  | S n => (raw_of_tenths (tenths v) =? v) && raw_recovered_from n (v + 1)
  end.

(** ** The idle timer in the event loop *)

Definition is_sleep {R} (a : awaitE R) : bool :=
  match a with Sleep _ => true | _ => false end.

(** The host calls of a coroutine that leaves the idle timer alone: it
    cancels no task and creates no timer. *)
Definition timer_host_ok {R} (c : hostE R) : Prop :=
  match c with
  | TaskCancel _ => False
  | AsyncCreateTask DisconnectAfterDelay => False
  | _ => True
  end.

(** A coroutine that leaves the idle timer alone: it never sleeps, never
    cancels a task or creates a timer, and writes [_disconnect_task] back as
    it found it. *)
Fixpoint timer_free {A} (p : method A) (cur : option nat) : Prop :=
  match p with
  | Ret _ | Raise _ => True
  | Load k => forall s, _disconnect_task s = cur -> timer_free (k s) cur
  | Store s k => _disconnect_task s = cur /\ timer_free k cur
  | Host c k => timer_host_ok c /\ forall r, timer_free (k r) cur
  | Await a k => is_sleep a = false /\ forall r cur', timer_free (k r) cur'
  end.

Definition sleeps_first {A} (p : method A) : bool :=
  match p with
  | Await a _ => is_sleep a
  | _ => false
  end.

(** An idle timer waiting to fire: not asked to stop, and not yet started
    or asleep. *)
Definition pending (task : TaskState) : Prop :=
  cancel_requested task = false
  /\ ((started task = false /\ prog task = _disconnect_after_delay)
      \/ (started task = true /\ prog task = sleeping_timer)).

Definition timer_task_ok (task : TaskState) : Prop :=
  (forall cur, timer_free (prog task) cur)
  \/ (started task = false /\ prog task = async_shutdown)
  \/ (started task = false /\ prog task = _disconnect_after_delay)
  \/ (started task = true /\ prog task = sleeping_timer).

(** The tasks a coroutine that leaves the timer alone adds. *)
Definition fresh_task (task : TaskState) : Prop :=
  timer_task_ok task /\ sleeps_first (prog task) = false.

(** The world [async_shutdown] leaves before it disconnects. *)
Definition timer_dropped (w : World) : World :=
  match _disconnect_task (coordinator w) with
  | Some t =>
      set_coordinator (set_disconnect_task None (coordinator w))
        (emit (EvTaskCancel t) (set_tasks (alter request_cancel t (tasks w)) w))
  | None => w
  end.

Definition spawns_no_timer (l : Label) : Prop := l <> Spawn DisconnectAfterDelay.

Definition grown (ts ts' : list TaskState) : Prop :=
  exists new, ts' = ts ++ new /\ Forall fresh_task new.

Definition timer_ok (ts : list TaskState) (dt : option nat) : Prop :=
  Forall timer_task_ok ts
  /\ forall t task, ts !! t = Some task -> pending task -> dt = Some t.

Definition timer_inv (w : World) : Prop :=
  timer_ok (tasks w) (_disconnect_task (coordinator w)).

(** * Properties *)

(** ** Bytes and frames *)

Lemma byte_val_range (b : byte) : 0 <= byte_val b <= 255.
Proof.
  unfold byte_val. pose proof (Byte.to_N_bounded b). lia.
Qed.

Lemma byte_val_eq (b : byte) (n : N) (c : byte) :
  Byte.of_N n = Some c -> byte_val b = Z.of_N n -> b = c.
Proof.
  intros Hc Hb. unfold byte_val in Hb. apply N2Z.inj in Hb.
  apply Byte.to_of_N_iff in Hb. congruence.
Qed.

Lemma byte_val_battery (b : byte) : (byte_val b =? 10) = bool_decide (b = x0a).
Proof.
  case_bool_decide as Hb.
  - subst b. reflexivity.
  - apply Z.eqb_neq. intros H. apply Hb.
    apply (byte_val_eq b 10%N x0a); [reflexivity | exact H].
Qed.

Lemma byte_val_temperature (b : byte) : (byte_val b =? 7) = bool_decide (b = x07).
Proof.
  case_bool_decide as Hb.
  - subst b. reflexivity.
  - apply Z.eqb_neq. intros H. apply Hb.
    apply (byte_val_eq b 7%N x07); [reflexivity | exact H].
Qed.

Lemma frame_shape_total (payload : list byte) : frame_shape payload.
Proof.
  destruct payload as [|tag [|p rest]].
  - apply shape_short. simpl. lia.
  - apply shape_short. simpl. lia.
  - destruct (decide (tag = x0a)) as [->|Ha].
    { eapply shape_battery; reflexivity. }
    destruct (decide (tag = x07)) as [->|Ht].
    { destruct rest as [|lo rest].
      - eapply shape_temperature_short; reflexivity.
      - eapply shape_temperature; reflexivity. }
    eapply shape_other; eauto.
Qed.

(** ** [_parse_packet] *)

Lemma parse_packet_short (payload : list byte) :
  (length payload < 2)%nat -> _parse_packet payload = Ok None.
Proof.
  intros H. unfold _parse_packet.
  destruct (Nat.ltb_spec (length payload) 2); [reflexivity | lia].
Qed.

Lemma parse_packet_battery (p : byte) (rest : list byte) :
  _parse_packet (x0a :: p :: rest)
  = Ok (Some (packet_info_of (x0a :: p :: rest) (PyInt 10) (PyInt (byte_val p)))).
Proof. reflexivity. Qed.

Lemma parse_packet_temperature (hi lo : byte) (rest : list byte) :
  _parse_packet (x07 :: hi :: lo :: rest)
  = Ok (Some (packet_info_of (x07 :: hi :: lo :: rest) (PyInt 7)
                (PyInt (byte_val hi * 256 + byte_val lo)))).
Proof. reflexivity. Qed.

Lemma parse_packet_temperature_short (b : byte) :
  _parse_packet [x07; b] = Ok None.
Proof. reflexivity. Qed.

Lemma parse_packet_other (tag p : byte) (rest : list byte) :
  tag <> x0a -> tag <> x07 -> _parse_packet (tag :: p :: rest) = Ok None.
Proof.
  intros Ha Ht. unfold _parse_packet. cbn [length Nat.ltb Nat.leb].
  cbn. rewrite byte_val_battery, byte_val_temperature.
  rewrite !bool_decide_eq_false_2 by assumption. reflexivity.
Qed.

(** [_parse_packet] never raises: the [struct.error] handler is dead code. *)
Lemma parse_packet_returns (payload : list byte) :
  exists r, _parse_packet payload = Ok r.
Proof.
  destruct (frame_shape_total payload)
    as [Hs|p rest ->|hi lo rest ->|b ->|tag p rest -> Ha Ht]; eexists.
  - apply parse_packet_short, Hs.
  - apply parse_packet_battery.
  - apply parse_packet_temperature.
  - apply parse_packet_temperature_short.
  - apply parse_packet_other; assumption.
Qed.

(** ** [decode] *)

Lemma not_delimiter_tag (tag : byte) (rest : list byte) :
  tag <> xee -> bool_decide (tag :: rest = FRAME_DELIMITER) = false.
Proof.
  intros H. apply bool_decide_eq_false_2. unfold FRAME_DELIMITER. congruence.
Qed.

Lemma decode_battery (p : byte) (rest : list byte) :
  decode (x0a :: p :: rest) = Ok (Some (BatterySoc (byte_val p))).
Proof.
  unfold decode. rewrite not_delimiter_tag by discriminate.
  unfold decode_frame. rewrite parse_packet_battery. reflexivity.
Qed.

Lemma decode_temperature (hi lo : byte) (rest : list byte) :
  decode (x07 :: hi :: lo :: rest)
  = Ok (Some (BatteryTemperature
                (PrimFloat.div (float_of_Z (byte_val hi * 256 + byte_val lo)) 10))).
Proof.
  unfold decode. rewrite not_delimiter_tag by discriminate.
  unfold decode_frame. rewrite parse_packet_temperature. reflexivity.
Qed.

Lemma decode_frame_none (payload : list byte) :
  _parse_packet payload = Ok None -> decode_frame payload = Ok None.
Proof. intros H. unfold decode_frame. rewrite H. reflexivity. Qed.

Lemma decode_none (payload : list byte) :
  _parse_packet payload = Ok None -> decode payload = Ok None.
Proof.
  intros H. unfold decode. case_bool_decide; [reflexivity|].
  apply decode_frame_none, H.
Qed.

(** ** The handler is the decoder followed by the store *)

Lemma handler_none (payload : list byte) (w : World) :
  payload <> FRAME_DELIMITER -> _parse_packet payload = Ok None ->
  run (_notification_handler payload) w = (Ret tt, w).
Proof.
  intros Hd Hp. unfold _notification_handler.
  rewrite bool_decide_eq_false_2 by assumption. rewrite Hp. reflexivity.
Qed.

Lemma handler_decode_apply (payload : list byte) (w : World) :
  run (_notification_handler payload) w = handler_spec payload w.
Proof.
  unfold handler_spec.
  destruct (decide (payload = FRAME_DELIMITER)) as [->|Hd]; [reflexivity|].
  assert (Hnone : _parse_packet payload = Ok None ->
    run (_notification_handler payload) w
    = match decode payload with
      | Ok None => (Ret tt, w)
      | Ok (Some r) =>
          run publish_and_reset (set_coordinator (apply r (coordinator w)) w)
      | Err e => (Raise e, w)
      end).
  { intros Hp. rewrite (handler_none payload w Hd Hp).
    rewrite (decode_none payload Hp). reflexivity. }
  destruct (frame_shape_total payload)
    as [Hs|p rest ->|hi lo rest ->|b ->|tag p rest -> Ha Ht].
  - apply Hnone, parse_packet_short, Hs.
  - rewrite decode_battery. reflexivity.
  - rewrite decode_temperature. reflexivity.
  - apply Hnone, parse_packet_temperature_short.
  - apply Hnone, parse_packet_other; assumption.
Qed.

Lemma decode_returns (payload : list byte) : exists r, decode payload = Ok r.
Proof.
  destruct (frame_shape_total payload)
    as [Hs|p rest ->|hi lo rest ->|b ->|tag p rest -> Ha Ht]; eexists.
  - apply decode_none, parse_packet_short, Hs.
  - apply decode_battery.
  - apply decode_temperature.
  - apply decode_none, parse_packet_temperature_short.
  - apply decode_none, parse_packet_other; assumption.
Qed.

Lemma decode_no_reading_iff (payload : list byte) :
  decode payload = Ok None <-> no_reading payload.
Proof.
  unfold no_reading. split.
  - intros H.
    destruct (frame_shape_total payload)
      as [Hs|p rest ->|hi lo rest ->|b ->|tag p rest -> Ha Ht].
    + right; left; exact Hs.
    + rewrite decode_battery in H. discriminate.
    + rewrite decode_temperature in H. discriminate.
    + do 4 right. exists [b]. split; [reflexivity | simpl; lia].
    + right; right; left. exists tag, (p :: rest). auto.
  - intros [->|[Hs|[(tag & rest & -> & Ha & Ht)|[(rest & -> & Hl)|(rest & -> & Hl)]]]].
    + reflexivity.
    + apply decode_none, parse_packet_short, Hs.
    + destruct rest as [|p rest].
      * apply decode_none, parse_packet_short. simpl. lia.
      * apply decode_none, parse_packet_other; assumption.
    + destruct rest; [|simpl in Hl; lia]. reflexivity.
    + destruct rest as [|b [|c rest]]; [reflexivity | reflexivity | simpl in Hl; lia].
Qed.

(** ** Publication and the idle timer *)

Lemma publish_and_reset_returns (w : World) :
  (run publish_and_reset w).1 = Ret tt.
Proof.
  destruct w as [[a c l [t|] x d] ts clk rng evs]; reflexivity.
Qed.

Lemma publish_and_reset_data (w : World) :
  data (coordinator (run publish_and_reset w).2) = data (coordinator w).
Proof.
  destruct w as [[a c l [t|] x d] ts clk rng evs]; reflexivity.
Qed.

Lemma publish_and_reset_events (w : World) :
  events (run publish_and_reset w).2
  = events w ++ EvPublished (data (coordinator w)) :: restart_events w.
Proof.
  destruct w as [[a c l [t|] x d] ts clk rng evs]; unfold restart_events; cbn.
  - rewrite length_alter, <- !app_assoc. reflexivity.
  - rewrite <- !app_assoc. reflexivity.
Qed.

Lemma publish_and_reset_timer (w : World) :
  _disconnect_task (coordinator (run publish_and_reset w).2)
  = Some (length (tasks w)).
Proof.
  destruct w as [[a c l [t|] x d] ts clk rng evs]; cbn.
  - rewrite length_alter. reflexivity.
  - reflexivity.
Qed.

(** The task created is the idle-disconnect coroutine, not yet started. *)
Lemma publish_and_reset_new_task (w : World) :
  tasks (run publish_and_reset w).2 !! length (tasks w)
  = Some (mkTask _disconnect_after_delay false (clock w) false).
Proof.
  destruct w as [[a c l [t|] x d] ts clk rng evs]; cbn.
  - rewrite lookup_app_r; rewrite length_alter; [|lia].
    rewrite Nat.sub_diag. reflexivity.
  - rewrite lookup_app_r by lia. rewrite Nat.sub_diag. reflexivity.
Qed.

(** The handler returns: it neither raises nor suspends. *)
Lemma handler_returns (payload : list byte) (w : World) :
  (run (_notification_handler payload) w).1 = Ret tt.
Proof.
  rewrite handler_decode_apply. unfold handler_spec.
  destruct (decode_returns payload) as [[r|] ->].
  - apply publish_and_reset_returns.
  - reflexivity.
Qed.

Lemma handler_reading (payload : list byte) (r : DecodedReading) (w : World) :
  decode payload = Ok (Some r) ->
  call_back (_notification_handler payload) w
  = (run publish_and_reset (set_coordinator (apply r (coordinator w)) w)).2.
Proof.
  intros H. unfold call_back. rewrite handler_decode_apply. unfold handler_spec.
  rewrite H. reflexivity.
Qed.

Lemma handler_no_reading (payload : list byte) (w : World) :
  decode payload = Ok None -> call_back (_notification_handler payload) w = w.
Proof.
  intros H. unfold call_back. rewrite handler_decode_apply. unfold handler_spec.
  rewrite H. reflexivity.
Qed.

Lemma handler_stores (payload : list byte) (r : DecodedReading) (w : World) :
  decode payload = Ok (Some r) ->
  data (coordinator (call_back (_notification_handler payload) w))
  = <[metric_key r := metric_value r]> (data (coordinator w)).
Proof.
  intros H. rewrite (handler_reading payload r w H).
  rewrite publish_and_reset_data. destruct w as [c ts clk rng evs]. reflexivity.
Qed.

(** ** The temperature as a float

    For each of the 65536 raw values the quotient by 10.0 multiplied by 10.0
    gives the raw value back, and the temperature grows with the raw
    value. *)

Lemma tenths_exact_from_spec (n : nat) (v k : Z) :
  tenths_exact_from n v = true -> v <= k < v + Z.of_nat n ->
  tenths_exact k = true.
Proof.
  revert v. induction n as [|n IH]; intros v H Hk; [lia|].
  cbn [tenths_exact_from] in H. apply andb_true_iff in H as [Hv Hn].
  destruct (Z.eq_dec k v) as [->|Hne]; [exact Hv|].
  apply (IH (v + 1) Hn). lia.
Qed.

Lemma tenths_exact_all : tenths_exact_from (Z.to_nat 65536) 0 = true.
Proof. vm_compute. reflexivity. Qed.

Lemma temperature_round_trip (hi lo : byte) :
  PrimFloat.eqb
    (PrimFloat.mul (tenths (byte_val hi * 256 + byte_val lo)) 10)
    (float_of_Z (byte_val hi * 256 + byte_val lo)) = true
  /\ PrimFloat.ltb (tenths (byte_val hi * 256 + byte_val lo))
       (tenths (byte_val hi * 256 + byte_val lo + 1)) = true.
Proof.
  pose proof (byte_val_range hi) as Hh. pose proof (byte_val_range lo) as Hl.
  apply andb_true_iff.
  apply (tenths_exact_from_spec (Z.to_nat 65536) 0 _ tenths_exact_all).
  rewrite Z2Nat.id; lia.
Qed.

(** ** The frame decoder *)

(** C3.  A frame [0x0A p ...] decodes to the battery reading [p], an
    unsigned byte; a frame [0x07 hi lo ...] decodes to the temperature
    [V / 10.0] where [V] is the big-endian value of [hi lo]; the frame
    [07 00 EB] gives 23.5.  The handler stores exactly these values. *)
Theorem decode_recognised_frames :
  (forall p rest,
      decode (x0a :: p :: rest) = Ok (Some (BatterySoc (byte_val p)))
      /\ 0 <= byte_val p <= 255)
  /\ (forall hi lo rest,
        decode (x07 :: hi :: lo :: rest)
        = Ok (Some (BatteryTemperature
                      (PrimFloat.div (float_of_Z (byte_val hi * 256 + byte_val lo)) 10)))
        /\ 0 <= byte_val hi * 256 + byte_val lo <= 65535)
  /\ decode [x07; x00; xeb] = Ok (Some (BatteryTemperature 23.5))
  /\ (forall w p rest,
        battery_native_value
          (coordinator (call_back (_notification_handler (x0a :: p :: rest)) w))
        = PyInt (byte_val p))
  /\ (forall w hi lo rest,
        temperature_native_value
          (coordinator (call_back (_notification_handler (x07 :: hi :: lo :: rest)) w))
        = PyFloat (PrimFloat.div (float_of_Z (byte_val hi * 256 + byte_val lo)) 10)).
Proof.
  split; [|split; [|split; [|split]]].
  - intros p rest. split; [apply decode_battery | apply byte_val_range].
  - intros hi lo rest. split; [apply decode_temperature|].
    pose proof (byte_val_range hi). pose proof (byte_val_range lo). lia.
  - rewrite decode_temperature. reflexivity.
  - intros w p rest. unfold battery_native_value, dict_get.
    rewrite (handler_stores _ _ w (decode_battery p rest)).
    cbn [metric_key metric_value]. rewrite lookup_insert_eq. reflexivity.
  - intros w hi lo rest. unfold temperature_native_value, dict_get.
    rewrite (handler_stores _ _ w (decode_temperature hi lo rest)).
    cbn [metric_key metric_value]. rewrite lookup_insert_eq. reflexivity.
Qed.

(** C4.  Decoding is total and raises nothing: [_parse_packet] returns for
    every payload and the handler returns for every payload in every world
    (the calls it makes into the host, to publish the store and to cancel
    and create the timer task, return in the model as they do on the event
    loop).
    The handler produces no reading (it leaves the world exactly as it was:
    nothing stored, nothing published, no timer touched) exactly for the
    delimiter, a payload of fewer than two bytes, a tag other than 0x0A and
    0x07, or a recognised tag with too short a payload; for every other
    payload it stores the value of the frame and publishes the store.  An
    8-byte payload is a frame like any other: it yields no reading exactly
    when it is the delimiter or its tag is not recognised. *)
Theorem decode_total_and_silent (payload : list byte) :
  (exists r, _parse_packet payload = Ok r)
  /\ (forall w, (run (_notification_handler payload) w).1 = Ret tt)
  /\ (forall w, call_back (_notification_handler payload) w = w
                <-> no_reading payload)
  /\ (forall w, ~ no_reading payload ->
        ((exists p rest,
            payload = x0a :: p :: rest
            /\ battery_native_value
                 (coordinator (call_back (_notification_handler payload) w))
               = PyInt (byte_val p))
         \/ (exists hi lo rest,
               payload = x07 :: hi :: lo :: rest
               /\ temperature_native_value
                    (coordinator (call_back (_notification_handler payload) w))
                  = PyFloat (PrimFloat.div
                               (float_of_Z (byte_val hi * 256 + byte_val lo)) 10)))
        /\ exists rest,
             events (call_back (_notification_handler payload) w)
             = events w
               ++ EvPublished
                    (data (coordinator (call_back (_notification_handler payload) w)))
                  :: rest)
  /\ (length payload = 8%nat ->
      forall w, call_back (_notification_handler payload) w = w
                <-> payload = FRAME_DELIMITER
                    \/ exists tag rest,
                         payload = tag :: rest /\ tag <> x0a /\ tag <> x07).
Proof.
  assert (Hsilent : forall w, call_back (_notification_handler payload) w = w
                              <-> no_reading payload).
  { intros w. split.
    - intros Hw. apply decode_no_reading_iff.
      destruct (decode_returns payload) as [[r|] Hr]; [|exact Hr].
      exfalso. apply (f_equal (fun w => length (events w))) in Hw.
      rewrite (handler_reading payload r w Hr), publish_and_reset_events in Hw.
      rewrite length_app in Hw. cbn in Hw. destruct w as [c ts clk rng evs].
      cbn in Hw. lia.
    - intros Hn. apply handler_no_reading, decode_no_reading_iff, Hn. }
  split; [apply parse_packet_returns|].
  split; [intros w; apply handler_returns|].
  split; [exact Hsilent|].
  split.
  - intros w Hn.
    assert (Hev : forall r, decode payload = Ok (Some r) ->
              exists rest,
                events (call_back (_notification_handler payload) w)
                = events w
                  ++ EvPublished
                       (data (coordinator
                                (call_back (_notification_handler payload) w)))
                     :: rest).
    { intros r Hr. rewrite (handler_stores payload r w Hr).
      rewrite (handler_reading payload r w Hr), publish_and_reset_events.
      eexists. destruct w as [c ts clk rng evs]. reflexivity. }
    destruct (frame_shape_total payload)
      as [Hs|p rest ->|hi lo rest ->|b ->|tag p rest -> Ha Ht].
    + exfalso. apply Hn. right. left. exact Hs.
    + split; [|apply (Hev _ (decode_battery p rest))].
      left. exists p, rest. split; [reflexivity|].
      unfold battery_native_value, dict_get.
      rewrite (handler_stores _ _ w (decode_battery p rest)).
      cbn [metric_key metric_value]. rewrite lookup_insert_eq. reflexivity.
    + split; [|apply (Hev _ (decode_temperature hi lo rest))].
      right. exists hi, lo, rest. split; [reflexivity|].
      unfold temperature_native_value, dict_get.
      rewrite (handler_stores _ _ w (decode_temperature hi lo rest)).
      cbn [metric_key metric_value]. rewrite lookup_insert_eq. reflexivity.
    + exfalso. apply Hn. do 4 right. exists [b]. split; [reflexivity | simpl; lia].
    + exfalso. apply Hn. right. right. left. exists tag, (p :: rest). auto.
  - intros Hlen w. rewrite (Hsilent w). unfold no_reading. split.
    + intros [Hd|[Hs|[Ho|[(rest & -> & Hl)|(rest & -> & Hl)]]]].
      * left. exact Hd.
      * lia.
      * right. exact Ho.
      * simpl in Hlen. lia.
      * simpl in Hlen. lia.
    + intros [Hd|Ho]; [left; exact Hd | right; right; left; exact Ho].
Qed.

(** C10.  A battery frame whose byte is 0 is a reading like any other: the
    value 0 is stored, the sensor reports 0 and not [None], and the store is
    published. *)
Theorem zero_soc_is_a_reading (rest : list byte) (w : World) :
  decode (x0a :: x00 :: rest) = Ok (Some (BatterySoc 0))
  /\ battery_native_value
       (coordinator (call_back (_notification_handler (x0a :: x00 :: rest)) w))
     = PyInt 0
  /\ is_None (battery_native_value
       (coordinator (call_back (_notification_handler (x0a :: x00 :: rest)) w)))
     = false
  /\ events (call_back (_notification_handler (x0a :: x00 :: rest)) w)
     = events w
       ++ EvPublished (<[SENSOR_BATTERY := PyInt 0]> (data (coordinator w)))
       :: restart_events w.
Proof.
  pose proof (decode_battery x00 rest) as Hd. change (byte_val x00) with 0 in Hd.
  assert (Hv : battery_native_value
       (coordinator (call_back (_notification_handler (x0a :: x00 :: rest)) w))
     = PyInt 0).
  { unfold battery_native_value, dict_get. rewrite (handler_stores _ _ w Hd).
    cbn [metric_key metric_value]. rewrite lookup_insert_eq. reflexivity. }
  split; [exact Hd|]. split; [exact Hv|]. split; [rewrite Hv; reflexivity|].
  rewrite (handler_reading _ _ w Hd), publish_and_reset_events.
  destruct w as [c ts clk rng evs]. reflexivity.
Qed.

(** ** The telemetry store and the Publisher *)

(** C1, as stated, fails: with 50 stored for the battery, a frame that
    carries 50 again is published and the idle timer is restarted. *)
Lemma unchanged_value_is_still_published :
  exists w,
    exec (connect_schedule ++ [Notification [x0a; x32]]) (boot address_of_bike)
    = Some w
    /\ decode [x0a; x32] = Ok (Some (BatterySoc 50))
    /\ data (coordinator w) !! SENSOR_BATTERY = Some (PyInt 50)
    /\ events (call_back (_notification_handler [x0a; x32]) w)
       = events w
         ++ [EvPublished (data (coordinator w)); EvTaskCancel 1;
             EvTaskCreated 2 DisconnectAfterDelay]
    /\ events (call_back (_notification_handler [x0a; x32]) w) <> events w.
Proof.
  eexists. split; [vm_compute; reflexivity|].
  split; [reflexivity|]. split; [vm_compute; reflexivity|].
  split; [vm_compute; reflexivity|].
  intros H. apply (f_equal length) in H. vm_compute in H. discriminate.
Qed.

(** C1, amended.  Every decoded reading is stored, published and restarts
    the idle timer (the pending task, if any, is cancelled and a new one is
    created), whatever the value stored before; a payload without a reading
    changes nothing. *)
Theorem handler_publishes_every_reading (payload : list byte) (w : World) :
  (forall r, decode payload = Ok (Some r) ->
     data (coordinator (call_back (_notification_handler payload) w))
     = <[metric_key r := metric_value r]> (data (coordinator w))
     /\ events (call_back (_notification_handler payload) w)
        = events w
          ++ EvPublished (<[metric_key r := metric_value r]> (data (coordinator w)))
          :: restart_events w
     /\ _disconnect_task (coordinator (call_back (_notification_handler payload) w))
        = Some (length (tasks w)))
  /\ (decode payload = Ok None ->
      call_back (_notification_handler payload) w = w).
Proof.
  split; [|apply handler_no_reading].
  intros r H. split; [apply handler_stores, H|].
  rewrite (handler_reading payload r w H).
  rewrite publish_and_reset_events, publish_and_reset_timer.
  destruct w as [c ts clk rng evs]. split; reflexivity.
Qed.

(** C2, as stated, fails: the frame [0A FF] puts 255 in the battery slot. *)
Lemma battery_above_hundred :
  exists w,
    exec (connect_schedule ++ [Notification [x0a; xff]]) (boot address_of_bike)
    = Some w
    /\ battery_native_value (coordinator w) = PyInt 255
    /\ ~ percentage (battery_native_value (coordinator w)).
Proof.
  eexists. split; [vm_compute; reflexivity|].
  split; [vm_compute; reflexivity|].
  intros [H|(z & H & Hz)].
  - vm_compute in H. discriminate.
  - vm_compute in H. injection H as <-. lia.
Qed.

Lemma byte_ranged_metric (r : DecodedReading) (payload : list byte)
    (d : gmap string pyval) :
  decode payload = Ok (Some r) ->
  byte_ranged (dict_get d SENSOR_BATTERY) ->
  byte_ranged (dict_get (<[metric_key r := metric_value r]> d) SENSOR_BATTERY).
Proof.
  intros Hd Hb.
  destruct (frame_shape_total payload)
    as [Hs|p rest ->|hi lo rest ->|b ->|tag p rest -> Ha Ht].
  - rewrite decode_none in Hd by (apply parse_packet_short, Hs). discriminate.
  - rewrite decode_battery in Hd. injection Hd as <-.
    unfold dict_get. cbn [metric_key metric_value]. rewrite lookup_insert_eq.
    right. exists (byte_val p). split; [reflexivity | apply byte_val_range].
  - rewrite decode_temperature in Hd. injection Hd as <-.
    unfold dict_get in *. cbn [metric_key metric_value].
    rewrite lookup_insert_ne by discriminate. exact Hb.
  - rewrite decode_none in Hd by apply parse_packet_temperature_short. discriminate.
  - rewrite decode_none in Hd by (apply parse_packet_other; assumption). discriminate.
Qed.

Lemma restart_events_byte_ranged (w : World) :
  Forall published_byte_ranged (restart_events w).
Proof.
  unfold restart_events. apply Forall_app. split.
  - destruct (_disconnect_task (coordinator w)); repeat constructor.
  - repeat constructor.
Qed.

Lemma handler_byte_ranged (payload : list byte) (w : World) :
  world_byte_ranged w ->
  world_byte_ranged (call_back (_notification_handler payload) w).
Proof.
  intros [Hb He]. destruct (decode_returns payload) as [[r|] Hd].
  - assert (Hnew : byte_ranged
      (dict_get (<[metric_key r := metric_value r]> (data (coordinator w)))
         SENSOR_BATTERY)) by (eapply byte_ranged_metric; eassumption).
    split.
    + unfold battery_native_value. rewrite (handler_stores payload r w Hd).
      exact Hnew.
    + rewrite (handler_reading payload r w Hd), publish_and_reset_events.
      apply Forall_app. split; [destruct w; exact He|].
      constructor; [destruct w; exact Hnew|].
      apply (restart_events_byte_ranged
               (set_coordinator (apply r (coordinator w)) w)).
  - rewrite (handler_no_reading payload w Hd). split; assumption.
Qed.

Lemma deliver_byte_ranged (payloads : list (list byte)) (w : World) :
  world_byte_ranged w -> world_byte_ranged (deliver payloads w).
Proof.
  revert w. induction payloads as [|payload payloads IH]; intros w Hw.
  - exact Hw.
  - cbn. apply IH, handler_byte_ranged, Hw.
Qed.

(** C2, amended.  Whatever notifications arrive, the battery value the
    sensor exposes, and the one in every published store, is absent or an
    integer from 0 to 255. *)
Theorem battery_is_a_byte (address : string) (payloads : list (list byte)) :
  byte_ranged (battery_native_value (coordinator (deliver payloads (boot address))))
  /\ Forall published_byte_ranged (events (deliver payloads (boot address))).
Proof.
  apply deliver_byte_ranged. split.
  - left. reflexivity.
  - constructor.
Qed.

(** C5.  Two readings of one metric applied in sequence leave the second
    value in its slot, and every other slot as it was. *)
Theorem second_reading_replaces_first
    (p1 p2 : list byte) (r1 r2 : DecodedReading) (w : World) :
  decode p1 = Ok (Some r1) -> decode p2 = Ok (Some r2) ->
  metric_key r1 = metric_key r2 ->
  data (coordinator (deliver [p1; p2] w))
  = <[metric_key r2 := metric_value r2]> (data (coordinator w))
  /\ data (coordinator (deliver [p1; p2] w)) !! metric_key r2 = Some (metric_value r2)
  /\ (forall k, k <> metric_key r2 ->
        data (coordinator (deliver [p1; p2] w)) !! k = data (coordinator w) !! k).
Proof.
  intros H1 H2 Hk.
  assert (He : data (coordinator (deliver [p1; p2] w))
               = <[metric_key r2 := metric_value r2]> (data (coordinator w))).
  { cbn. rewrite (handler_stores p2 r2 _ H2), (handler_stores p1 r1 _ H1).
    rewrite Hk. apply insert_insert_eq. }
  rewrite He. split; [reflexivity|]. split.
  - apply lookup_insert_eq.
  - intros k Hne. apply lookup_insert_ne. congruence.
Qed.

Lemma second_reading_replaces_first_witness :
  decode [x0a; x32] = Ok (Some (BatterySoc 50))
  /\ decode [x0a; x31] = Ok (Some (BatterySoc 49))
  /\ metric_key (BatterySoc 50) = metric_key (BatterySoc 49)
  /\ data (coordinator (deliver [[x0a; x32]; [x0a; x31]] (boot address_of_bike)))
     !! SENSOR_BATTERY = Some (PyInt 49)
  /\ data (coordinator (deliver [[x0a; x32]; [x0a; x31]] (boot address_of_bike)))
     !! SENSOR_TEMPERATURE = Some PyNone.
Proof.
  split; [reflexivity|]. split; [reflexivity|]. split; [reflexivity|].
  destruct (second_reading_replaces_first [x0a; x32] [x0a; x31]
              (BatterySoc 50) (BatterySoc 49) (boot address_of_bike)
              eq_refl eq_refl eq_refl) as (_ & H & Ho).
  split; [exact H|].
  rewrite (Ho SENSOR_TEMPERATURE); [reflexivity | discriminate].
Defined.

(** ** The disconnection callback *)

(** C6, as stated, fails: during a disconnect the manager started, the
    callback finds the flag set and returns; [_client] is still there. *)
Lemma expected_disconnect_keeps_client :
  exists w,
    exec (connect_schedule
            ++ [Spawn AsyncDisconnect; Resume 1 Succeeds; Resume 1 Succeeds])
      (boot address_of_bike) = Some w
    /\ _expected_disconnect (coordinator w) = true
    /\ _client (coordinator w) = Some (mkClient true false)
    /\ _client (coordinator
         (call_back _disconnected_callback (set_link (Some (mkClient false false)) w)))
       = Some (mkClient false false)
    /\ _client (coordinator
         (call_back _disconnected_callback (set_link (Some (mkClient false false)) w)))
       <> None.
Proof.
  eexists. split; [vm_compute; reflexivity|].
  split; [reflexivity|]. split; [reflexivity|]. split; [reflexivity|].
  vm_compute. discriminate.
Qed.

(** C6, amended.  The callback always returns at once.  When the
    disconnect is expected it changes nothing and schedules nothing; when it
    is not, it clears [_client] and creates exactly one task, not yet
    started, that runs [_async_update_data].  The link state of an expected
    disconnect is cleared by [_async_disconnect] itself, which also resets
    the flag, releases the lock and schedules nothing. *)
Theorem disconnected_callback_behaviour (w : World) :
  (run _disconnected_callback w).1 = Ret tt
  /\ (_expected_disconnect (coordinator w) = true ->
      call_back _disconnected_callback w = w)
  /\ (_expected_disconnect (coordinator w) = false ->
      call_back _disconnected_callback w = reconnect_scheduled w
      /\ _client (coordinator (call_back _disconnected_callback w)) = None
      /\ events (call_back _disconnected_callback w)
         = events w ++ [EvTaskCreated (length (tasks w)) AsyncUpdateData]
      /\ tasks (call_back _disconnected_callback w)
         = tasks w ++ [mkTask (entry_body AsyncUpdateData) false (clock w) false])
  /\ (client_connected (coordinator w) = true ->
      _connection_lock (coordinator w) = false ->
      exists w',
        drive [Succeeds; Succeeds] _async_disconnect w = Some (Ok tt, w')
        /\ _client (coordinator w') = None
        /\ _expected_disconnect (coordinator w') = false
        /\ _connection_lock (coordinator w') = false
        /\ tasks w' = tasks w
        /\ events w' = events w ++ [EvStopNotify; EvClientDisconnect]).
Proof.
  destruct w as [[a c l t x d] ts clk rng evs].
  split; [destruct x; reflexivity|].
  split; [cbn; intros ->; reflexivity|].
  split; [cbn; intros ->; repeat split; reflexivity|].
  cbn. intros Hc ->. destruct c as [[conn sub]|]; [|discriminate].
  cbn in Hc. subst conn. eexists. split; [reflexivity|].
  cbn. rewrite <- app_assoc. repeat split; reflexivity.
Qed.

(** ** The idle-disconnect timer *)

Lemma connect_schedule_result (address : string) :
  exists w, exec connect_schedule (boot address) = Some w
            /\ connected_and_silent address w.
Proof. eexists. split; [reflexivity|]. repeat split. Qed.

Lemma quiet_step (address : string) (l : Label) (w w' : World) :
  quiet l -> connected_and_silent address w -> step l w = Some w' ->
  connected_and_silent address w'.
Proof.
  intros Hq (Hc & Ht & He) Hs. destruct l as [t o| | |dt| |b]; try contradiction.
  - exfalso. cbn in Hs. unfold resume in Hs. rewrite Ht in Hs.
    destruct t as [|t]; cbn in Hs; discriminate.
  - cbn in Hs. injection Hs as <-. repeat split; assumption.
  - cbn in Hs. injection Hs as <-. repeat split; assumption.
Qed.

Lemma quiet_exec (address : string) (ls : list Label) (w w' : World) :
  Forall quiet ls -> connected_and_silent address w -> exec ls w = Some w' ->
  connected_and_silent address w'.
Proof.
  intros Hq. revert w. induction Hq as [|l ls Hl Hls IH]; intros w Hw He.
  - cbn in He. injection He as <-. exact Hw.
  - cbn in He. destruct (step l w) as [w1|] eqn:Hs; [|discriminate].
    cbn in He. eapply IH; [|exact He]. eapply quiet_step; eassumption.
Qed.

(** C7: the code at the failing input.  After a connect, as long as no
    reading arrives, no idle-disconnect task exists: however much time
    passes, the link stays up and nothing asks for a disconnect. *)
Theorem connect_arms_no_idle_timer
    (address : string) (ls : list Label) (w w' : World) :
  exec connect_schedule (boot address) = Some w ->
  Forall quiet ls ->
  exec ls w = Some w' ->
  client_connected (coordinator w') = true
  /\ _disconnect_task (coordinator w') = None
  /\ Forall (fun t => finished (prog t) = true) (tasks w')
  /\ events w' = events w.
Proof.
  intros Hw Hq He.
  destruct (connect_schedule_result address) as (w0 & Hw0 & Hinv).
  rewrite Hw0 in Hw. injection Hw as <-.
  destruct (quiet_exec address ls w0 w' Hq Hinv He) as (Hc & Ht & Hev).
  destruct Hinv as (_ & _ & Hev0).
  rewrite Hc, Ht, Hev, Hev0. repeat split. repeat constructor.
Qed.

Lemma connect_arms_no_idle_timer_witness :
  exists w w',
    exec connect_schedule (boot address_of_bike) = Some w
    /\ Forall quiet [Elapse 600; Range false; Elapse 600]
    /\ exec [Elapse 600; Range false; Elapse 600] w = Some w'
    /\ clock w' = 1200%nat
    /\ client_connected (coordinator w') = true
    /\ _disconnect_task (coordinator w') = None.
Proof.
  eexists. eexists.
  assert (Hq : Forall quiet [Elapse 600; Range false; Elapse 600])
    by (repeat constructor).
  split; [reflexivity|]. split; [exact Hq|]. split; [reflexivity|].
  split; [reflexivity|].
  destruct (connect_arms_no_idle_timer address_of_bike
              [Elapse 600; Range false; Elapse 600] _ _ eq_refl Hq eq_refl)
    as (H1 & H2 & _).
  split; assumption.
Defined.

(** Once a reading has armed the timer, the window works as described:
    120 seconds after the reading the task disconnects, and the callback,
    finding the disconnect expected, schedules no reconnection. *)
Example idle_disconnect_after_reading :
  exists w,
    exec (connect_schedule
            ++ [Notification [x0a; x32]; Resume 1 Succeeds; Elapse 120;
                Resume 1 Succeeds; Resume 1 Succeeds; Resume 1 Succeeds])
      (boot address_of_bike) = Some w
    /\ _client (coordinator w) = None
    /\ _expected_disconnect (coordinator w) = false
    /\ length (tasks w) = 2%nat
    /\ all_returned w = true.
Proof. eexists. split; [vm_compute; reflexivity|]. repeat split. Qed.

(** One second earlier the task cannot wake. *)
Example idle_window_not_over :
  exec (connect_schedule
          ++ [Notification [x0a; x32]; Resume 1 Succeeds; Elapse 119;
              Resume 1 Succeeds])
    (boot address_of_bike) = None.
Proof. vm_compute. reflexivity. Qed.

(** A reading 100 seconds into the window cancels the pending task and
    starts a new window: 20 seconds later the first task ends without
    disconnecting and the second cannot wake yet. *)
Example reading_restarts_idle_window :
  (exists w,
     exec (connect_schedule
             ++ [Notification [x0a; x32]; Resume 1 Succeeds; Elapse 100;
                 Notification [x0a; x31]; Resume 2 Succeeds; Elapse 20;
                 Resume 1 Succeeds])
       (boot address_of_bike) = Some w
     /\ client_connected (coordinator w) = true
     /\ _disconnect_task (coordinator w) = Some 2%nat
     /\ (returned <$> tasks w !! 1%nat) = Some true)
  /\ exec (connect_schedule
             ++ [Notification [x0a; x32]; Resume 1 Succeeds; Elapse 100;
                 Notification [x0a; x31]; Resume 2 Succeeds; Elapse 20;
                 Resume 1 Succeeds; Resume 2 Succeeds])
       (boot address_of_bike) = None.
Proof.
  split; [|vm_compute; reflexivity].
  eexists. split; [vm_compute; reflexivity|]. repeat split.
Qed.

(** ** Concurrent callers of [_ensure_connection] *)

Lemma resume_beyond (t : nat) (o : Outcome) (w : World) :
  (length (tasks w) <= t)%nat -> resume t o w = None.
Proof.
  intros H. unfold resume. rewrite (lookup_ge_None_2 _ _ H). reflexivity.
Qed.

Lemma explore_step (n : nat) (P : World -> bool) (w : World) :
  explore n P w = true ->
  P w = true
  /\ forall t w', resume t Succeeds w = Some w' ->
       exists n', n = S n' /\ explore n' P w' = true.
Proof.
  intros He.
  assert (H : P w = true /\ forallb (fun t =>
       match resume t Succeeds w with
       | None => true
       | Some w' => match n with O => false | S n' => explore n' P w' end
       end) (seq 0 (length (tasks w))) = true).
  { destruct n; cbn in He; apply andb_true_iff in He; exact He. }
  destruct H as [HP Hall]. split; [exact HP|].
  intros t w' Hr.
  assert (Ht : (t < length (tasks w))%nat).
  { destruct (Nat.lt_ge_cases t (length (tasks w))) as [H|H]; [exact H|].
    rewrite (resume_beyond t Succeeds w H) in Hr. discriminate. }
  rewrite forallb_forall in Hall.
  assert (Hin : In t (seq 0 (length (tasks w)))) by (apply in_seq; lia).
  specialize (Hall t Hin). rewrite Hr in Hall.
  destruct n as [|n']; [discriminate|]. exists n'. split; [reflexivity | exact Hall].
Qed.

Lemma explore_sound (n : nat) (P : World -> bool) (ls : list Label) (w w' : World) :
  explore n P w = true -> Forall is_resume_success ls ->
  exec ls w = Some w' -> P w' = true.
Proof.
  revert n w. induction ls as [|l ls IH]; intros n w He Hl Hx.
  - cbn in Hx. injection Hx as <-. apply (explore_step n P w He).
  - inversion Hl as [|? ? [t ->] Hls]; subst.
    cbn in Hx. destruct (resume t Succeeds w) as [w1|] eqn:Hr; [|discriminate].
    cbn in Hx. destruct (explore_step n P w He) as [_ Hnext].
    destruct (Hnext t w1 Hr) as (n' & -> & He').
    eapply IH; eassumption.
Qed.

(** No run of the two callers is longer than 8 steps, and
    [once_and_serialized] holds all along each of them. *)
Lemma two_callers_explored (address : string) :
  explore 8 once_and_serialized (two_callers address) = true.
Proof. vm_compute. reflexivity. Qed.

(** C8.  Two callers of [_ensure_connection] on a disconnected coordinator,
    interleaved in any way, with every awaited operation succeeding: at most
    one of them is inside the connect sequence at any time,
    [establish_connection] is never called twice, and once both callers have
    returned it has been called exactly once and the client is connected. *)
Theorem concurrent_callers_connect_once
    (address : string) (ls : list Label) (w : World) :
  Forall is_resume_success ls ->
  exec ls (two_callers address) = Some w ->
  (in_connect_sequence w <= 1)%nat
  /\ (connect_attempts w <= 1)%nat
  /\ (all_returned w = true ->
      connect_attempts w = 1%nat /\ client_connected (coordinator w) = true).
Proof.
  intros Hl Hx.
  pose proof (explore_sound 8 once_and_serialized ls _ w
                (two_callers_explored address) Hl Hx) as H.
  unfold once_and_serialized, one_attempt in H.
  apply andb_true_iff in H as [H Hs]. apply andb_true_iff in H as [H1 H2].
  apply Nat.leb_le in H1, Hs. split; [exact Hs|]. split; [exact H1|].
  intros Ha. rewrite Ha in H2. apply andb_true_iff in H2 as [H2 H3].
  apply Nat.eqb_eq in H2. split; assumption.
Qed.

Lemma concurrent_callers_connect_once_witness :
  exists w,
    Forall is_resume_success interleaving
    /\ exec interleaving (two_callers address_of_bike) = Some w
    /\ all_returned w = true
    /\ connect_attempts w = 1%nat
    /\ client_connected (coordinator w) = true.
Proof.
  assert (Hl : Forall is_resume_success interleaving)
    by (repeat constructor; eexists; reflexivity).
  destruct (exec interleaving (two_callers address_of_bike)) as [w|] eqn:Hx;
    [|vm_compute in Hx; discriminate].
  assert (Ha : all_returned w = true).
  { assert (H : (all_returned <$> exec interleaving (two_callers address_of_bike))
                = Some true) by (vm_compute; reflexivity).
    rewrite Hx in H. cbn in H. congruence. }
  exists w. split; [exact Hl|]. split; [reflexivity|]. split; [exact Ha|].
  destruct (concurrent_callers_connect_once address_of_bike interleaving w Hl Hx)
    as (_ & _ & H).
  exact (H Ha).
Defined.

(** The same holds for two polls of the update scheduler, which test the
    connection before they ask for the lock. *)
Lemma two_polls_explored (address : string) :
  explore 8 once_and_serialized (two_polls address) = true.
Proof. vm_compute. reflexivity. Qed.

Lemma concurrent_polls_connect_once
    (address : string) (ls : list Label) (w : World) :
  Forall is_resume_success ls ->
  exec ls (two_polls address) = Some w ->
  (in_connect_sequence w <= 1)%nat /\ (connect_attempts w <= 1)%nat.
Proof.
  intros Hl Hx.
  pose proof (explore_sound 8 once_and_serialized ls _ w
                (two_polls_explored address) Hl Hx) as H.
  unfold once_and_serialized, one_attempt in H.
  apply andb_true_iff in H as [H Hs]. apply andb_true_iff in H as [H1 _].
  apply Nat.leb_le in H1, Hs. split; assumption.
Qed.

(** While the first caller holds the lock the second cannot proceed. *)
Example second_caller_waits_for_the_lock :
  exec [Resume 0 Succeeds; Resume 1 Succeeds; Resume 1 Succeeds]
    (two_callers address_of_bike) = None.
Proof. vm_compute. reflexivity. Qed.

(** ** Set-up *)



(** [except Exception] does not catch a cancellation of the set-up. *)
Lemma setup_cancelled (entry : ConfigEntry) (address : string)
    (hass : HomeAssistant) (env : SetupEnv) (c' : Coordinator) :
  entry_data entry !! CONF_DEVICE_ADDRESS = Some address ->
  first_refresh env (HyenaEBikeCoordinator address) = (c', Err CancelledError) ->
  exists hass',
    run_setup env (async_setup_entry entry) hass = Some (Err CancelledError, hass')
    /\ hass_data hass' = hass_data hass.
Proof.
  intros Ha Hr. destruct hass as [objs hd fw].
  unfold async_setup_entry. rewrite Ha. cbn.
  rewrite lookup_app_r by lia. rewrite Nat.sub_diag. cbn. rewrite Hr. cbn.
  eexists. split; reflexivity.
Qed.




(** * Further properties

    ** The connection manager, driven alone *)

Lemma drive_eq {A} (os : list Outcome) (p : method A) (w : World) :
  drive os p w
  = match run p w with
    | (Ret a, w') => Some (Ok a, w')
    | (Raise e, w') => Some (Err e, w')
    | (Await a k, w') =>
        match os with
        | [] => None
        | o :: os' =>
            match await_outcome a o (clock w') w' with
            | Some (r, w'') => drive os' (k r) w''
            | None => None
            end
        end
    | (_, _) => None
    end.
Proof. destruct os; reflexivity. Qed.

(** X1.  With the bike out of range [_ensure_connection] raises [UpdateFailed]
    without calling the adapter, and leaves the world as it found it: the
    lock is released, nothing is recorded. *)
Theorem ensure_connection_out_of_range (os : list Outcome) (w : World) :
  client_connected (coordinator w) = false ->
  _connection_lock (coordinator w) = false ->
  in_range w = false ->
  drive os _ensure_connection w = Some (Err UpdateFailed, w).
Proof.
  destruct w as [[a c l t x d] ts clk rng evs]. cbn.
  intros Hc -> ->. rewrite drive_eq.
  destruct c as [[conn sub]|]; cbn in Hc |- *; subst; reflexivity.
Qed.

Lemma ensure_connection_out_of_range_witness :
  drive [] _ensure_connection
    (mkWorld (HyenaEBikeCoordinator address_of_bike) [] 0 false [])
  = Some (Err UpdateFailed,
          mkWorld (HyenaEBikeCoordinator address_of_bike) [] 0 false []).
Proof.
  apply (ensure_connection_out_of_range []
           (mkWorld (HyenaEBikeCoordinator address_of_bike) [] 0 false []));
    reflexivity.
Defined.

(** X2.  When [establish_connection] fails, [_ensure_connection] turns a
    [BleakError] or a timeout into [UpdateFailed] and lets any other
    exception through; one attempt is recorded, the client stays absent and
    the lock is released. *)
Theorem ensure_connection_failure (e : exn) (os : list Outcome) (w : World) :
  client_connected (coordinator w) = false ->
  _connection_lock (coordinator w) = false ->
  in_range w = true ->
  drive (Fails e :: os) _ensure_connection w
  = Some (Err (surfaced e),
          emit (EvConnectAttempt (device_address (coordinator w))) w).
Proof.
  destruct w as [[a c l t x d] ts clk rng evs]. cbn.
  intros Hc -> ->. unfold surfaced.
  destruct c as [[conn sub]|]; cbn in Hc |- *; subst;
    destruct e; cbn; rewrite drive_eq; reflexivity.
Qed.

Lemma ensure_connection_failure_witness :
  drive [Fails TimeoutError] _ensure_connection (boot address_of_bike)
  = Some (Err UpdateFailed,
          emit (EvConnectAttempt address_of_bike) (boot address_of_bike)).
Proof.
  apply (ensure_connection_failure TimeoutError [] (boot address_of_bike));
    reflexivity.
Defined.

(** X3.  When the link is established and [start_notify] then fails, the poll
    raises, but the client stays stored and connected without a
    subscription: every later poll finds it connected and returns the store
    without doing anything, and no notification can arrive. *)
Theorem start_notify_failure_leaves_unsubscribed_link (e : exn) (w : World) :
  client_connected (coordinator w) = false ->
  _connection_lock (coordinator w) = false ->
  in_range w = true ->
  exists w',
    drive [Succeeds; Fails e] _async_update_data w = Some (Err (surfaced e), w')
    /\ _client (coordinator w') = Some (mkClient true false)
    /\ _connection_lock (coordinator w') = false
    /\ (forall os, drive os _async_update_data w'
                   = Some (Ok (data (coordinator w')), w'))
    /\ (forall payload, step (Notification payload) w' = None).
Proof.
  destruct w as [[a c l t x d] ts clk rng evs]. cbn.
  intros Hc -> ->. unfold surfaced.
  destruct c as [[conn sub]|]; cbn in Hc |- *; subst;
    destruct e; cbn; (eexists; split; [reflexivity|]; cbn;
      split; [reflexivity|]; split; [reflexivity|];
      split; [intros os; rewrite drive_eq; reflexivity | reflexivity]).
Qed.

Lemma start_notify_failure_leaves_unsubscribed_link_witness :
  exists w',
    drive [Succeeds; Fails BleakError] _async_update_data (boot address_of_bike)
    = Some (Err UpdateFailed, w')
    /\ _client (coordinator w') = Some (mkClient true false)
    /\ _connection_lock (coordinator w') = false
    /\ (forall os, drive os _async_update_data w'
                   = Some (Ok (data (coordinator w')), w'))
    /\ (forall payload, step (Notification payload) w' = None).
Proof.
  apply (start_notify_failure_leaves_unsubscribed_link BleakError
           (boot address_of_bike)); reflexivity.
Defined.

(** ** Disconnecting and shutting down *)

(** X4.  On a connected coordinator [_async_disconnect] ends with the client
    cleared, the expected-disconnect flag lowered and the lock released,
    whatever [stop_notify] and [disconnect] do; a [BleakError] of either is
    swallowed, any other exception propagates after the clean-up.  The store
    and the tasks are untouched, and [disconnect] is not called when
    [stop_notify] failed. *)
Theorem async_disconnect_always_clears (o1 o2 : Outcome) (w : World) :
  client_connected (coordinator w) = true ->
  _connection_lock (coordinator w) = false ->
  exists w',
    drive [o1; o2] _async_disconnect w = Some (disconnect_result o1 o2, w')
    /\ _client (coordinator w') = None
    /\ _expected_disconnect (coordinator w') = false
    /\ _connection_lock (coordinator w') = false
    /\ data (coordinator w') = data (coordinator w)
    /\ tasks w' = tasks w
    /\ events w' = events w ++ disconnect_events o1.
Proof.
  destruct w as [[a c l t x d] ts clk rng evs]. cbn.
  intros Hc ->. destruct c as [[conn sub]|]; [|discriminate].
  cbn in Hc. subst conn.
  destruct o1 as [|e1]; [destruct o2 as [|e2]|];
    try destruct e1; try destruct e2; cbn;
    (eexists; split; [reflexivity|]; cbn; rewrite <- ?app_assoc;
     repeat split; reflexivity).
Qed.

Lemma async_disconnect_always_clears_witness :
  exists w',
    drive [Succeeds; Fails BleakError] _async_disconnect
      (set_link (Some (mkClient true true)) (boot address_of_bike))
    = Some (Ok tt, w')
    /\ _client (coordinator w') = None
    /\ _expected_disconnect (coordinator w') = false
    /\ _connection_lock (coordinator w') = false
    /\ data (coordinator w') = data (HyenaEBikeCoordinator address_of_bike)
    /\ tasks w' = []
    /\ events w' = [EvStopNotify; EvClientDisconnect].
Proof.
  apply (async_disconnect_always_clears Succeeds (Fails BleakError)
           (set_link (Some (mkClient true true)) (boot address_of_bike)));
    reflexivity.
Defined.

(** X5.  [async_shutdown] asks the idle timer, if any, to stop and forgets it,
    and leaves the coordinator disconnected with the lock released and the
    store untouched, whatever the adapter does; a second shutdown then
    returns at once and changes nothing. *)
Theorem shutdown_disconnects_and_cancels (o1 o2 : Outcome) (w : World) :
  _connection_lock (coordinator w) = false ->
  exists r w',
    drive [o1; o2] async_shutdown w = Some (r, w')
    /\ client_connected (coordinator w') = false
    /\ _disconnect_task (coordinator w') = None
    /\ _connection_lock (coordinator w') = false
    /\ tasks w' = timer_cancelled w
    /\ data (coordinator w') = data (coordinator w)
    /\ (forall os, drive os async_shutdown w' = Some (Ok tt, w')).
Proof.
  destruct w as [[a c l t x d] ts clk rng evs]. cbn. intros ->.
  unfold timer_cancelled. cbn.
  destruct c as [[[|] sub]|]; destruct t as [t|]; cbn.
  all: try (destruct o1 as [|e1]; [destruct o2 as [|e2]|];
    try destruct e1; try destruct e2; cbn;
    (eexists; eexists; split; [reflexivity|]; cbn;
     repeat split; try reflexivity; intros os; rewrite drive_eq; reflexivity)).
  all: (eexists; eexists; split; [rewrite drive_eq; reflexivity|]; cbn;
     repeat split; try reflexivity; intros os; rewrite drive_eq; reflexivity).
Qed.

Lemma shutdown_disconnects_and_cancels_witness :
  exists r w',
    drive [Succeeds; Succeeds] async_shutdown
      (set_link (Some (mkClient true true)) (boot address_of_bike)) = Some (r, w')
    /\ client_connected (coordinator w') = false
    /\ _disconnect_task (coordinator w') = None
    /\ _connection_lock (coordinator w') = false
    /\ tasks w' = []
    /\ data (coordinator w') = data (HyenaEBikeCoordinator address_of_bike)
    /\ (forall os, drive os async_shutdown w' = Some (Ok tt, w')).
Proof.
  apply (shutdown_disconnects_and_cancels Succeeds Succeeds
           (set_link (Some (mkClient true true)) (boot address_of_bike)));
    reflexivity.
Defined.

(** ** The battery icon and the unique identifiers *)

Lemma icon_band_low (z : Z) : z < 10 -> icon_band z = 0.
Proof.
  intros H. unfold icon_band.
  assert (z / 10 < 1) by (apply Z.div_lt_upper_bound; lia). lia.
Qed.

Lemma icon_band_high (z : Z) : 90 <= z -> icon_band z = 9.
Proof.
  intros H. unfold icon_band.
  assert (9 <= z / 10) by (apply Z.div_le_lower_bound; lia). lia.
Qed.

Lemma icon_band_middle (z k : Z) :
  0 <= k <= 9 -> 10 * k <= z < 10 * (k + 1) -> icon_band z = k.
Proof.
  intros Hk H. unfold icon_band.
  assert (k <= z / 10) by (apply Z.div_le_lower_bound; lia).
  assert (z / 10 < k + 1) by (apply Z.div_lt_upper_bound; lia). lia.
Qed.

Lemma icon_band_cases (z : Z) :
  (z < 10 /\ icon_band z = 0) \/ (10 <= z < 20 /\ icon_band z = 1)
  \/ (20 <= z < 30 /\ icon_band z = 2) \/ (30 <= z < 40 /\ icon_band z = 3)
  \/ (40 <= z < 50 /\ icon_band z = 4) \/ (50 <= z < 60 /\ icon_band z = 5)
  \/ (60 <= z < 70 /\ icon_band z = 6) \/ (70 <= z < 80 /\ icon_band z = 7)
  \/ (80 <= z < 90 /\ icon_band z = 8) \/ (90 <= z /\ icon_band z = 9).
Proof.
  destruct (Z_lt_le_dec z 10); [left; split; [lia | apply icon_band_low; lia]|right].
  destruct (Z_lt_le_dec z 20); [left; split; [lia | apply icon_band_middle; lia]|right].
  destruct (Z_lt_le_dec z 30); [left; split; [lia | apply icon_band_middle; lia]|right].
  destruct (Z_lt_le_dec z 40); [left; split; [lia | apply icon_band_middle; lia]|right].
  destruct (Z_lt_le_dec z 50); [left; split; [lia | apply icon_band_middle; lia]|right].
  destruct (Z_lt_le_dec z 60); [left; split; [lia | apply icon_band_middle; lia]|right].
  destruct (Z_lt_le_dec z 70); [left; split; [lia | apply icon_band_middle; lia]|right].
  destruct (Z_lt_le_dec z 80); [left; split; [lia | apply icon_band_middle; lia]|right].
  destruct (Z_lt_le_dec z 90); [left; split; [lia | apply icon_band_middle; lia]|right].
  split; [lia | apply icon_band_high; lia].
Qed.

Lemma battery_icon_level (c : Coordinator) (z : Z) :
  battery_native_value c = PyInt z ->
  battery_icon c = Ok (icon_of_band (icon_band z)).
Proof.
  intros H. unfold battery_icon. rewrite H. cbn.
  destruct (icon_band_cases z) as [[Hz ->]|[[Hz ->]|[[Hz ->]|[[Hz ->]|[[Hz ->]|[[Hz ->]|[[Hz ->]|[[Hz ->]|[[Hz ->]|[Hz ->]]]]]]]]]];
  repeat match goal with
  | |- context [?a <=? z] =>
      first [ rewrite (proj2 (Z.leb_le a z)) by lia
            | rewrite (proj2 (Z.leb_gt a z)) by lia ]; cbn
  end; reflexivity.
Qed.

Lemma icon_of_band_inj (j k : Z) :
  0 <= j <= 9 -> 0 <= k <= 9 -> icon_of_band j = icon_of_band k -> j = k.
Proof.
  intros Hj Hk.
  assert (Ej : j = 0 \/ j = 1 \/ j = 2 \/ j = 3 \/ j = 4 \/ j = 5 \/ j = 6
               \/ j = 7 \/ j = 8 \/ j = 9) by lia.
  assert (Ek : k = 0 \/ k = 1 \/ k = 2 \/ k = 3 \/ k = 4 \/ k = 5 \/ k = 6
               \/ k = 7 \/ k = 8 \/ k = 9) by lia.
  destruct Ej as [->|[->|[->|[->|[->|[->|[->|[->|[->| ->]]]]]]]]];
  destruct Ek as [->|[->|[->|[->|[->|[->|[->|[->|[->| ->]]]]]]]]];
  cbn; intros H; first [reflexivity | discriminate H].
Qed.

Lemma icon_band_range (z : Z) : 0 <= icon_band z <= 9.
Proof. unfold icon_band. lia. Qed.

Lemma icon_of_band_known (k : Z) : icon_of_band k <> "mdi:battery-unknown".
Proof.
  unfold icon_of_band.
  destruct k as [|p|p]; try discriminate.
  do 4 (destruct p as [p|p|]; try discriminate).
Qed.

(** X6.  For an integer level the icon is the one of the level's band of ten
    (everything below 10, also a negative level, in the lowest band;
    everything from 90 on, also above 100, in the highest), and two levels
    get the same icon exactly when they fall in the same band. *)
Theorem battery_icon_by_band (c1 c2 : Coordinator) (a b : Z) :
  battery_native_value c1 = PyInt a ->
  battery_native_value c2 = PyInt b ->
  battery_icon c1 = Ok (icon_of_band (icon_band a))
  /\ (battery_icon c1 = battery_icon c2 <-> icon_band a = icon_band b).
Proof.
  intros Ha Hb. rewrite (battery_icon_level c1 a Ha), (battery_icon_level c2 b Hb).
  split; [reflexivity|]. split.
  - intros H. injection H as H.
    apply icon_of_band_inj; [apply icon_band_range | apply icon_band_range | exact H].
  - intros ->. reflexivity.
Qed.

Lemma battery_icon_by_band_witness :
  battery_icon (set_data (<[SENSOR_BATTERY := PyInt 255]> ∅)
                  (HyenaEBikeCoordinator address_of_bike))
  = Ok "mdi:battery"
  /\ (battery_icon (set_data (<[SENSOR_BATTERY := PyInt 255]> ∅)
                      (HyenaEBikeCoordinator address_of_bike))
      = battery_icon (set_data (<[SENSOR_BATTERY := PyInt 90]> ∅)
                        (HyenaEBikeCoordinator address_of_bike))
      <-> icon_band 255 = icon_band 90).
Proof.
  apply (battery_icon_by_band
           (set_data (<[SENSOR_BATTERY := PyInt 255]> ∅)
              (HyenaEBikeCoordinator address_of_bike))
           (set_data (<[SENSOR_BATTERY := PyInt 90]> ∅)
              (HyenaEBikeCoordinator address_of_bike)) 255 90);
    unfold battery_native_value, dict_get; cbn; rewrite lookup_insert_eq;
    reflexivity.
Defined.

Lemma list_ascii_app (a b : string) :
  list_ascii_of_string (a +:+ b) = list_ascii_of_string a ++ list_ascii_of_string b.
Proof. induction a as [|c a IH]; simpl; [reflexivity | f_equal; exact IH]. Qed.

Lemma list_ascii_inj (a b : string) :
  list_ascii_of_string a = list_ascii_of_string b -> a = b.
Proof.
  intros H. rewrite <- (string_of_list_ascii_of_string a),
    <- (string_of_list_ascii_of_string b), H. reflexivity.
Qed.

Lemma append_inj_l (a b s : string) : a +:+ s = b +:+ s -> a = b.
Proof.
  intros H. apply list_ascii_inj. apply (f_equal list_ascii_of_string) in H.
  rewrite !list_ascii_app in H. exact (app_inv_tail _ _ _ H).
Qed.

(** X7.  The unique identifier of a sensor determines the address of its bike,
    and the two sensors never share an identifier, not even across bikes. *)
Theorem unique_ids_identify_sensors (c1 c2 : Coordinator) :
  (battery_unique_id c1 = battery_unique_id c2
   <-> device_address c1 = device_address c2)
  /\ (temperature_unique_id c1 = temperature_unique_id c2
      <-> device_address c1 = device_address c2)
  /\ battery_unique_id c1 <> temperature_unique_id c2.
Proof.
  unfold battery_unique_id, temperature_unique_id.
  split; [|split].
  - split; [apply append_inj_l | intros ->; reflexivity].
  - split; [apply append_inj_l | intros ->; reflexivity].
  - intros H. apply (f_equal list_ascii_of_string) in H.
    rewrite !list_ascii_app in H. apply (f_equal (@rev ascii)) in H.
    rewrite !rev_app_distr in H. cbn in H. discriminate.
Qed.

(** ** The configuration flow *)

Lemma abort_if_configured_lets_through (host : FlowHost) (self : ConfigFlow)
    (address : string) :
  unique_id self = Some address ->
  lets_through host address ->
  _abort_if_unique_id_configured host self = None.
Proof.
  intros Hu Hl. unfold _abort_if_unique_id_configured. rewrite Hu.
  destruct Hl as [->|[-> Hs]]; [reflexivity|].
  rewrite !bool_decide_eq_true_2 by (reflexivity || exact Hs). reflexivity.
Qed.

Lemma abort_if_configured_blocks (host : FlowHost) (self : ConfigFlow)
    (address : string) :
  unique_id self = Some address ->
  ~ lets_through host address ->
  _abort_if_unique_id_configured host self = Some "already_configured".
Proof.
  intros Hu Hl. unfold _abort_if_unique_id_configured. rewrite Hu.
  destruct (entries host !! address) as [source|] eqn:He.
  - destruct (bool_decide (source = SOURCE_IGNORE)) eqn:H1; [|reflexivity].
    destruct (bool_decide (flow_source host = SOURCE_USER)) eqn:H2; [|reflexivity].
    exfalso. apply Hl. right.
    apply bool_decide_eq_true_1 in H1. apply bool_decide_eq_true_1 in H2.
    subst source. split; [exact He | exact H2].
  - exfalso. apply Hl. left. exact He.
Qed.

Lemma lets_through_dec (host : FlowHost) (address : string) :
  {lets_through host address} + {~ lets_through host address}.
Proof.
  unfold lets_through.
  destruct (entries host !! address) as [source|].
  - destruct (decide (source = SOURCE_IGNORE)) as [->|Hs].
    + destruct (decide (flow_source host = SOURCE_USER)) as [Hu|Hu].
      * left. right. split; [reflexivity | exact Hu].
      * right. intros [H|[_ H]]; [discriminate | contradiction].
    + right. intros [H|[H _]]; [discriminate|]. injection H as H. contradiction.
  - left. left. reflexivity.
Defined.

(** X8.  Bluetooth discovery.  A device whose name is missing, empty or does not
    start with the model's name is rejected.  For a supported device: when
    another flow is in progress for its address the host's helper aborts
    the step and the flow is left as it was; otherwise the unique id of the
    flow becomes the address, and an entry with that address aborts the flow
    unless it is an ignored entry met by a flow the user started; so on a
    flow started by Bluetooth discovery every entry with the address,
    ignored or not, aborts.  In the remaining case the step shows the
    confirmation form, and confirming creates an entry that carries the
    address. *)
Theorem discovery_then_confirm (host : FlowHost) (info : ServiceInfo)
    (self : ConfigFlow) (user_input : gmap string string) :
  (name_supported (info_name info) = false ->
   async_step_bluetooth host info self = (Returns (FlowAbort "not_supported"), self))
  /\ (name_supported (info_name info) = true ->
      info_address info ∈ in_progress host ->
      async_step_bluetooth host info self = (AbortFlow "already_in_progress", self))
  /\ (name_supported (info_name info) = true ->
      info_address info ∉ in_progress host ->
      unique_id (async_step_bluetooth host info self).2 = Some (info_address info)
      /\ (~ lets_through host (info_address info) ->
          (async_step_bluetooth host info self).1 = AbortFlow "already_configured")
      /\ (lets_through host (info_address info) ->
          (async_step_bluetooth host info self).1 = Returns (confirm_form info)
          /\ (async_step_confirm (Some user_input)
                (async_step_bluetooth host info self).2).1
             = Returns (entry_for (format_name (info_name info)) (info_address info))))
  /\ (flow_source host = SOURCE_BLUETOOTH ->
      name_supported (info_name info) = true ->
      info_address info ∉ in_progress host ->
      (info_address info ∈ current_ids host
       <-> (async_step_bluetooth host info self).1 = AbortFlow "already_configured")).
Proof.
  unfold async_step_bluetooth, async_set_unique_id.
  split; [|split; [|split]].
  - intros ->. reflexivity.
  - intros -> Hin. cbn. rewrite bool_decide_eq_true_2 by exact Hin. reflexivity.
  - intros -> Hin. cbn. rewrite bool_decide_eq_false_2 by exact Hin.
    destruct (lets_through_dec host (info_address info)) as [Hl|Hl].
    + erewrite abort_if_configured_lets_through; [|reflexivity|exact Hl].
      cbn. split; [reflexivity|]. split; [intros H; contradiction|].
      intros _. split; reflexivity.
    + erewrite abort_if_configured_blocks; [|reflexivity|exact Hl].
      cbn. split; [reflexivity|]. split; [reflexivity|].
      intros H; contradiction.
  - intros Hs -> Hin. cbn. rewrite bool_decide_eq_false_2 by exact Hin.
    unfold current_ids. rewrite elem_of_dom.
    unfold _abort_if_unique_id_configured. cbn.
    destruct (entries host !! info_address info) as [source|] eqn:He.
    + rewrite (bool_decide_eq_false_2 (flow_source host = SOURCE_USER))
        by (rewrite Hs; discriminate).
      rewrite andb_false_r. cbn. split; [reflexivity | eauto].
    + cbn. split; [intros [x Hx]; discriminate | discriminate].
Qed.

(** X9.  The user step with an input.  A missing address raises [KeyError].
    When another flow is in progress for the address the host's helper
    aborts the step and the flow is left as it was; otherwise an entry with
    that address aborts the flow unless it is an ignored entry met by a flow
    the user started, which is let through; in the remaining case the step
    creates the entry.  Whenever an entry is created, its data hold the
    address under [CONF_DEVICE_ADDRESS], no other flow was in progress for
    it, and no entry had it other than an ignored one. *)
Theorem user_entry_requires_new_address (host : FlowHost)
    (user_input : gmap string string) (self : ConfigFlow) :
  (user_input !! CONF_ADDRESS = None ->
   async_step_user host (Some user_input) self = (Raises KeyError, self))
  /\ (forall address, user_input !! CONF_ADDRESS = Some address ->
        (address ∈ in_progress host ->
         async_step_user host (Some user_input) self
         = (AbortFlow "already_in_progress", self))
        /\ (address ∉ in_progress host ->
            unique_id (async_step_user host (Some user_input) self).2 = Some address
            /\ (~ lets_through host address ->
                (async_step_user host (Some user_input) self).1
                = AbortFlow "already_configured")
            /\ (lets_through host address ->
                (async_step_user host (Some user_input) self).1
                = Returns (entry_for address address))))
  /\ (forall address, user_input !! CONF_ADDRESS = Some address ->
        address ∉ in_progress host ->
        flow_source host = SOURCE_USER ->
        entries host !! address = Some SOURCE_IGNORE ->
        (async_step_user host (Some user_input) self).1
        = Returns (entry_for address address))
  /\ (forall title data,
        (async_step_user host (Some user_input) self).1
        = Returns (FlowCreateEntry title data) ->
        exists address,
          user_input !! CONF_ADDRESS = Some address
          /\ (address ∉ in_progress host)
          /\ lets_through host address
          /\ data !! CONF_DEVICE_ADDRESS = Some address).
Proof.
  assert (Hstep : forall address, user_input !! CONF_ADDRESS = Some address ->
            address ∉ in_progress host ->
            unique_id (async_step_user host (Some user_input) self).2 = Some address
            /\ (~ lets_through host address ->
                (async_step_user host (Some user_input) self).1
                = AbortFlow "already_configured")
            /\ (lets_through host address ->
                (async_step_user host (Some user_input) self).1
                = Returns (entry_for address address))).
  { intros address Ha Hin. unfold async_step_user, async_set_unique_id.
    rewrite Ha. rewrite bool_decide_eq_false_2 by exact Hin.
    destruct (lets_through_dec host address) as [Hl|Hl].
    - erewrite abort_if_configured_lets_through; [|reflexivity|exact Hl].
      cbn. split; [reflexivity|]. split; [intros H; contradiction | reflexivity].
    - erewrite abort_if_configured_blocks; [|reflexivity|exact Hl].
      cbn. split; [reflexivity|]. split; [reflexivity | intros H; contradiction]. }
  split; [|split; [|split]].
  - intros Ha. unfold async_step_user. rewrite Ha. reflexivity.
  - intros address Ha. split; [|exact (Hstep address Ha)].
    intros Hin. unfold async_step_user, async_set_unique_id. rewrite Ha.
    rewrite bool_decide_eq_true_2 by exact Hin. reflexivity.
  - intros address Ha Hin Hs He.
    apply (Hstep address Ha Hin). right. split; assumption.
  - intros title data H.
    destruct (user_input !! CONF_ADDRESS) as [address|] eqn:Ha.
    2: { unfold async_step_user in H. rewrite Ha in H. discriminate. }
    exists address. split; [reflexivity|].
    destruct (decide (address ∈ in_progress host)) as [Hin|Hin].
    { unfold async_step_user, async_set_unique_id in H. rewrite Ha in H.
      rewrite bool_decide_eq_true_2 in H by exact Hin. discriminate. }
    split; [exact Hin|].
    destruct (Hstep address eq_refl Hin) as (_ & Hb & Hc).
    destruct (lets_through_dec host address) as [Hl|Hl].
    + split; [exact Hl|]. rewrite (Hc Hl) in H. injection H as _ <-.
      apply lookup_insert_eq.
    + rewrite (Hb Hl) in H. discriminate.
Qed.

Lemma remember_offerable (host : FlowHost) (self : ConfigFlow) (device : ServiceInfo) :
  offerable host device ->
  _discovered_devices (remember_device host self device)
  = <[info_address device := device]> (_discovered_devices self).
Proof.
  intros [Hn Ha]. unfold remember_device. rewrite Hn.
  rewrite bool_decide_eq_false_2 by exact Ha. reflexivity.
Qed.

Lemma remember_not_offerable (host : FlowHost) (self : ConfigFlow) (device : ServiceInfo) :
  ~ offerable host device -> remember_device host self device = self.
Proof.
  intros H. unfold remember_device.
  destruct (name_supported (info_name device)) eqn:Hn; [|reflexivity].
  case_bool_decide as Ha; [reflexivity|].
  exfalso. apply H. split; assumption.
Qed.

Lemma offerable_dec (host : FlowHost) (device : ServiceInfo) :
  {offerable host device} + {~ offerable host device}.
Proof.
  unfold offerable.
  destruct (name_supported (info_name device)); [|right; intros [? _]; discriminate].
  destruct (decide (info_address device ∈ current_ids host)) as [Hin|Hin].
  - right. intros [_ ?]. contradiction.
  - left. split; [reflexivity | exact Hin].
Defined.

(** Every remembered device is an old one or an offerable discovered one,
    stored under its own address. *)
Lemma remember_devices_sound (host : FlowHost) (devices : list ServiceInfo)
    (self : ConfigFlow) (a : string) (d : ServiceInfo) :
  _discovered_devices (fold_left (remember_device host) devices self) !! a = Some d ->
  _discovered_devices self !! a = Some d
  \/ (d ∈ devices /\ offerable host d /\ info_address d = a).
Proof.
  revert self. induction devices as [|device devices IH]; intros self H; cbn in H.
  - left. exact H.
  - destruct (IH _ H) as [Hold|(Hin & Ho & Ha)].
    + destruct (offerable_dec host device) as [Hd|Hd].
      * rewrite (remember_offerable host self device Hd) in Hold.
        destruct (decide (info_address device = a)) as [Heq|Hne].
        -- subst a. rewrite lookup_insert_eq in Hold. injection Hold as <-.
           right. split; [left|]. split; [exact Hd | reflexivity].
        -- rewrite lookup_insert_ne in Hold by exact Hne. left. exact Hold.
      * rewrite (remember_not_offerable host self device Hd) in Hold. left. exact Hold.
    + right. split; [right; exact Hin|]. split; assumption.
Qed.

Lemma remember_devices_keeps (host : FlowHost) (devices : list ServiceInfo)
    (self : ConfigFlow) (a : string) :
  is_Some (_discovered_devices self !! a) ->
  is_Some (_discovered_devices (fold_left (remember_device host) devices self) !! a).
Proof.
  revert self. induction devices as [|device devices IH]; intros self H; cbn.
  - exact H.
  - apply IH. destruct (offerable_dec host device) as [Hd|Hd].
    + rewrite (remember_offerable host self device Hd).
      destruct (decide (info_address device = a)) as [<-|Hne].
      * rewrite lookup_insert_eq. eauto.
      * rewrite lookup_insert_ne by exact Hne. exact H.
    + rewrite (remember_not_offerable host self device Hd). exact H.
Qed.

Lemma remember_devices_complete (host : FlowHost) (devices : list ServiceInfo)
    (self : ConfigFlow) (d : ServiceInfo) :
  d ∈ devices -> offerable host d ->
  is_Some (_discovered_devices (fold_left (remember_device host) devices self)
           !! info_address d).
Proof.
  revert self. induction devices as [|device devices IH]; intros self Hin Ho.
  - inversion Hin.
  - cbn. apply elem_of_cons in Hin as [->|Hin].
    + apply remember_devices_keeps. rewrite (remember_offerable host self device Ho).
      rewrite lookup_insert_eq. eauto.
    + apply IH; assumption.
Qed.

(** X10.  The user step without an input, on a new flow: the form asks for a
    free-text address exactly when no discovered device is supported and
    unconfigured; otherwise it offers a choice whose keys are exactly the
    addresses of the supported, unconfigured discovered devices, each
    labelled with the name and the address of such a device. *)
Theorem user_form_offers_supported_devices (host : FlowHost) :
  exists schema,
    (async_step_user host None HyenaEBikeConfigFlow).1
    = Returns (FlowShowForm "user" (Some schema) (Some ∅) None)
    /\ (schema = SchemaStr
        <-> forall d, d ∈ discovered_service_info host -> ~ offerable host d)
    /\ (forall choices, schema = SchemaIn choices ->
        (forall a label, choices !! a = Some label ->
           exists d, d ∈ discovered_service_info host /\ offerable host d
                     /\ info_address d = a /\ label = choice_label d)
        /\ (forall d, d ∈ discovered_service_info host -> offerable host d ->
              is_Some (choices !! info_address d))).
Proof.
  unfold async_step_user. cbn.
  set (self := fold_left (remember_device host) (discovered_service_info host)
                 HyenaEBikeConfigFlow).
  eexists. split; [reflexivity|].
  assert (Hsound : forall a d, _discovered_devices self !! a = Some d ->
            d ∈ discovered_service_info host /\ offerable host d /\ info_address d = a).
  { intros a d H. destruct (remember_devices_sound _ _ _ _ _ H) as [Hold|Hnew].
    - cbn in Hold. rewrite lookup_empty in Hold. discriminate.
    - exact Hnew. }
  split.
  - case_bool_decide as He; split.
    + intros _ d Hin Ho.
      destruct (remember_devices_complete host _ HyenaEBikeConfigFlow d Hin Ho) as [x Hx].
      fold self in Hx. rewrite He, lookup_empty in Hx. discriminate.
    + reflexivity.
    + discriminate.
    + intros Hnone. exfalso. apply He. apply map_empty. intros a.
      destruct (_discovered_devices self !! a) as [d|] eqn:Hd; [|reflexivity].
      destruct (Hsound a d Hd) as (Hin & Ho & _). exfalso. exact (Hnone d Hin Ho).
  - intros choices Hc. case_bool_decide as He; [discriminate|].
    injection Hc as <-. split.
    + intros a label Hl. rewrite map_lookup_imap in Hl.
      destruct (_discovered_devices self !! a) as [d|] eqn:Hd; [|discriminate].
      cbn in Hl. injection Hl as <-.
      destruct (Hsound a d Hd) as (Hin & Ho & Ha).
      exists d. repeat split; try assumption; try apply Ho.
      unfold choice_label. rewrite Ha. reflexivity.
    + intros d Hin Ho.
      destruct (remember_devices_complete host _ HyenaEBikeConfigFlow d Hin Ho) as [x Hx].
      fold self in Hx. rewrite map_lookup_imap, Hx. cbn. eauto.
Qed.

(** ** Set-up, platform set-up and unload *)

Lemma setup_completes (entry : ConfigEntry) (address : string)
    (hass : HomeAssistant) (env : SetupEnv) :
  entry_data entry !! CONF_DEVICE_ADDRESS = Some address ->
  refresh_handled (first_refresh env (HyenaEBikeCoordinator address)).2 ->
  forward_entry_setups env = Ok tt ->
  run_setup env (async_setup_entry entry) hass
  = Some (Ok true,
          mkHass (objects hass ++ [(first_refresh env (HyenaEBikeCoordinator address)).1])
            (<[DOMAIN := <[entry_id entry := length (objects hass)]> (registry_of hass)]>
               (hass_data hass))
            (forwarded hass ++ [(entry_id entry, PLATFORMS)])).
Proof.
  intros Ha Hr Hf. destruct hass as [objs hd fw]. unfold registry_of.
  unfold async_setup_entry. rewrite Ha. cbn.
  rewrite lookup_app_r by lia. rewrite Nat.sub_diag. cbn.
  destruct (first_refresh env (HyenaEBikeCoordinator address)) as [c' r] eqn:Hfr.
  cbn in Hr |- *.
  assert (Hins : <[length objs := c']> (objs ++ [HyenaEBikeCoordinator address])
                 = objs ++ [c']).
  { rewrite insert_app_r_alt by lia. rewrite Nat.sub_diag. reflexivity. }
  destruct r as [[]|e]; cbn; [|rewrite Hr; cbn].
  all: unfold setdefault_domain; cbn;
    destruct (hd !! DOMAIN) as [d|] eqn:Hd; cbn;
    rewrite ?Hd, ?lookup_insert_eq; cbn; rewrite Hf, Hins; cbn;
    rewrite ?insert_insert_eq; reflexivity.
Qed.

(** X11.  An entry that was set up unloads again: with the platforms unloaded and
    the shutdown returning, [async_unload_entry] returns [True] and the
    registry is what it was before the set-up, without the entry; the
    coordinator object is left in the state the shutdown gave it. *)
Theorem setup_then_unload (entry : ConfigEntry) (address : string)
    (hass hass1 : HomeAssistant) (env : SetupEnv) (uenv : UnloadEnv)
    (c' : Coordinator) :
  entry_data entry !! CONF_DEVICE_ADDRESS = Some address ->
  refresh_handled (first_refresh env (HyenaEBikeCoordinator address)).2 ->
  forward_entry_setups env = Ok tt ->
  run_setup env (async_setup_entry entry) hass = Some (Ok true, hass1) ->
  unload_platforms uenv = Ok true ->
  shutdown uenv (first_refresh env (HyenaEBikeCoordinator address)).1 = (c', Ok tt) ->
  exists hass2,
    async_unload_entry uenv entry hass1 = (Ok true, hass2)
    /\ registry_of hass2 = delete (entry_id entry) (registry_of hass)
    /\ objects hass2 = objects hass ++ [c'].
Proof.
  intros Ha Hh Hf Hs Hu Hsd.
  rewrite (setup_completes entry address hass env Ha Hh Hf) in Hs.
  injection Hs as <-.
  unfold async_unload_entry, registry_of. rewrite Hu. cbn.
  rewrite lookup_insert_eq. rewrite lookup_insert_eq.
  rewrite lookup_app_r by lia. rewrite Nat.sub_diag. cbn. rewrite Hsd. cbn.
  eexists. split; [reflexivity|]. cbn. split.
  - rewrite lookup_insert_eq. cbn. rewrite delete_insert_eq. reflexivity.
  - rewrite insert_app_r_alt by lia. rewrite Nat.sub_diag. reflexivity.
Qed.

Lemma setup_then_unload_witness :
  exists hass2,
    async_unload_entry
      (mkUnloadEnv (Ok true) (fun c => (set_client None c, Ok tt)))
      (mkEntry "entry" (<[CONF_DEVICE_ADDRESS := address_of_bike]> ∅))
      (mkHass [HyenaEBikeCoordinator address_of_bike]
         (<[DOMAIN := <["entry" := 0%nat]> (registry_of (mkHass [] ∅ []))]> ∅)
         [("entry", PLATFORMS)])
    = (Ok true, hass2)
    /\ registry_of hass2 = delete "entry" (registry_of (mkHass [] ∅ []))
    /\ objects hass2 = [set_client None (HyenaEBikeCoordinator address_of_bike)].
Proof.
  apply (setup_then_unload
           (mkEntry "entry" (<[CONF_DEVICE_ADDRESS := address_of_bike]> ∅))
           address_of_bike (mkHass [] ∅ []) _
           (mkSetupEnv (fun c => (c, Err UpdateFailed)) (Ok tt))
           (mkUnloadEnv (Ok true) (fun c => (set_client None c, Ok tt)))).
  - apply lookup_insert_eq.
  - reflexivity.
  - reflexivity.
  - apply (setup_completes
             (mkEntry "entry" (<[CONF_DEVICE_ADDRESS := address_of_bike]> ∅))
             address_of_bike (mkHass [] ∅ [])
             (mkSetupEnv (fun c => (c, Err UpdateFailed)) (Ok tt)));
      [apply lookup_insert_eq | reflexivity | reflexivity].
  - reflexivity.
  - reflexivity.
Defined.

(** X12.  [async_unload_entry] changes [hass.data] only when it returns [True]:
    when the platforms do not unload it returns their flag and touches
    nothing, not even the coordinator; an unknown entry raises [KeyError];
    when the shutdown raises, the entry stays registered.  When it returns
    [True] the entry is gone from the registry and nothing else is. *)
Theorem unload_removes_entry_only_on_success (uenv : UnloadEnv)
    (entry : ConfigEntry) (hass : HomeAssistant) :
  (unload_platforms uenv = Ok false ->
   async_unload_entry uenv entry hass = (Ok false, hass))
  /\ (unload_platforms uenv = Ok true ->
      registry_of hass !! entry_id entry = None ->
      async_unload_entry uenv entry hass = (Err KeyError, hass))
  /\ ((async_unload_entry uenv entry hass).1 <> Ok true ->
      hass_data (async_unload_entry uenv entry hass).2 = hass_data hass)
  /\ ((async_unload_entry uenv entry hass).1 = Ok true ->
      is_Some (registry_of hass !! entry_id entry)
      /\ registry_of (async_unload_entry uenv entry hass).2
         = delete (entry_id entry) (registry_of hass))
  /\ forwarded (async_unload_entry uenv entry hass).2 = forwarded hass.
Proof.
  unfold async_unload_entry, registry_of.
  destruct (unload_platforms uenv) as [[|]|e]; cbn.
  2,3: repeat split; try reflexivity; try discriminate; intros H; congruence.
  destruct (hass_data hass !! DOMAIN) as [registry|] eqn:Hd; cbn.
  2: { repeat split; try reflexivity; try discriminate. }
  destruct (registry !! entry_id entry) as [ref|] eqn:Hr; cbn.
  2: { repeat split; try reflexivity; try discriminate. }
  destruct (objects hass !! ref) as [c|] eqn:Hc; cbn.
  2: { repeat split; try reflexivity; try discriminate. }
  destruct (shutdown uenv c) as [c' [[]|e]]; cbn.
  - repeat split; try reflexivity; try discriminate; try congruence; eauto.
    rewrite lookup_insert_eq. reflexivity.
  - repeat split; try reflexivity; try discriminate.
Qed.

(** X13.  Every entry the configuration flow creates, by the user step or by the
    confirmation of a discovery, carries the device address; the set-up of
    such an entry never fails for a missing key, and when the first refresh
    is not cancelled and the platforms are forwarded it returns [True] with
    a coordinator for that address registered under the entry. *)
Theorem flow_entry_sets_up (host : FlowHost) (user_input : gmap string string)
    (self : ConfigFlow) (title : string) (data : gmap string string) :
  (async_step_user host (Some user_input) self).1
    = Returns (FlowCreateEntry title data)
  \/ (async_step_confirm (Some user_input) self).1
     = Returns (FlowCreateEntry title data) ->
  exists address,
    data !! CONF_DEVICE_ADDRESS = Some address
    /\ forall (id : string) (env : SetupEnv) (hass : HomeAssistant),
         refresh_handled (first_refresh env (HyenaEBikeCoordinator address)).2 ->
         forward_entry_setups env = Ok tt ->
         exists hass1,
           run_setup env (async_setup_entry (mkEntry id data)) hass
           = Some (Ok true, hass1)
           /\ registry_of hass1 !! id = Some (length (objects hass))
           /\ objects hass1 !! length (objects hass)
              = Some (first_refresh env (HyenaEBikeCoordinator address)).1.
Proof.
  intros H.
  assert (Ha : exists address, data !! CONF_DEVICE_ADDRESS = Some address).
  { destruct H as [H|H].
    - unfold async_step_user, async_set_unique_id in H.
      destruct (user_input !! CONF_ADDRESS) as [address|]; [|discriminate].
      destruct (bool_decide (address ∈ in_progress host)); [discriminate|].
      destruct (_abort_if_unique_id_configured host _); [discriminate|].
      cbn in H. injection H as _ <-. exists address. apply lookup_insert_eq.
    - unfold async_step_confirm in H.
      destruct (_discovery_info self) as [info|]; [|discriminate].
      cbn in H. injection H as _ <-. eexists. apply lookup_insert_eq. }
  destruct Ha as [address Ha]. exists address. split; [exact Ha|].
  intros id env hass Hr Hf.
  rewrite (setup_completes (mkEntry id data) address hass env Ha Hr Hf).
  eexists. split; [reflexivity|]. unfold registry_of. cbn. split.
  - rewrite lookup_insert_eq. cbn. apply lookup_insert_eq.
  - rewrite lookup_app_r by lia. rewrite Nat.sub_diag. reflexivity.
Qed.

Lemma flow_entry_sets_up_witness :
  exists address,
    (<[CONF_DEVICE_ADDRESS := address_of_bike]> ∅ : gmap string string)
      !! CONF_DEVICE_ADDRESS = Some address
    /\ forall (id : string) (env : SetupEnv) (hass : HomeAssistant),
         refresh_handled (first_refresh env (HyenaEBikeCoordinator address)).2 ->
         forward_entry_setups env = Ok tt ->
         exists hass1,
           run_setup env
             (async_setup_entry
                (mkEntry id (<[CONF_DEVICE_ADDRESS := address_of_bike]> ∅))) hass
           = Some (Ok true, hass1)
           /\ registry_of hass1 !! id = Some (length (objects hass))
           /\ objects hass1 !! length (objects hass)
              = Some (first_refresh env (HyenaEBikeCoordinator address)).1.
Proof.
  apply (flow_entry_sets_up (mkFlowHost SOURCE_USER ∅ ∅ [])
           (<[CONF_ADDRESS := address_of_bike]> ∅) HyenaEBikeConfigFlow
           ("Hyena E-Bike (" +:+ address_of_bike +:+ ")")).
  left. unfold async_step_user. rewrite lookup_insert_eq. reflexivity.
Defined.

(** X14.  After a set-up that returned [True] the sensor platform finds the
    coordinator of the entry and creates exactly the battery and the
    temperature sensor on it, with different unique identifiers; for an
    entry that was never set up it raises [KeyError]. *)
Theorem platform_setup_after_setup (entry : ConfigEntry) (address : string)
    (hass hass1 : HomeAssistant) (env : SetupEnv) :
  entry_data entry !! CONF_DEVICE_ADDRESS = Some address ->
  refresh_handled (first_refresh env (HyenaEBikeCoordinator address)).2 ->
  forward_entry_setups env = Ok tt ->
  run_setup env (async_setup_entry entry) hass = Some (Ok true, hass1) ->
  (exists battery temperature,
     sensor.async_setup_entry entry hass1 = Ok [battery; temperature]
     /\ battery
        = HyenaBatterySensor (length (objects hass))
            (first_refresh env (HyenaEBikeCoordinator address)).1
     /\ temperature
        = HyenaTemperatureSensor (length (objects hass))
            (first_refresh env (HyenaEBikeCoordinator address)).1
     /\ _attr_unique_id battery <> _attr_unique_id temperature)
  /\ (forall other, registry_of hass1 !! entry_id other = None ->
        sensor.async_setup_entry other hass1 = Err KeyError).
Proof.
  intros Ha Hh Hf Hs.
  rewrite (setup_completes entry address hass env Ha Hh Hf) in Hs.
  injection Hs as <-. unfold sensor.async_setup_entry, registry_of. cbn.
  rewrite lookup_insert_eq. split.
  - rewrite lookup_insert_eq. rewrite lookup_app_r by lia.
    rewrite Nat.sub_diag. cbn.
    eexists. eexists. split; [reflexivity|]. split; [reflexivity|].
    split; [reflexivity|]. cbn.
    unfold battery_unique_id, temperature_unique_id.
    intros H. apply (f_equal list_ascii_of_string) in H.
    rewrite !list_ascii_app in H. apply (f_equal (@rev ascii)) in H.
    rewrite !rev_app_distr in H. cbn in H. discriminate.
  - intros other Ho. cbn in Ho. rewrite Ho. reflexivity.
Qed.

Lemma platform_setup_after_setup_witness :
  exists battery temperature,
    sensor.async_setup_entry
      (mkEntry "entry" (<[CONF_DEVICE_ADDRESS := address_of_bike]> ∅))
      (mkHass [HyenaEBikeCoordinator address_of_bike]
         (<[DOMAIN := <["entry" := 0%nat]> (registry_of (mkHass [] ∅ []))]> ∅)
         [("entry", PLATFORMS)])
    = Ok [battery; temperature]
    /\ _attr_unique_id battery <> _attr_unique_id temperature.
Proof.
  destruct (platform_setup_after_setup
              (mkEntry "entry" (<[CONF_DEVICE_ADDRESS := address_of_bike]> ∅))
              address_of_bike (mkHass [] ∅ [])
              (mkHass [HyenaEBikeCoordinator address_of_bike]
                 (<[DOMAIN := <["entry" := 0%nat]> (registry_of (mkHass [] ∅ []))]> ∅)
                 [("entry", PLATFORMS)])
              (mkSetupEnv (fun c => (c, Err UpdateFailed)) (Ok tt)))
    as [(battery & temperature & H1 & _ & _ & H2) _].
  - apply lookup_insert_eq.
  - reflexivity.
  - reflexivity.
  - apply (setup_completes
             (mkEntry "entry" (<[CONF_DEVICE_ADDRESS := address_of_bike]> ∅))
             address_of_bike (mkHass [] ∅ [])
             (mkSetupEnv (fun c => (c, Err UpdateFailed)) (Ok tt)));
      [apply lookup_insert_eq | reflexivity | reflexivity].
  - exists battery, temperature. split; assumption.
Defined.

(** ** The store is written by notifications only *)

Lemma keeps_data_bind {A B} (m : method A) (f : A -> method B) (d : gmap string pyval) :
  keeps_data m d -> (forall a, keeps (f a)) -> keeps_data (coro_bind f m) d.
Proof.
  intros Hm Hf. revert d Hm.
  induction m as [a|e|k IH|s k IH|R c k IH|R a k IH]; intros d Hm; cbn in *.
  - apply Hf.
  - exact I.
  - intros s Hs. apply IH, Hm, Hs.
  - destruct Hm as [Hs Hk]. split; [exact Hs | apply IH, Hk].
  - intros r. apply IH, Hm.
  - intros r d'. apply IH, Hm.
Qed.

Lemma keeps_bind {A B} (m : method A) (f : A -> method B) :
  keeps m -> (forall a, keeps (f a)) -> keeps (m ≫= f).
Proof. intros Hm Hf d. apply keeps_data_bind; [apply Hm | exact Hf]. Qed.

Lemma keeps_try_catch {A} (body : method A) (caught : exn -> bool)
    (handler : exn -> method A) :
  keeps body -> (forall e, keeps (handler e)) -> keeps (try_catch body caught handler).
Proof.
  intros Hm Hf d. specialize (Hm d). revert d Hm.
  induction body as [a|e|k IH|s k IH|R c k IH|R a k IH]; intros d Hm; cbn in *.
  - exact I.
  - destruct (caught e); [apply Hf | exact I].
  - intros s Hs. apply IH, Hm, Hs.
  - destruct Hm as [Hs Hk]. split; [exact Hs | apply IH, Hk].
  - intros r. apply IH, Hm.
  - intros r d'. apply IH, Hm.
Qed.

Lemma keeps_try_finally {A} (body : method A) (final : method unit) :
  keeps body -> keeps final -> keeps (try_finally body final).
Proof.
  intros Hm Hf d. specialize (Hm d). revert d Hm.
  induction body as [a|e|k IH|s k IH|R c k IH|R a k IH]; intros d Hm; cbn in *.
  - apply keeps_data_bind; [apply Hf | intros _ d'; exact I].
  - apply keeps_data_bind; [apply Hf | intros _ d'; exact I].
  - intros s Hs. apply IH, Hm, Hs.
  - destruct Hm as [Hs Hk]. split; [exact Hs | apply IH, Hk].
  - intros r. apply IH, Hm.
  - intros r d'. apply IH, Hm.
Qed.

Lemma keeps_modify (f : Coordinator -> Coordinator) :
  (forall s, data (f s) = data s) -> keeps (modify f).
Proof. intros H d s Hs. cbn. split; [rewrite H; exact Hs | exact I]. Qed.

Lemma keeps_load_bind {B} (f : Coordinator -> method B) :
  (forall s, keeps (f s)) -> keeps (load ≫= f).
Proof. intros H d s Hs. apply H. Qed.

Lemma keeps_host_bind {R B} (c : hostE R) (f : R -> method B) :
  (forall r, keeps (f r)) -> keeps (host c ≫= f).
Proof. intros H d r. apply H. Qed.

Lemma keeps_await_bind {R B} (a : awaitE R) (f : R -> method B) :
  (forall r, keeps (f r)) -> keeps (await a ≫= f).
Proof. intros H d r d'. destruct r; cbn; [apply H | exact I]. Qed.

Lemma keeps_ret {A} (a : A) : keeps (Ret a : method A).
Proof. intros d. exact I. Qed.

Lemma keeps_raise {A} (e : exn) : keeps (Raise e : method A).
Proof. intros d. exact I. Qed.

Lemma keeps_with_connection_lock {A} (body : method A) :
  keeps body -> keeps (with_connection_lock body).
Proof.
  intros H d r d'. destruct r as [[]|e]; [|exact I].
  apply keeps_try_finally; [exact H | apply keeps_modify; reflexivity].
Qed.

Lemma keeps_client_call (a : awaitE unit) : keeps (client_call a).
Proof.
  intros d s Hs. cbn. destruct (_client s); [|exact I].
  intros r d'. destruct r; exact I.
Qed.

Lemma keeps_ensure_connection : keeps _ensure_connection.
Proof.
  apply keeps_with_connection_lock. apply keeps_load_bind. intros self.
  destruct (client_connected self); [apply keeps_ret|].
  apply keeps_try_catch; [|intros e; apply keeps_raise].
  apply keeps_host_bind. intros [ble|]; [|apply keeps_raise].
  apply keeps_await_bind. intros client.
  apply keeps_bind; [apply keeps_modify; reflexivity|].
  intros _. apply keeps_client_call.
Qed.

Lemma keeps_async_update_data : keeps _async_update_data.
Proof.
  apply keeps_load_bind. intros self.
  apply keeps_bind.
  - destruct (negb (client_connected self)); [apply keeps_ensure_connection | apply keeps_ret].
  - intros _. apply keeps_load_bind. intros s. apply keeps_ret.
Qed.

Lemma keeps_async_disconnect : keeps _async_disconnect.
Proof.
  apply keeps_with_connection_lock. apply keeps_load_bind. intros self.
  destruct (negb (client_connected self)); [apply keeps_ret|].
  apply keeps_bind; [apply keeps_modify; reflexivity|]. intros _.
  apply keeps_try_finally.
  - apply keeps_try_catch; [|intros e; apply keeps_ret].
    apply keeps_bind; [apply keeps_client_call|]. intros _. apply keeps_client_call.
  - apply keeps_bind; [apply keeps_modify; reflexivity|]. intros _.
    apply keeps_modify; reflexivity.
Qed.

Lemma keeps_disconnect_after_delay : keeps _disconnect_after_delay.
Proof.
  apply keeps_try_catch; [|intros e; apply keeps_ret].
  apply keeps_await_bind. intros _. apply keeps_async_disconnect.
Qed.

Lemma keeps_async_shutdown : keeps async_shutdown.
Proof.
  apply keeps_load_bind. intros self. apply keeps_bind.
  - destruct (_disconnect_task self) as [t|]; [|apply keeps_ret].
    apply keeps_host_bind. intros _. apply keeps_modify; reflexivity.
  - intros _. apply keeps_async_disconnect.
Qed.

Lemma keeps_entry_body (c : Entry) : keeps (entry_body c).
Proof.
  destruct c; cbn [entry_body].
  - apply keeps_ensure_connection.
  - apply keeps_bind; [apply keeps_async_update_data | intros _; apply keeps_ret].
  - apply keeps_disconnect_after_delay.
  - apply keeps_async_disconnect.
  - apply keeps_async_shutdown.
Qed.

Lemma keeps_disconnected_callback : keeps _disconnected_callback.
Proof.
  apply keeps_load_bind. intros self.
  destruct (_expected_disconnect self); [apply keeps_ret|].
  apply keeps_bind; [apply keeps_modify; reflexivity|]. intros _.
  apply keeps_host_bind. intros t. apply keeps_ret.
Qed.

Lemma keeps_reset_disconnect_timer : keeps _reset_disconnect_timer.
Proof.
  apply keeps_load_bind. intros self. apply keeps_bind.
  - destruct (_disconnect_task self) as [t|]; [|apply keeps_ret].
    apply keeps_host_bind. intros _. apply keeps_modify; reflexivity.
  - intros _. apply keeps_host_bind. intros t. apply keeps_modify; reflexivity.
Qed.

Lemma keeps_publish_and_reset : keeps publish_and_reset.
Proof.
  apply keeps_load_bind. intros self. apply keeps_host_bind. intros _.
  apply keeps_reset_disconnect_timer.
Qed.

Lemma host_call_keeps {R} (c : hostE R) (w : World) :
  tasks_keep w ->
  tasks_keep (host_call c w).2
  /\ coordinator (host_call c w).2 = coordinator w.
Proof.
  intros Hw. unfold tasks_keep in *. destruct c; cbn.
  - split; [exact Hw | reflexivity].
  - split; [|reflexivity]. apply Forall_app. split; [exact Hw|].
    constructor; [apply keeps_entry_body | constructor].
  - split; [|reflexivity]. apply Forall_alter; [exact Hw|].
    intros task _ Hk. unfold request_cancel. destruct (finished (prog task)); exact Hk.
  - split; [exact Hw | reflexivity].
Qed.

(** A coroutine that leaves the store alone, run to its next suspension. *)
Lemma run_keeps {A} (p : method A) (w : World) :
  keeps_data p (data (coordinator w)) -> tasks_keep w ->
  keeps (run p w).1
  /\ data (coordinator (run p w).2) = data (coordinator w)
  /\ tasks_keep (run p w).2.
Proof.
  revert w. induction p as [a|e|k IH|s k IH|R c k IH|R a k IH]; intros w Hp Hw; cbn in *.
  - split; [apply keeps_ret|]. split; [reflexivity | exact Hw].
  - split; [apply keeps_raise|]. split; [reflexivity | exact Hw].
  - apply IH; [apply Hp; reflexivity | exact Hw].
  - destruct Hp as [Hs Hk].
    destruct (IH (set_coordinator s w)) as (H1 & H2 & H3); [cbn; rewrite Hs; exact Hk | exact Hw |].
    split; [exact H1|]. split; [rewrite H2; exact Hs | exact H3].
  - destruct (host_call_keeps c w Hw) as [Ht Hc].
    destruct (host_call c w) as [r w1] eqn:Hh. cbn in Ht, Hc.
    destruct (IH r w1) as (H1 & H2 & H3); [rewrite Hc; apply Hp | exact Ht |].
    split; [exact H1|]. split; [rewrite H2, Hc; reflexivity | exact H3].
  - destruct (completes_now a w) as [[r w1]|] eqn:Hc.
    + assert (Hw1 : tasks w1 = tasks w /\ data (coordinator w1) = data (coordinator w)).
      { destruct a; try discriminate. cbn in Hc.
        destruct (_connection_lock (coordinator w)); [discriminate|].
        injection Hc as _ <-. split; reflexivity. }
      destruct Hw1 as [Ht Hd].
      destruct (IH (Ok r) w1) as (H1 & H2 & H3); [apply Hp | unfold tasks_keep; rewrite Ht; exact Hw |].
      split; [exact H1|]. split; [rewrite H2; exact Hd | exact H3].
    + cbn. split; [intros d; exact Hp|].
      destruct a; cbn; split; first [reflexivity | exact Hw].
Qed.

Lemma call_back_keeps (p : method unit) (w : World) :
  keeps p -> tasks_keep w ->
  data (coordinator (call_back p w)) = data (coordinator w)
  /\ tasks_keep (call_back p w).
Proof. intros Hp Hw. unfold call_back. apply (run_keeps p w (Hp _) Hw). Qed.

Lemma await_outcome_keeps {R} (a : awaitE R) (o : Outcome) (suspended : nat)
    (w w' : World) (r : result R) :
  tasks_keep w -> await_outcome a o suspended w = Some (r, w') ->
  data (coordinator w') = data (coordinator w) /\ tasks_keep w'.
Proof.
  intros Hw H. destruct a; cbn in H.
  - destruct o; [|discriminate].
    destruct (_connection_lock (coordinator w)); [discriminate|].
    injection H as _ <-. split; [reflexivity | exact Hw].
  - destruct o; injection H as _ <-; split; first [reflexivity | exact Hw].
  - destruct o; [|injection H as _ <-; split; first [reflexivity | exact Hw]].
    destruct (_client (coordinator w)) as [c|]; [|discriminate].
    destruct (is_connected c); [|discriminate].
    injection H as _ <-. split; [reflexivity | exact Hw].
  - destruct o; [|injection H as _ <-; split; first [reflexivity | exact Hw]].
    destruct (_client (coordinator w)) as [c|]; [|discriminate].
    destruct (is_connected c); [|discriminate].
    injection H as _ <-. split; [reflexivity | exact Hw].
  - destruct o; [|injection H as _ <-; split; first [reflexivity | exact Hw]].
    destruct (_client (coordinator w)) as [c|];
      [|injection H as _ <-; split; first [reflexivity | exact Hw]].
    destruct (is_connected c);
      [|injection H as _ <-; split; first [reflexivity | exact Hw]].
    injection H as _ <-.
    apply (call_back_keeps _ (set_link (Some (mkClient false false)) w)
             keeps_disconnected_callback Hw).
  - destruct o; [|discriminate].
    destruct (suspended + seconds <=? clock w)%nat; [|discriminate].
    injection H as _ <-. split; [reflexivity | exact Hw].
  - discriminate.
  - discriminate.
Qed.

Lemma store_task_keeps (t : nat) (p : method unit) (w : World) :
  keeps p -> tasks_keep w ->
  tasks_keep (store_task t p w)
  /\ coordinator (store_task t p w) = coordinator w.
Proof.
  intros Hp Hw. split; [|reflexivity]. unfold tasks_keep, store_task. cbn.
  apply Forall_insert; [exact Hw | exact Hp].
Qed.

Lemma continue_keeps (t : nat) (p : method unit) (w : World) :
  keeps p -> tasks_keep w ->
  data (coordinator (continue t p w)) = data (coordinator w)
  /\ tasks_keep (continue t p w).
Proof.
  intros Hp Hw. unfold continue.
  destruct (run_keeps p w (Hp _) Hw) as (H1 & H2 & H3).
  destruct (run p w) as [p' w']. cbn in *.
  destruct (store_task_keeps t p' w' H1 H3) as [H4 H5].
  split; [exact H2 | exact H4].
Qed.

Lemma resume_keeps (t : nat) (o : Outcome) (w w' : World) :
  tasks_keep w -> resume t o w = Some w' ->
  data (coordinator w') = data (coordinator w) /\ tasks_keep w'.
Proof.
  intros Hw H. unfold resume in H.
  destruct (tasks w !! t) as [task|] eqn:Ht; [|discriminate]. cbn in H.
  assert (Hp : keeps (prog task)).
  { unfold tasks_keep in Hw. rewrite Forall_lookup in Hw. exact (Hw t task Ht). }
  destruct (started task); cbn in H.
  - destruct (prog task) as [| | | | |R a k] eqn:Hprog; try discriminate.
    destruct (cancel_requested task).
    + injection H as <-. apply continue_keeps; [|exact Hw].
      intros d. apply (Hp d).
    + destruct (await_outcome a o (since task) w) as [[r w1]|] eqn:Ha; [|discriminate].
      cbn in H. injection H as <-.
      destruct (await_outcome_keeps a o _ w w1 r Hw Ha) as [Hd Hw1].
      destruct (continue_keeps t (k r) w1) as [H1 H2]; [intros d; apply (Hp d) | exact Hw1 |].
      split; [rewrite H1; exact Hd | exact H2].
  - destruct (cancel_requested task); injection H as <-.
    + destruct (store_task_keeps t (Raise CancelledError) w (keeps_raise _) Hw) as [H1 H2].
      split; [rewrite H2; reflexivity | exact H1].
    + apply continue_keeps; assumption.
Qed.

Lemma handler_stored (payload : list byte) (w : World) :
  data (coordinator (call_back (_notification_handler payload) w))
  = stored (data (coordinator w)) payload.
Proof.
  unfold stored. destruct (decode_returns payload) as [[r|] Hr]; rewrite Hr.
  - apply handler_stores, Hr.
  - rewrite (handler_no_reading payload w Hr). reflexivity.
Qed.

Lemma handler_tasks_keep (payload : list byte) (w : World) :
  tasks_keep w -> tasks_keep (call_back (_notification_handler payload) w).
Proof.
  intros Hw. destruct (decode_returns payload) as [[r|] Hr].
  - rewrite (handler_reading payload r w Hr).
    apply (run_keeps publish_and_reset _ (keeps_publish_and_reset _)). exact Hw.
  - rewrite (handler_no_reading payload w Hr). exact Hw.
Qed.

Lemma step_keeps (l : Label) (w w' : World) :
  tasks_keep w -> step l w = Some w' ->
  tasks_keep w'
  /\ data (coordinator w')
     = fold_left stored (notifications [l]) (data (coordinator w)).
Proof.
  intros Hw H. destruct l; cbn in H |- *.
  - destruct (resume_keeps t o w w' Hw H) as [H1 H2]. split; assumption.
  - destruct (_client (coordinator w)) as [c|]; [|discriminate].
    destruct (is_connected c && notifying c); [|discriminate].
    injection H as <-. split; [apply handler_tasks_keep, Hw | apply handler_stored].
  - destruct (client_connected (coordinator w)); [|discriminate].
    injection H as <-.
    destruct (call_back_keeps _ (set_link (Some (mkClient false false)) w)
                keeps_disconnected_callback Hw) as [H1 H2].
    split; [exact H2 | exact H1].
  - injection H as <-. split; [exact Hw | reflexivity].
  - injection H as <-. destruct (host_call_keeps (AsyncCreateTask c) w Hw) as [H1 H2].
    split; [exact H1 | reflexivity].
  - injection H as <-. split; [exact Hw | reflexivity].
Qed.

Lemma notifications_cons (l : Label) (ls : list Label) :
  notifications (l :: ls) = notifications [l] ++ notifications ls.
Proof. destruct l; reflexivity. Qed.

Lemma exec_keeps (ls : list Label) (w w' : World) :
  tasks_keep w -> exec ls w = Some w' ->
  tasks_keep w'
  /\ data (coordinator w')
     = fold_left stored (notifications ls) (data (coordinator w)).
Proof.
  revert w. induction ls as [|l ls IH]; intros w Hw H.
  - injection H as <-. split; [exact Hw | reflexivity].
  - cbn in H. destruct (step l w) as [w1|] eqn:Hs; [|discriminate]. cbn in H.
    destruct (step_keeps l w w1 Hw Hs) as [Hw1 Hd1].
    destruct (IH w1 Hw1 H) as [Hw' Hd'].
    split; [exact Hw'|]. rewrite notifications_cons, fold_left_app, <- Hd1. exact Hd'.
Qed.

Lemma deliver_stored (payloads : list (list byte)) (w : World) :
  data (coordinator (deliver payloads w))
  = fold_left stored payloads (data (coordinator w)).
Proof.
  revert w. induction payloads as [|p ps IH]; intros w; [reflexivity|].
  cbn. unfold deliver in IH. rewrite IH, handler_stored. reflexivity.
Qed.

(** X15.  In every world the event loop can reach from a fresh coordinator, the
    store is what the notifications received so far, applied in order, make
    of the initial store. *)
Theorem store_written_only_by_notifications (address : string) (ls : list Label)
    (w : World) :
  exec ls (boot address) = Some w ->
  data (coordinator w)
  = data (coordinator (deliver (notifications ls) (boot address))).
Proof.
  intros H.
  destruct (exec_keeps ls (boot address) w) as [_ Hd]; [constructor | exact H |].
  rewrite Hd, deliver_stored. reflexivity.
Qed.

Lemma store_written_only_by_notifications_witness :
  exists w,
    exec (connect_schedule ++ [Notification [x0a; x50]; LinkLost])
      (boot address_of_bike) = Some w
    /\ data (coordinator w)
       = data (coordinator (deliver [[x0a; x50]] (boot address_of_bike))).
Proof.
  destruct (exec (connect_schedule ++ [Notification [x0a; x50]; LinkLost])
              (boot address_of_bike)) as [w|] eqn:Hx;
    [|vm_compute in Hx; discriminate].
  exists w. split; [reflexivity|].
  apply (store_written_only_by_notifications address_of_bike
           (connect_schedule ++ [Notification [x0a; x50]; LinkLost]) w Hx).
Defined.

(** ** The lock discipline *)

Lemma disciplined_mono {A} (p : method A) (mine cur : bool) (Q Q' : bool -> bool -> Prop) :
  (forall m c, Q m c -> Q' m c) ->
  disciplined p mine cur Q -> disciplined p mine cur Q'.
Proof.
  intros HQ. revert mine cur.
  induction p as [a|e|k IH|s k IH|R c k IH|R a k IH]; intros mine cur H; cbn in *.
  - apply HQ, H.
  - apply HQ, H.
  - intros s Hs. apply IH, H, Hs.
  - destruct H as [H1 H2]. split; [exact H1 | apply IH, H2].
  - intros r. apply IH, H.
  - destruct (await_kind a).
    + destruct H as [H1 H2]. split; [exact H1|]. intros r. specialize (H2 r).
      destruct r; [apply IH, H2 | intros cur'; apply IH, H2].
    + destruct H as [H1 H2]. split; [exact H1|]. intros r. apply IH, H2.
    + intros r. specialize (H r). destruct mine; [apply IH, H | intros cur'; apply IH, H].
Qed.

Lemma disciplined_bind {A B} (m : method A) (f : A -> method B) (mine cur : bool)
    (Q : bool -> bool -> Prop) :
  disciplined m mine cur
    (fun m' c' => (forall a, disciplined (f a) m' c' Q) /\ Q m' c') ->
  disciplined (coro_bind f m) mine cur Q.
Proof.
  revert mine cur.
  induction m as [a|e|k IH|s k IH|R c k IH|R a k IH]; intros mine cur H; cbn in *.
  - apply H.
  - apply H.
  - intros s Hs. apply IH, H, Hs.
  - destruct H as [H1 H2]. split; [exact H1 | apply IH, H2].
  - intros r. apply IH, H.
  - destruct (await_kind a).
    + destruct H as [H1 H2]. split; [exact H1|]. intros r. specialize (H2 r).
      destruct r; [apply IH, H2 | intros cur'; apply IH, H2].
    + destruct H as [H1 H2]. split; [exact H1|]. intros r. apply IH, H2.
    + intros r. specialize (H r). destruct mine; [apply IH, H | intros cur'; apply IH, H].
Qed.

Lemma disciplined_try_catch {A} (body : method A) (caught : exn -> bool)
    (handler : exn -> method A) (mine cur : bool) (Q : bool -> bool -> Prop) :
  disciplined body mine cur
    (fun m' c' => (forall e, disciplined (handler e) m' c' Q) /\ Q m' c') ->
  disciplined (try_catch body caught handler) mine cur Q.
Proof.
  revert mine cur.
  induction body as [a|e|k IH|s k IH|R c k IH|R a k IH]; intros mine cur H; cbn in *.
  - apply H.
  - destruct (caught e); apply H.
  - intros s Hs. apply IH, H, Hs.
  - destruct H as [H1 H2]. split; [exact H1 | apply IH, H2].
  - intros r. apply IH, H.
  - destruct (await_kind a).
    + destruct H as [H1 H2]. split; [exact H1|]. intros r. specialize (H2 r).
      destruct r; [apply IH, H2 | intros cur'; apply IH, H2].
    + destruct H as [H1 H2]. split; [exact H1|]. intros r. apply IH, H2.
    + intros r. specialize (H r). destruct mine; [apply IH, H | intros cur'; apply IH, H].
Qed.

Lemma disciplined_try_finally {A} (body : method A) (final : method unit)
    (mine cur : bool) (Q : bool -> bool -> Prop) :
  disciplined body mine cur (fun m' c' => disciplined final m' c' Q) ->
  disciplined (try_finally body final) mine cur Q.
Proof.
  revert mine cur.
  induction body as [a|e|k IH|s k IH|R c k IH|R a k IH]; intros mine cur H; cbn in *.
  - apply disciplined_bind. eapply disciplined_mono; [|exact H].
    intros m c HQ. split; [intros _; exact HQ | exact HQ].
  - apply disciplined_bind. eapply disciplined_mono; [|exact H].
    intros m c HQ. split; [intros _; exact HQ | exact HQ].
  - intros s Hs. apply IH, H, Hs.
  - destruct H as [H1 H2]. split; [exact H1 | apply IH, H2].
  - intros r. apply IH, H.
  - destruct (await_kind a).
    + destruct H as [H1 H2]. split; [exact H1|]. intros r. specialize (H2 r).
      destruct r; [apply IH, H2 | intros cur'; apply IH, H2].
    + destruct H as [H1 H2]. split; [exact H1|]. intros r. apply IH, H2.
    + intros r. specialize (H r). destruct mine; [apply IH, H | intros cur'; apply IH, H].
Qed.

Ltac discipline :=
  repeat first
    [ match goal with
      | H : _connection_lock ?s = _ |- context [_connection_lock ?s] => rewrite H
      | H : _connection_lock ?s = _, H' : context [_connection_lock ?s] |- _ =>
          rewrite H in H'
      end
    | progress cbn in *
    | progress intros
    | progress subst
    | split
    | reflexivity
    | assumption
    | discriminate
    | congruence
    | match goal with
      | r : result _ |- _ => destruct r
      | u : unit |- _ => destruct u
      | o : option _ |- _ => destruct o
      | |- context [if ?b then _ else _] => destruct b eqn:?
      | |- context [match ?x with _ => _ end] => destruct x eqn:?
      end ].

Lemma startable_ensure_connection : startable _ensure_connection.
Proof. unfold startable, _ensure_connection, with_connection_lock, client_call, released. discipline. Qed.

Lemma startable_async_disconnect : startable _async_disconnect.
Proof. unfold startable, _async_disconnect, with_connection_lock, client_call, released. discipline. Qed.

Lemma startable_async_update_data :
  forall cur, disciplined _async_update_data false cur released.
Proof. unfold _async_update_data, _ensure_connection, with_connection_lock, client_call, released. discipline. Qed.

Lemma startable_disconnect_after_delay : startable _disconnect_after_delay.
Proof. unfold startable, _disconnect_after_delay, _async_disconnect, with_connection_lock, client_call, released. discipline. Qed.

Lemma startable_async_shutdown : startable async_shutdown.
Proof. unfold startable, async_shutdown, _async_disconnect, with_connection_lock, client_call, released. discipline. Qed.

Lemma startable_entry_body (c : Entry) : startable (entry_body c).
Proof.
  destruct c; cbn [entry_body].
  - apply startable_ensure_connection.
  - intros cur. apply disciplined_bind.
    eapply disciplined_mono; [|apply startable_async_update_data].
    intros m c' H. split; [intros _; exact H | exact H].
  - apply startable_disconnect_after_delay.
  - apply startable_async_disconnect.
  - apply startable_async_shutdown.
Qed.

Lemma tasks_disciplined_spawn (skip owner : option nat) (ts : list TaskState)
    (c : Entry) (clk : nat) :
  tasks_disciplined skip owner ts ->
  tasks_disciplined skip owner (ts ++ [mkTask (entry_body c) false clk false]).
Proof.
  intros [Ho Ht]. split.
  - intros t Heq. rewrite length_app. specialize (Ho t Heq). cbn. lia.
  - intros t task Hl Hs.
    destruct (decide (t < length ts)%nat) as [Hlt|Hge].
    + rewrite lookup_app_l in Hl by exact Hlt. apply Ht; assumption.
    + rewrite lookup_app_r in Hl by lia.
      destruct (t - length ts)%nat as [|n] eqn:Hn; [|destruct n; discriminate].
      injection Hl as <-.
      assert (Hno : owner <> Some t).
      { intros Heq. specialize (Ho t Heq). lia. }
      rewrite bool_decide_eq_false_2 by exact Hno.
      split; [apply startable_entry_body | discriminate].
Qed.

Lemma tasks_disciplined_cancel (skip owner : option nat) (ts : list TaskState)
    (t0 : nat) :
  tasks_disciplined skip owner ts ->
  tasks_disciplined skip owner (alter request_cancel t0 ts).
Proof.
  intros [Ho Ht]. split.
  - intros t Heq. rewrite length_alter. apply Ho, Heq.
  - intros t task Hl Hs.
    destruct (decide (t = t0)) as [->|Hne].
    + rewrite list_lookup_alter_eq in Hl.
      apply fmap_Some in Hl as (task0 & H0 & ->).
      specialize (Ht t0 task0 H0 Hs). unfold request_cancel.
      destruct (finished (prog task0)); exact Ht.
    + rewrite list_lookup_alter_ne in Hl by congruence. apply Ht; assumption.
Qed.

Lemma host_call_disciplined {R} (c : hostE R) (w : World) (skip owner : option nat) :
  tasks_disciplined skip owner (tasks w) ->
  tasks_disciplined skip owner (tasks (host_call c w).2)
  /\ coordinator (host_call c w).2 = coordinator w.
Proof.
  intros H. destruct c; cbn; (split; [|reflexivity]).
  - exact H.
  - apply tasks_disciplined_spawn, H.
  - apply tasks_disciplined_cancel, H.
  - exact H.
Qed.

(** A coroutine run to its next suspension: the other tasks keep the
    discipline, and the lock is held by whoever held it, unless the
    coroutine took or released it itself. *)
Lemma run_disciplined {A} (p : method A) (w : World) (mine : bool)
    (skip other : option nat) :
  disciplined p mine (_connection_lock (coordinator w)) released ->
  (mine = true -> _connection_lock (coordinator w) = true /\ other = None) ->
  (mine = false -> _connection_lock (coordinator w) = bool_decide (is_Some other)) ->
  tasks_disciplined skip other (tasks w) ->
  exists mine',
    (forall cur, disciplined (run p w).1 mine' cur released)
    /\ _connection_lock (coordinator (run p w).2)
       = (bool_decide (is_Some other) || mine')
    /\ (mine' = true -> other = None)
    /\ tasks_disciplined skip other (tasks (run p w).2).
Proof.
  revert w mine.
  induction p as [a|e|k IH|s k IH|R c k IH|R a k IH]; intros w mine Hp Hm Hn Ht; cbn in *.
  - exists false. unfold released in Hp. subst mine.
    split; [intros cur; reflexivity|]. rewrite orb_false_r.
    split; [apply Hn; reflexivity|]. split; [discriminate | exact Ht].
  - exists false. unfold released in Hp. subst mine.
    split; [intros cur; reflexivity|]. rewrite orb_false_r.
    split; [apply Hn; reflexivity|]. split; [discriminate | exact Ht].
  - apply (IH (coordinator w) w mine); [apply Hp; reflexivity | exact Hm | exact Hn | exact Ht].
  - destruct Hp as [Hs Hk].
    apply (IH (set_coordinator s w) (mine && _connection_lock s)); cbn.
    + exact Hk.
    + intros H. apply andb_true_iff in H as [H1 H2]. split; [exact H2 | apply Hm, H1].
    + intros H. destruct mine; cbn in H.
      * destruct (Hm eq_refl) as [_ ->]. rewrite H. reflexivity.
      * rewrite (Hs eq_refl). apply Hn. reflexivity.
    + exact Ht.
  - destruct (host_call_disciplined c w skip other Ht) as [Ht' Hc].
    destruct (host_call c w) as [r w1]. cbn in Ht', Hc.
    apply (IH r w1 mine); rewrite ?Hc; [apply Hp | exact Hm | exact Hn | exact Ht'].
  - destruct (completes_now a w) as [[r w1]|] eqn:Hc.
    + destruct a; try discriminate. cbn in Hc.
      destruct (_connection_lock (coordinator w)) eqn:Hl; [discriminate|].
      injection Hc as <- <-. cbn in Hp. destruct Hp as [-> Hk].
      specialize (Hk (Ok tt)). cbn in Hk.
      assert (Ho : other = None).
      { specialize (Hn eq_refl). destruct other; [|reflexivity].
        rewrite bool_decide_eq_true_2 in Hn by eauto. discriminate. }
      apply (IH (Ok tt) _ true); cbn.
      * exact Hk.
      * intros _. split; [reflexivity | exact Ho].
      * discriminate.
      * exact Ht.
    + cbn. exists mine.
      assert (Hw : coordinator (note_await a w) = coordinator w
                   /\ tasks (note_await a w) = tasks w).
      { destruct a; split; reflexivity. }
      destruct Hw as [Hw1 Hw2]. rewrite Hw1, Hw2.
      split; [intros cur; exact Hp|].
      split; [|split; [intros H; apply Hm, H | exact Ht]].
      destruct mine.
      * destruct (Hm eq_refl) as [-> _]. rewrite orb_true_r. reflexivity.
      * rewrite orb_false_r. apply Hn. reflexivity.
Qed.

Lemma host_call_length {R} (c : hostE R) (w : World) :
  (length (tasks w) <= length (tasks (host_call c w).2))%nat.
Proof.
  destruct c; cbn; rewrite ?length_app, ?length_alter; lia.
Qed.

Lemma run_length {A} (p : method A) (w : World) :
  (length (tasks w) <= length (tasks (run p w).2))%nat.
Proof.
  revert w. induction p as [a|e|k IH|s k IH|R c k IH|R a k IH]; intros w; cbn.
  - lia.
  - lia.
  - apply IH.
  - apply (IH (set_coordinator s w)).
  - pose proof (host_call_length c w) as Hh.
    destruct (host_call c w) as [r w1]. cbn in Hh.
    specialize (IH r w1). lia.
  - destruct (completes_now a w) as [[r w1]|] eqn:Hc.
    + destruct a; try discriminate. cbn in Hc.
      destruct (_connection_lock (coordinator w)); [discriminate|].
      injection Hc as <- <-.
      apply (IH (Ok tt) (set_coordinator (set_connection_lock true (coordinator w)) w)).
    + destruct a; cbn; lia.
Qed.

Lemma lock_inv_others (owner : option nat) (w : World) (t : nat) :
  lock_inv owner w ->
  tasks_disciplined (Some t)
    (if bool_decide (owner = Some t) then None else owner) (tasks w).
Proof.
  intros [_ [Ho Ht]]. split.
  - intros t' H. case_bool_decide; [discriminate|]. apply Ho, H.
  - intros t' task Hl Hs.
    assert (Hne : t' <> t) by congruence.
    specialize (Ht t' task Hl). 
    assert (He : bool_decide ((if bool_decide (owner = Some t) then None else owner) = Some t')
                 = bool_decide (owner = Some t')).
    { destruct (decide (owner = Some t)) as [Ho1|Ho1].
      - rewrite (bool_decide_eq_true_2 _ Ho1).
        rewrite bool_decide_eq_false_2 by discriminate.
        rewrite bool_decide_eq_false_2 by congruence. reflexivity.
      - rewrite (bool_decide_eq_false_2 _ Ho1). reflexivity. }
    rewrite He. apply Ht. discriminate.
Qed.

(** Task [t] runs [p] to its next suspension. *)
Lemma continue_lock_inv (t : nat) (p : method unit) (w : World) (mine : bool)
    (other : option nat) :
  (t < length (tasks w))%nat ->
  other <> Some t ->
  disciplined p mine (_connection_lock (coordinator w)) released ->
  (mine = true -> _connection_lock (coordinator w) = true /\ other = None) ->
  (mine = false -> _connection_lock (coordinator w) = bool_decide (is_Some other)) ->
  tasks_disciplined (Some t) other (tasks w) ->
  exists owner, lock_inv owner (continue t p w).
Proof.
  intros Hlen Hot Hp Hm Hn Ht.
  destruct (run_disciplined p w mine (Some t) other Hp Hm Hn Ht)
    as (mine' & H1 & H2 & H3 & [H4 H5]).
  pose proof (run_length p w) as Hl.
  unfold continue. destruct (run p w) as [p' w']. cbn in *.
  exists (if mine' then Some t else other).
  split; [|split].
  - cbn. rewrite H2. destruct mine'.
    + rewrite orb_true_r. rewrite bool_decide_eq_true_2 by eauto. reflexivity.
    + rewrite orb_false_r. reflexivity.
  - cbn. intros t' H. rewrite length_insert. destruct mine'.
    + injection H as <-. lia.
    + apply H4, H.
  - cbn. intros t' task Hlk _.
    destruct (decide (t' = t)) as [->|Hne].
    + rewrite list_lookup_insert_eq in Hlk by lia. injection Hlk as <-.
      destruct mine'.
      * rewrite bool_decide_eq_true_2 by reflexivity.
        split; [exact H1 | reflexivity].
      * rewrite bool_decide_eq_false_2 by exact Hot.
        split; [exact H1 | discriminate].
    + rewrite list_lookup_insert_ne in Hlk by congruence.
      assert (He : bool_decide ((if mine' then Some t else other) = Some t')
                   = bool_decide (other = Some t')).
      { destruct mine'; [|reflexivity]. rewrite (H3 eq_refl).
        rewrite bool_decide_eq_false_2 by congruence.
        rewrite bool_decide_eq_false_2 by discriminate. reflexivity. }
      rewrite He. apply H5; [exact Hlk | congruence].
Qed.

(** A callback that returns leaves the lock with its holder. *)
Lemma call_back_lock_inv (p : method unit) (w : World) (skip owner : option nat) :
  startable p -> finished (run p w).1 = true ->
  _connection_lock (coordinator w) = bool_decide (is_Some owner) ->
  tasks_disciplined skip owner (tasks w) ->
  _connection_lock (coordinator (call_back p w)) = _connection_lock (coordinator w)
  /\ tasks_disciplined skip owner (tasks (call_back p w)).
Proof.
  intros Hp Hf Hl Ht.
  destruct (run_disciplined p w false skip owner (Hp _)) as (mine' & H1 & H2 & H3 & H4).
  - discriminate.
  - intros _. exact Hl.
  - exact Ht.
  - unfold call_back. split; [|exact H4].
    specialize (H1 true). destruct (run p w).1; try discriminate.
    + cbn in H1. unfold released in H1. subst mine'. rewrite H2, Hl, orb_false_r. reflexivity.
    + cbn in H1. unfold released in H1. subst mine'. rewrite H2, Hl, orb_false_r. reflexivity.
Qed.

Lemma startable_disconnected_callback : startable _disconnected_callback.
Proof. unfold startable, _disconnected_callback, released. discipline. Qed.

Lemma startable_publish_and_reset : startable publish_and_reset.
Proof. unfold startable, publish_and_reset, _reset_disconnect_timer, released. discipline. Qed.

Lemma disconnected_callback_returns (w : World) :
  finished (run _disconnected_callback w).1 = true.
Proof. destruct w as [[a c l t [|] d] ts clk rng evs]; reflexivity. Qed.

Lemma handler_lock_inv (payload : list byte) (w : World) (owner : option nat) :
  lock_inv owner w -> lock_inv owner (call_back (_notification_handler payload) w).
Proof.
  intros [Hl Ht]. destruct (decode_returns payload) as [[r|] Hr].
  - rewrite (handler_reading payload r w Hr).
    destruct (call_back_lock_inv publish_and_reset
                (set_coordinator (apply r (coordinator w)) w) None owner) as [H1 H2].
    + apply startable_publish_and_reset.
    + rewrite publish_and_reset_returns. reflexivity.
    + exact Hl.
    + exact Ht.
    + split; [|exact H2]. unfold call_back in H1. rewrite H1. exact Hl.
  - rewrite (handler_no_reading payload w Hr). split; assumption.
Qed.

Lemma tasks_disciplined_holder (t : nat) (ts : list TaskState) :
  (t < length ts)%nat ->
  tasks_disciplined (Some t) None ts -> tasks_disciplined (Some t) (Some t) ts.
Proof.
  intros Hlen [_ Ht]. split.
  - intros t' H. injection H as <-. exact Hlen.
  - intros t' task Hl Hs. rewrite bool_decide_eq_false_2 by congruence.
    specialize (Ht t' task Hl Hs).
    rewrite bool_decide_eq_false_2 in Ht by discriminate. exact Ht.
Qed.

Lemma tasks_disciplined_not_holder (t : nat) (ts : list TaskState) :
  tasks_disciplined (Some t) (Some t) ts -> tasks_disciplined (Some t) None ts.
Proof.
  intros [_ Ht]. split.
  - discriminate.
  - intros t' task Hl Hs. rewrite bool_decide_eq_false_2 by discriminate.
    specialize (Ht t' task Hl Hs).
    rewrite bool_decide_eq_false_2 in Ht by congruence. exact Ht.
Qed.

(** The callback run while task [t] is suspended. *)
Lemma call_back_during (p : method unit) (w : World) (t : nat) (mine : bool)
    (other : option nat) :
  startable p -> finished (run p w).1 = true ->
  (t < length (tasks w))%nat ->
  (mine = true -> _connection_lock (coordinator w) = true /\ other = None) ->
  (mine = false -> _connection_lock (coordinator w) = bool_decide (is_Some other)) ->
  tasks_disciplined (Some t) other (tasks w) ->
  _connection_lock (coordinator (call_back p w)) = _connection_lock (coordinator w)
  /\ tasks_disciplined (Some t) other (tasks (call_back p w)).
Proof.
  intros Hp Hf Hlen Hm Hn Ht. destruct mine.
  - destruct (Hm eq_refl) as [Hl ->].
    destruct (call_back_lock_inv p w (Some t) (Some t) Hp Hf) as [H1 H2].
    + rewrite Hl. rewrite bool_decide_eq_true_2 by eauto. reflexivity.
    + apply tasks_disciplined_holder; assumption.
    + split; [exact H1 | apply tasks_disciplined_not_holder, H2].
  - apply call_back_lock_inv; auto.
Qed.

Lemma await_outcome_disciplined {R A} (a : awaitE R) (k : result R -> method A)
    (o : Outcome) (suspended : nat) (w w1 : World) (r : result R) (mine : bool)
    (other : option nat) (t : nat) :
  (forall cur, disciplined (Await a k) mine cur released) ->
  (t < length (tasks w))%nat ->
  (mine = true -> _connection_lock (coordinator w) = true /\ other = None) ->
  (mine = false -> _connection_lock (coordinator w) = bool_decide (is_Some other)) ->
  tasks_disciplined (Some t) other (tasks w) ->
  await_outcome a o suspended w = Some (r, w1) ->
  exists mine1,
    disciplined (k r) mine1 (_connection_lock (coordinator w1)) released
    /\ (mine1 = true -> _connection_lock (coordinator w1) = true /\ other = None)
    /\ (mine1 = false ->
        _connection_lock (coordinator w1) = bool_decide (is_Some other))
    /\ tasks_disciplined (Some t) other (tasks w1)
    /\ (t < length (tasks w1))%nat.
Proof.
  intros Hk Hlen Hm Hn Ht Ha. specialize (Hk true).
  assert (Hother : forall r,
            (if mine then disciplined (k r) true true released
             else forall cur', disciplined (k r) false cur' released) ->
            forall w1, _connection_lock (coordinator w1) = _connection_lock (coordinator w) ->
            tasks_disciplined (Some t) other (tasks w1) ->
            (t < length (tasks w1))%nat ->
            exists mine1,
              disciplined (k r) mine1 (_connection_lock (coordinator w1)) released
              /\ (mine1 = true -> _connection_lock (coordinator w1) = true /\ other = None)
              /\ (mine1 = false ->
                  _connection_lock (coordinator w1) = bool_decide (is_Some other))
              /\ tasks_disciplined (Some t) other (tasks w1)
              /\ (t < length (tasks w1))%nat).
  { intros r0 H w0 Hl0 Ht0 Hlen0. exists mine. rewrite Hl0.
    split; [|split; [exact Hm | split; [exact Hn | split; assumption]]].
    destruct mine; [|apply H]. destruct (Hm eq_refl) as [-> _]. exact H. }
  destruct a; cbn in Ha, Hk.
  - (* LockAcquire *)
    destruct o; [|discriminate].
    destruct (_connection_lock (coordinator w)) eqn:Hl; [discriminate|].
    injection Ha as <- <-. destruct Hk as [-> Hk]. specialize (Hk (Ok tt)). cbn in Hk.
    exists true. cbn. split; [exact Hk|].
    assert (Ho : other = None).
    { specialize (Hn eq_refl). destruct other; [|reflexivity].
      rewrite bool_decide_eq_true_2 in Hn by eauto. discriminate. }
    split; [intros _; split; [reflexivity | exact Ho]|].
    split; [discriminate|]. split; assumption.
  - (* EstablishConnection *)
    destruct Hk as [-> Hk].
    assert (Hw : w1 = w) by (destruct o; injection Ha as _ <-; reflexivity).
    subst w1. apply (Hother r (Hk r) w); auto.
  - (* StartNotify *)
    destruct Hk as [-> Hk].
    assert (Hw : _connection_lock (coordinator w1) = _connection_lock (coordinator w)
                 /\ tasks w1 = tasks w).
    { destruct o; [|injection Ha as _ <-; split; reflexivity].
      destruct (_client (coordinator w)) as [c|]; [|discriminate].
      destruct (is_connected c); [|discriminate].
      injection Ha as _ <-. split; reflexivity. }
    destruct Hw as [Hw1 Hw2]. apply (Hother r (Hk r) w1); rewrite ?Hw2; auto.
  - (* StopNotify *)
    assert (Hw : _connection_lock (coordinator w1) = _connection_lock (coordinator w)
                 /\ tasks w1 = tasks w).
    { destruct o; [|injection Ha as _ <-; split; reflexivity].
      destruct (_client (coordinator w)) as [c|]; [|discriminate].
      destruct (is_connected c); [|discriminate].
      injection Ha as _ <-. split; reflexivity. }
    destruct Hw as [Hw1 Hw2]. apply (Hother r (Hk r) w1); rewrite ?Hw2; auto.
  - (* ClientDisconnect *)
    destruct o; [|injection Ha as <- <-; apply (Hother _ (Hk _) w); auto].
    destruct (_client (coordinator w)) as [c|] eqn:Hc;
      [|injection Ha as <- <-; apply (Hother _ (Hk _) w); auto].
    destruct (is_connected c);
      [|injection Ha as <- <-; apply (Hother _ (Hk _) w); auto].
    injection Ha as <- <-.
    destruct (call_back_during _disconnected_callback
                (set_link (Some (mkClient false false)) w) t mine other) as [H1 H2];
      try assumption.
    + apply startable_disconnected_callback.
    + apply disconnected_callback_returns.
    + apply (Hother _ (Hk _)); [exact H1 | exact H2 |].
      pose proof (run_length _disconnected_callback
                    (set_link (Some (mkClient false false)) w)) as Hrl.
      unfold call_back. eapply Nat.lt_le_trans; [exact Hlen | exact Hrl].
  - (* Sleep *)
    destruct o; [|discriminate].
    destruct (suspended + seconds <=? clock w)%nat; [|discriminate].
    injection Ha as <- <-. apply (Hother _ (Hk _) w); auto.
  - discriminate.
  - discriminate.
Qed.

Lemma resume_lock_inv (t : nat) (o : Outcome) (w w' : World) (owner : option nat) :
  lock_inv owner w -> resume t o w = Some w' -> exists owner', lock_inv owner' w'.
Proof.
  intros Hinv H. unfold resume in H.
  destruct (tasks w !! t) as [task|] eqn:Hlk; [|discriminate]. cbn in H.
  pose proof (lookup_lt_Some _ _ _ Hlk) as Hlen.
  pose proof (lock_inv_others owner w t Hinv) as Hoth.
  destruct Hinv as [Hl [Ho Hts]].
  assert (Htask : task_disciplined (bool_decide (owner = Some t)) task)
    by (apply Hts; [exact Hlk | discriminate]).
  set (mine := bool_decide (owner = Some t)) in *.
  set (other := if mine then None else owner) in *.
  assert (Hot : other <> Some t).
  { unfold other, mine. destruct (bool_decide (owner = Some t)) eqn:E; [discriminate|].
    apply bool_decide_eq_false_1 in E. exact E. }
  assert (Hm : mine = true -> _connection_lock (coordinator w) = true /\ other = None).
  { intros Hmine. unfold other. rewrite Hmine. split; [|reflexivity].
    unfold mine in Hmine. apply bool_decide_eq_true_1 in Hmine.
    rewrite Hl, Hmine. apply bool_decide_eq_true_2. eauto. }
  assert (Hn : mine = false ->
               _connection_lock (coordinator w) = bool_decide (is_Some other)).
  { intros Hmine. unfold other. rewrite Hmine. exact Hl. }
  destruct Htask as [Hd Hst].
  destruct (started task) eqn:Hstarted; cbn in H.
  - destruct (prog task) as [| | | | |R a k] eqn:Hprog; try discriminate.
    destruct (cancel_requested task).
    + injection H as <-.
      apply (continue_lock_inv t _ w mine other); try assumption.
      specialize (Hd true). cbn in Hd. destruct (await_kind a).
      * destruct Hd as [Hmine Hd]. rewrite Hmine. apply (Hd (Err CancelledError)).
      * destruct Hd as [Hmine Hd]. rewrite Hmine.
        destruct (Hm Hmine) as [-> _]. apply Hd.
      * specialize (Hd (Err CancelledError)). destruct mine; [|apply Hd].
        destruct (Hm eq_refl) as [-> _]. exact Hd.
    + destruct (await_outcome a o (since task) w) as [[r w1]|] eqn:Ha; [|discriminate].
      cbn in H. injection H as <-.
      destruct (await_outcome_disciplined a k o _ w w1 r mine other t Hd Hlen Hm Hn Hoth Ha)
        as (mine1 & H1 & H2 & H3 & H4 & H5).
      apply (continue_lock_inv t _ w1 mine1 other); assumption.
  - assert (Hmine : mine = false).
    { destruct mine; [|reflexivity]. specialize (Hst eq_refl). discriminate. }
    destruct (cancel_requested task); injection H as <-.
    + change (store_task t (Raise CancelledError) w)
        with (continue t (Raise CancelledError) w).
      apply (continue_lock_inv t _ w false other); try assumption.
      all: try reflexivity; try discriminate.
      intros _. apply Hn, Hmine.
    + apply (continue_lock_inv t _ w mine other); try assumption. apply Hd.
Qed.

Lemma step_lock_inv (l : Label) (w w' : World) (owner : option nat) :
  lock_inv owner w -> step l w = Some w' -> exists owner', lock_inv owner' w'.
Proof.
  intros Hinv H. destruct l; cbn in H.
  - apply (resume_lock_inv t o w w' owner Hinv H).
  - destruct (_client (coordinator w)) as [c|]; [|discriminate].
    destruct (is_connected c && notifying c); [|discriminate].
    injection H as <-. exists owner. apply handler_lock_inv, Hinv.
  - destruct (client_connected (coordinator w)); [|discriminate].
    injection H as <-. exists owner. destruct Hinv as [Hl Ht].
    destruct (call_back_lock_inv _disconnected_callback
                (set_link (Some (mkClient false false)) w) None owner) as [H1 H2].
    + apply startable_disconnected_callback.
    + apply disconnected_callback_returns.
    + exact Hl.
    + exact Ht.
    + split; [etransitivity; [exact H1 | exact Hl] | exact H2].
  - injection H as <-. exists owner. exact Hinv.
  - injection H as <-. exists owner. destruct Hinv as [Hl Ht].
    split; [exact Hl|]. apply (host_call_disciplined (AsyncCreateTask c) w), Ht.
  - injection H as <-. exists owner. exact Hinv.
Qed.

Lemma exec_lock_inv (ls : list Label) (w w' : World) (owner : option nat) :
  lock_inv owner w -> exec ls w = Some w' -> exists owner', lock_inv owner' w'.
Proof.
  revert w owner. induction ls as [|l ls IH]; intros w owner Hinv H.
  - injection H as <-. exists owner. exact Hinv.
  - cbn in H. destruct (step l w) as [w1|] eqn:Hs; [|discriminate]. cbn in H.
    destruct (step_lock_inv l w w1 owner Hinv Hs) as [owner1 Hinv1].
    apply (IH w1 owner1 Hinv1 H).
Qed.

Lemma boot_lock_inv (address : string) : lock_inv None (boot address).
Proof.
  split; [reflexivity|]. split; [discriminate|].
  intros t task H. cbn in H. rewrite lookup_nil in H. discriminate.
Qed.

Lemma connecting_holds_lock (owner : option nat) (w : World) (t : nat)
    (task : TaskState) :
  lock_inv owner w -> tasks w !! t = Some task -> connecting task = true ->
  owner = Some t.
Proof.
  intros [_ [_ Ht]] Hl Hc.
  destruct (Ht t task Hl) as [Hd _]; [discriminate|].
  specialize (Hd true). unfold connecting in Hc.
  destruct (prog task) as [| | | | |R a k]; try discriminate.
  destruct a; try discriminate; cbn in Hd; destruct Hd as [Hm _];
    apply bool_decide_eq_true_1 in Hm; exact Hm.
Qed.

Lemma filter_none {X} (P : X -> bool) (l : list X) :
  (forall i x, l !! i = Some x -> P x = true -> False) ->
  filter (fun x => P x = true) l = [].
Proof.
  induction l as [|x l IH]; intros H; [reflexivity|].
  rewrite filter_cons. destruct (decide (P x = true)) as [Hx|Hx].
  - exfalso. exact (H 0%nat x eq_refl Hx).
  - apply IH. intros i y Hl Hy. exact (H (S i) y Hl Hy).
Qed.

Lemma at_most_one {X} (P : X -> bool) (l : list X) (t : nat) :
  (forall i x, l !! i = Some x -> P x = true -> i = t) ->
  (length (filter (fun x => P x = true) l) <= 1)%nat.
Proof.
  revert t. induction l as [|x l IH]; intros t H; [cbn; lia|].
  rewrite filter_cons. destruct (decide (P x = true)) as [Hx|Hx].
  - rewrite (filter_none P l); [cbn; lia|].
    intros i y Hl Hy. pose proof (H 0%nat x eq_refl Hx) as H0.
    pose proof (H (S i) y Hl Hy) as H1. lia.
  - apply (IH (pred t)). intros i y Hl Hy.
    pose proof (H (S i) y Hl Hy) as H1. lia.
Qed.

(** X16.  In every world the event loop can reach from a fresh coordinator,
    whatever is scheduled, fails or is cancelled, at most one task is inside
    the connect sequence, and that task holds the lock. *)
Theorem connects_are_serialized (address : string) (ls : list Label) (w : World) :
  exec ls (boot address) = Some w ->
  (in_connect_sequence w <= 1)%nat
  /\ (in_connect_sequence w = 1%nat -> _connection_lock (coordinator w) = true).
Proof.
  intros H.
  destruct (exec_lock_inv ls _ w None (boot_lock_inv address) H) as [owner Hinv].
  split.
  - unfold in_connect_sequence. destruct owner as [t|].
    + apply (at_most_one connecting (tasks w) t). intros i x Hl Hc.
      pose proof (connecting_holds_lock _ w i x Hinv Hl Hc) as Ho. congruence.
    + rewrite (filter_none connecting (tasks w)); [cbn; lia|].
      intros i x Hl Hc.
      pose proof (connecting_holds_lock _ w i x Hinv Hl Hc) as Ho. discriminate.
  - intros H1. destruct owner as [t|].
    + destruct Hinv as [Hl _]. rewrite Hl. apply bool_decide_eq_true_2. eauto.
    + unfold in_connect_sequence in H1.
      rewrite (filter_none connecting (tasks w)) in H1; [discriminate|].
      intros i x Hl Hc.
      pose proof (connecting_holds_lock _ w i x Hinv Hl Hc) as Ho. discriminate.
Qed.

(** X17.  The lock is never left behind: whenever it is held, a task that has
    started and not ended holds it; so once every task has ended, by
    return, by exception or by cancellation, the lock is free. *)
Theorem lock_is_never_leaked (address : string) (ls : list Label) (w : World) :
  exec ls (boot address) = Some w ->
  _connection_lock (coordinator w) = true ->
  exists t task,
    tasks w !! t = Some task
    /\ started task = true
    /\ finished (prog task) = false.
Proof.
  intros H Hl.
  destruct (exec_lock_inv ls _ w None (boot_lock_inv address) H) as [owner Hinv].
  destruct Hinv as [Hlock [Ho Ht]]. rewrite Hl in Hlock.
  destruct owner as [t|]; [|discriminate].
  pose proof (Ho t eq_refl) as Hlen.
  destruct (lookup_lt_is_Some_2 _ _ Hlen) as [task Htask].
  exists t, task. split; [exact Htask|].
  destruct (Ht t task Htask) as [Hd Hs]; [discriminate|].
  rewrite bool_decide_eq_true_2 in Hd, Hs by reflexivity.
  split; [apply Hs; reflexivity|].
  specialize (Hd true). destruct (prog task); cbn in Hd |- *;
    first [reflexivity | discriminate Hd].
Qed.

Lemma connects_are_serialized_witness :
  exists w,
    exec [Spawn EnsureConnection; Spawn AsyncUpdateData; Resume 0 Succeeds;
          Resume 1 Succeeds] (boot address_of_bike) = Some w
    /\ (in_connect_sequence w <= 1)%nat.
Proof.
  destruct (exec [Spawn EnsureConnection; Spawn AsyncUpdateData; Resume 0 Succeeds;
                  Resume 1 Succeeds] (boot address_of_bike)) as [w|] eqn:Hx;
    [|vm_compute in Hx; discriminate].
  exists w. split; [reflexivity|].
  apply (connects_are_serialized address_of_bike _ w Hx).
Defined.

Lemma lock_is_never_leaked_witness :
  exists w t task,
    exec [Spawn EnsureConnection; Resume 0 Succeeds] (boot address_of_bike) = Some w
    /\ tasks w !! t = Some task
    /\ started task = true
    /\ finished (prog task) = false.
Proof.
  destruct (exec [Spawn EnsureConnection; Resume 0 Succeeds] (boot address_of_bike))
    as [w|] eqn:Hx; [|vm_compute in Hx; discriminate].
  assert (Hl : _connection_lock (coordinator w) = true).
  { assert (H : ((fun w => _connection_lock (coordinator w))
                   <$> exec [Spawn EnsureConnection; Resume 0 Succeeds]
                         (boot address_of_bike)) = Some true)
      by (vm_compute; reflexivity).
    rewrite Hx in H. cbn in H. congruence. }
  destruct (lock_is_never_leaked address_of_bike _ w Hx Hl) as (t & task & H).
  exists w, t, task. split; [reflexivity | exact H].
Defined.

(** ** What the sensors show in a reachable world *)

Lemma notifications_app (ls ls' : list Label) :
  notifications (ls ++ ls') = notifications ls ++ notifications ls'.
Proof.
  induction ls as [|l ls IH]; [reflexivity|].
  rewrite <- app_comm_cons, notifications_cons, (notifications_cons l ls), IH.
  apply app_assoc.
Qed.

Lemma stored_reading (d : gmap string pyval) (payload : list byte)
    (r : DecodedReading) :
  decode payload = Ok (Some r) ->
  stored d payload = <[metric_key r := metric_value r]> d.
Proof. intros H. unfold stored. rewrite H. reflexivity. Qed.

Lemma metric_value_not_None (r : DecodedReading) : metric_value r <> PyNone.
Proof. destruct r; discriminate. Qed.

Lemma stored_keeps_value (d : gmap string pyval) (payload : list byte) (key : string) :
  dict_get d key <> PyNone -> dict_get (stored d payload) key <> PyNone.
Proof.
  intros H. unfold stored. destruct (decode payload) as [[r|]|e]; try exact H.
  unfold dict_get. destruct (decide (metric_key r = key)) as [<-|Hne].
  - rewrite lookup_insert_eq. apply metric_value_not_None.
  - rewrite lookup_insert_ne by exact Hne. exact H.
Qed.

Lemma fold_stored_keeps_value (payloads : list (list byte)) (d : gmap string pyval)
    (key : string) :
  dict_get d key <> PyNone ->
  dict_get (fold_left stored payloads d) key <> PyNone.
Proof.
  revert d. induction payloads as [|p ps IH]; intros d H; [exact H|].
  cbn. apply IH, stored_keeps_value, H.
Qed.

(** X18.  A sensor that has a value keeps having one: in a world reached from a
    fresh coordinator, whatever happens next (link losses, reconnections,
    idle disconnects, a shutdown, further frames), a battery or temperature
    value that is present stays present, so the sensor stays available as
    long as the coordinator's last update succeeded. *)
Theorem reading_is_never_lost (address : string) (ls1 ls2 : list Label)
    (w1 w2 : World) (last_update_success : bool) :
  exec ls1 (boot address) = Some w1 ->
  exec ls2 w1 = Some w2 ->
  (available last_update_success (battery_native_value (coordinator w1)) = true ->
   available last_update_success (battery_native_value (coordinator w2)) = true)
  /\ (available last_update_success (temperature_native_value (coordinator w1)) = true ->
      available last_update_success (temperature_native_value (coordinator w2)) = true).
Proof.
  intros H1 H2.
  destruct (exec_keeps ls1 (boot address) w1) as [Hk _]; [constructor | exact H1 |].
  destruct (exec_keeps ls2 w1 w2 Hk H2) as [_ Hd].
  assert (Hkeep : forall key,
            available last_update_success (dict_get (data (coordinator w1)) key) = true ->
            available last_update_success (dict_get (data (coordinator w2)) key) = true).
  { intros key Ha. unfold available in *. apply andb_true_iff in Ha as [-> Hv].
    cbn. rewrite Hd.
    pose proof (fold_stored_keeps_value (notifications ls2) (data (coordinator w1)) key)
      as Hf.
    destruct (dict_get (data (coordinator w1)) key) eqn:E1; try discriminate;
      (destruct (dict_get (fold_left stored (notifications ls2)
                             (data (coordinator w1))) key) eqn:E2;
       [exfalso; apply Hf; [discriminate | reflexivity] | reflexivity..]). }
  split; apply Hkeep.
Qed.

Lemma reading_is_never_lost_witness :
  exists w1 w2,
    exec (connect_schedule ++ [Notification [x0a; x50]]) (boot address_of_bike)
    = Some w1
    /\ exec [LinkLost; Spawn AsyncShutdown; Resume 3 Succeeds] w1 = Some w2
    /\ (available true (battery_native_value (coordinator w1)) = true ->
        available true (battery_native_value (coordinator w2)) = true).
Proof.
  destruct (exec (connect_schedule ++ [Notification [x0a; x50]]) (boot address_of_bike))
    as [w1|] eqn:H1; [|vm_compute in H1; discriminate].
  destruct (exec [LinkLost; Spawn AsyncShutdown; Resume 3 Succeeds] w1)
    as [w2|] eqn:H2.
  - exists w1, w2. split; [reflexivity|]. split; [exact H2|].
    apply (reading_is_never_lost address_of_bike _ _ w1 w2 true H1 H2).
  - exfalso.
    assert (H : (exec (connect_schedule ++ [Notification [x0a; x50]])
                   (boot address_of_bike)
                 ≫= exec [LinkLost; Spawn AsyncShutdown; Resume 3 Succeeds]) <> None)
      by (vm_compute; discriminate).
    apply H. rewrite H1. cbn. exact H2.
Defined.

Lemma fold_stored_other_metric (payloads : list (list byte)) (d : gmap string pyval)
    (key : string) :
  Forall (fun payload => forall r, decode payload = Ok (Some r) -> metric_key r <> key)
    payloads ->
  dict_get (fold_left stored payloads d) key = dict_get d key.
Proof.
  revert d. induction payloads as [|p ps IH]; intros d H; [reflexivity|].
  inversion H as [|? ? Hp Hps]; subst. cbn. rewrite (IH _ Hps).
  unfold stored. destruct (decode p) as [[r|]|e] eqn:Hd; try reflexivity.
  unfold dict_get. rewrite lookup_insert_ne by (apply Hp; reflexivity). reflexivity.
Qed.

(** X19.  A sensor shows the latest reading of its metric: in a world reached
    from a fresh coordinator by a schedule in which a frame with the reading
    [r] was delivered and no later frame carried a reading of the same
    metric, the store holds the value of [r] under the metric's key,
    whatever else happened before or since. *)
Theorem sensor_shows_latest_reading (address : string) (ls ls' : list Label)
    (payload : list byte) (r : DecodedReading) (w : World) :
  exec (ls ++ Notification payload :: ls') (boot address) = Some w ->
  decode payload = Ok (Some r) ->
  Forall (fun later => forall r', decode later = Ok (Some r') ->
                       metric_key r' <> metric_key r) (notifications ls') ->
  dict_get (data (coordinator w)) (metric_key r) = metric_value r.
Proof.
  intros H Hr Hl.
  destruct (exec_keeps (ls ++ Notification payload :: ls') (boot address) w)
    as [_ Hd]; [constructor | exact H |].
  rewrite Hd, notifications_app. cbn [notifications].
  rewrite fold_left_app. cbn [fold_left].
  rewrite (fold_stored_other_metric _ _ _ Hl), (stored_reading _ _ r Hr).
  unfold dict_get. rewrite lookup_insert_eq. reflexivity.
Qed.

Lemma sensor_shows_latest_reading_witness :
  exists w,
    exec (connect_schedule
          ++ Notification [x0a; x50] :: [Notification [x07; x01; x02]; LinkLost])
      (boot address_of_bike) = Some w
    /\ battery_native_value (coordinator w) = PyInt 80.
Proof.
  destruct (exec (connect_schedule
                  ++ Notification [x0a; x50] :: [Notification [x07; x01; x02]; LinkLost])
              (boot address_of_bike)) as [w|] eqn:Hx;
    [|vm_compute in Hx; discriminate].
  exists w. split; [reflexivity|].
  apply (sensor_shows_latest_reading address_of_bike connect_schedule
           [Notification [x07; x01; x02]; LinkLost] [x0a; x50] (BatterySoc 80) w Hx).
  - reflexivity.
  - repeat constructor. intros r' Hr'. rewrite decode_temperature in Hr'.
    injection Hr' as <-. discriminate.
Defined.

(** X20.  In every world reached from a fresh coordinator the battery sensor has
    no value or an integer from 0 to 255 and its icon is computed without
    an exception (the unknown icon exactly when there is no value); the
    temperature sensor has no value or the quotient by 10.0 of a 16-bit
    raw value. *)
Theorem sensors_are_well_typed (address : string) (ls : list Label) (w : World) :
  exec ls (boot address) = Some w ->
  byte_ranged (battery_native_value (coordinator w))
  /\ (exists icon,
        battery_icon (coordinator w) = Ok icon
        /\ (icon = "mdi:battery-unknown"
            <-> battery_native_value (coordinator w) = PyNone))
  /\ (temperature_native_value (coordinator w) = PyNone
      \/ exists hi lo,
           temperature_native_value (coordinator w)
           = PyFloat (tenths (byte_val hi * 256 + byte_val lo))).
Proof.
  intros H.
  destruct (exec_keeps ls (boot address) w) as [_ Hd]; [constructor | exact H |].
  assert (Hb : byte_ranged (battery_native_value (coordinator w))).
  { unfold battery_native_value. rewrite Hd, <- deliver_stored.
    apply (deliver_byte_ranged (notifications ls) (boot address)).
    split; [left; reflexivity | constructor]. }
  split; [exact Hb|]. split.
  - destruct Hb as [Hn|(z & Hz & _)].
    + exists "mdi:battery-unknown". unfold battery_icon. rewrite Hn.
      split; [reflexivity|]. split; reflexivity.
    + exists (icon_of_band (icon_band z)). split; [apply battery_icon_level, Hz|].
      rewrite Hz. split; [|discriminate].
      intros Hi. exfalso. exact (icon_of_band_known _ Hi).
  - unfold temperature_native_value. rewrite Hd.
    generalize (notifications ls). intros payloads.
    assert (Hgen : forall d,
              (dict_get d SENSOR_TEMPERATURE = PyNone
               \/ exists hi lo, dict_get d SENSOR_TEMPERATURE
                                = PyFloat (tenths (byte_val hi * 256 + byte_val lo))) ->
              dict_get (fold_left stored payloads d) SENSOR_TEMPERATURE = PyNone
              \/ exists hi lo, dict_get (fold_left stored payloads d) SENSOR_TEMPERATURE
                               = PyFloat (tenths (byte_val hi * 256 + byte_val lo))).
    { induction payloads as [|p ps IH]; intros d Hd0; [exact Hd0|].
      cbn. apply IH. unfold stored.
      destruct (frame_shape_total p)
        as [Hs|q rest ->|hi lo rest ->|b ->|tag q rest -> Ha Ht].
      - rewrite decode_none by (apply parse_packet_short, Hs). exact Hd0.
      - rewrite decode_battery. unfold dict_get in *. cbn [metric_key metric_value].
        rewrite lookup_insert_ne by discriminate. exact Hd0.
      - rewrite decode_temperature. unfold dict_get. cbn [metric_key metric_value].
        rewrite lookup_insert_eq. right. exists hi, lo. reflexivity.
      - rewrite decode_none by apply parse_packet_temperature_short. exact Hd0.
      - rewrite decode_none by (apply parse_packet_other; assumption). exact Hd0. }
    apply Hgen. left. reflexivity.
Qed.

Lemma sensors_are_well_typed_witness :
  exists w,
    exec (connect_schedule ++ [Notification [x0a; xff]]) (boot address_of_bike)
    = Some w
    /\ byte_ranged (battery_native_value (coordinator w))
    /\ exists icon, battery_icon (coordinator w) = Ok icon.
Proof.
  destruct (exec (connect_schedule ++ [Notification [x0a; xff]]) (boot address_of_bike))
    as [w|] eqn:Hx; [|vm_compute in Hx; discriminate].
  exists w. split; [reflexivity|].
  destruct (sensors_are_well_typed address_of_bike _ w Hx) as (Hb & (icon & Hi & _) & _).
  split; [exact Hb | exists icon; exact Hi].
Defined.

(** ** The idle timer *)

Lemma lookup_snoc {X} (l : list X) (x : X) (n : nat) :
  n = length l -> (l ++ [x]) !! n = Some x.
Proof. intros ->. rewrite lookup_app_r by lia. rewrite Nat.sub_diag. reflexivity. Qed.

Lemma insert_snoc {X} (l : list X) (x y : X) (n : nat) :
  n = length l -> <[n := y]> (l ++ [x]) = l ++ [y].
Proof.
  intros ->. rewrite insert_app_r_alt by lia. rewrite Nat.sub_diag. reflexivity.
Qed.

(** The world a reading leaves. *)
Lemma publish_and_reset_world (w : World) :
  (run publish_and_reset w).2
  = mkWorld (set_disconnect_task (Some (length (tasks w))) (coordinator w))
      (timer_cancelled w ++ [mkTask _disconnect_after_delay false (clock w) false])
      (clock w) (in_range w)
      (events w ++ EvPublished (data (coordinator w)) :: restart_events w).
Proof.
  destruct w as [[a c l [t|] x d] ts clk rng evs];
    unfold restart_events, timer_cancelled; cbn;
    unfold set_coordinator, emit, set_tasks, set_disconnect_task; cbn;
    rewrite ?length_alter, <- ?app_assoc; reflexivity.
Qed.

Lemma timer_cancelled_length (w : World) :
  length (timer_cancelled w) = length (tasks w).
Proof.
  unfold timer_cancelled. destruct (_disconnect_task (coordinator w)); [apply length_alter | reflexivity].
Qed.


Lemma timer_starts (c : Coordinator) (ts : list TaskState) (clk0 clk : nat)
    (rng : bool) (evs : list Event) (o : Outcome) :
  resume (length ts) o
    (mkWorld c (ts ++ [mkTask _disconnect_after_delay false clk0 false]) clk rng evs)
  = Some (mkWorld c (ts ++ [mkTask sleeping_timer true clk false]) clk rng evs).
Proof.
  unfold resume. cbn [tasks]. rewrite (lookup_snoc ts _ _ eq_refl). cbn.
  unfold store_task. cbn. rewrite (insert_snoc ts _ _ _ eq_refl). reflexivity.
Qed.

Lemma timer_sleeps (c : Coordinator) (ts : list TaskState) (since clk : nat)
    (rng : bool) (evs : list Event) :
  (clk < since + DISCONNECT_DELAY)%nat ->
  resume (length ts) Succeeds
    (mkWorld c (ts ++ [mkTask sleeping_timer true since false]) clk rng evs)
  = None.
Proof.
  intros H. unfold resume. cbn [tasks]. rewrite (lookup_snoc ts _ _ eq_refl). cbn.
  rewrite (proj2 (Nat.leb_gt _ _)) by exact H. reflexivity.
Qed.

Lemma timer_fires (a : string) (sub : bool) (x : bool) (dt : option nat)
    (d : gmap string pyval) (ts : list TaskState) (since clk : nat)
    (rng : bool) (evs : list Event) :
  (since + DISCONNECT_DELAY <= clk)%nat ->
  exec [Resume (length ts) Succeeds; Resume (length ts) Succeeds;
        Resume (length ts) Succeeds]
    (mkWorld (mkCoordinator a (Some (mkClient true sub)) false dt x d)
       (ts ++ [mkTask sleeping_timer true since false]) clk rng evs)
  = Some (mkWorld (mkCoordinator a None false dt false d)
            (ts ++ [mkTask (Ret tt) true clk false]) clk rng
            ((evs ++ [EvStopNotify]) ++ [EvClientDisconnect])).
Proof.
  intros H. cbn [exec step]. unfold resume. cbn [tasks].
  rewrite (lookup_snoc ts _ _ eq_refl). cbn.
  rewrite (proj2 (Nat.leb_le _ _)) by exact H. cbn.
  unfold store_task. cbn. rewrite (insert_snoc ts _ _ _ eq_refl).
  rewrite (lookup_snoc ts _ _ eq_refl). cbn.
  unfold store_task. cbn. rewrite (insert_snoc ts _ _ _ eq_refl).
  rewrite (lookup_snoc ts _ _ eq_refl). cbn.
  unfold store_task. cbn. rewrite (insert_snoc ts _ _ _ eq_refl).
  reflexivity.
Qed.

Lemma reading_world (payload : list byte) (r : DecodedReading) (w : World) :
  decode payload = Ok (Some r) ->
  exists ts',
    length ts' = length (tasks w)
    /\ call_back (_notification_handler payload) w
       = mkWorld (set_disconnect_task (Some (length ts')) (apply r (coordinator w)))
           (ts' ++ [mkTask _disconnect_after_delay false (clock w) false])
           (clock w) (in_range w)
           (events w ++ EvPublished (data (apply r (coordinator w)))
                                    :: restart_events w).
Proof.
  intros Hr. rewrite (handler_reading payload r w Hr), publish_and_reset_world.
  exists (timer_cancelled (set_coordinator (apply r (coordinator w)) w)).
  rewrite timer_cancelled_length. split; [reflexivity|].
  destruct w as [c ts clk rng evs]. reflexivity.
Qed.

(** X21.  After a reading on a connected, subscribed coordinator whose lock is
    free, the timer the reading creates is the current one; started at once
    it cannot fire before [DISCONNECT_DELAY] seconds have passed, and once
    they have passed it stops the notifications and disconnects: the client
    is cleared, the lock released, the store untouched. *)
Theorem idle_disconnect_after_delay (payload : list byte) (r : DecodedReading)
    (w : World) :
  _client (coordinator w) = Some (mkClient true true) ->
  _connection_lock (coordinator w) = false ->
  decode payload = Ok (Some r) ->
  exists w1,
    step (Notification payload) w = Some w1
    /\ _disconnect_task (coordinator w1) = Some (length (tasks w))
    /\ (forall n, (n < DISCONNECT_DELAY)%nat ->
          exec [Resume (length (tasks w)) Succeeds; Elapse n;
                Resume (length (tasks w)) Succeeds] w1 = None)
    /\ (forall n, (DISCONNECT_DELAY <= n)%nat ->
          exists w2,
            exec [Resume (length (tasks w)) Succeeds; Elapse n;
                  Resume (length (tasks w)) Succeeds;
                  Resume (length (tasks w)) Succeeds;
                  Resume (length (tasks w)) Succeeds] w1 = Some w2
            /\ _client (coordinator w2) = None
            /\ _connection_lock (coordinator w2) = false
            /\ data (coordinator w2) = data (coordinator w1)
            /\ events w2 = events w1 ++ [EvStopNotify; EvClientDisconnect]).
Proof.
  intros Hc Hl Hr.
  destruct (reading_world payload r w Hr) as (ts' & Hlen & Hw1).
  exists (call_back (_notification_handler payload) w).
  split; [cbn; rewrite Hc; reflexivity|].
  rewrite Hw1, <- Hlen. clear Hw1 Hlen.
  destruct w as [[a c l dt x d] ts clk rng evs]. cbn in Hc, Hl. subst c l.
  cbn [coordinator clock in_range events tasks apply set_disconnect_task set_data
       _disconnect_task device_address _client _connection_lock
       _expected_disconnect data].
  split; [reflexivity|]. split.
  - intros n Hn. cbn [exec step]. rewrite timer_starts.
    cbn [mbind option_bind coordinator clock in_range events tasks].
    rewrite timer_sleeps by lia. reflexivity.
  - intros n Hn. eexists. split.
    + cbn [exec step]. rewrite timer_starts. cbn [mbind option_bind].
      refine (timer_fires a true x (Some (length ts'))
                (<[metric_key r := metric_value r]> d) ts' clk (clk + n) rng _ _).
      lia.
    + cbn [coordinator events _client _connection_lock data].
      rewrite <- (app_assoc _ [EvStopNotify] [EvClientDisconnect]).
      repeat split; reflexivity.
Qed.

Lemma idle_disconnect_after_delay_witness :
  exists w1,
    step (Notification [x0a; x50])
      (set_link (Some (mkClient true true)) (boot address_of_bike)) = Some w1
    /\ _disconnect_task (coordinator w1) = Some 0%nat
    /\ exec [Resume 0 Succeeds; Elapse 119; Resume 0 Succeeds] w1 = None.
Proof.
  destruct (idle_disconnect_after_delay [x0a; x50] (BatterySoc 80)
              (set_link (Some (mkClient true true)) (boot address_of_bike))
              eq_refl eq_refl eq_refl) as (w1 & H1 & H2 & H3 & _).
  exists w1. split; [exact H1|]. split; [exact H2|].
  apply (H3 119%nat). unfold DISCONNECT_DELAY. lia.
Defined.

Lemma lookup_mid {X} (l l2 : list X) (x : X) (n : nat) :
  n = length l -> (l ++ x :: l2) !! n = Some x.
Proof. intros ->. rewrite lookup_app_r by lia. rewrite Nat.sub_diag. reflexivity. Qed.

Lemma insert_mid {X} (l l2 : list X) (x y : X) (n : nat) :
  n = length l -> <[n := y]> (l ++ x :: l2) = l ++ y :: l2.
Proof.
  intros ->. rewrite insert_app_r_alt by lia. rewrite Nat.sub_diag. reflexivity.
Qed.

Lemma alter_snoc {X} (f : X -> X) (l : list X) (x : X) (n : nat) :
  n = length l -> alter f n (l ++ [x]) = l ++ [f x].
Proof.
  intros ->. rewrite alter_app_r_alt by lia. rewrite Nat.sub_diag. reflexivity.
Qed.

(** A timer that was asked to stop while it slept ends when it is resumed,
    whatever the outcome and the clock, and touches nothing. *)
Lemma cancelled_timer_ends (c : Coordinator) (ts ts2 : list TaskState)
    (since clk : nat) (rng : bool) (evs : list Event) (o : Outcome) :
  resume (length ts) o
    (mkWorld c (ts ++ mkTask sleeping_timer true since true :: ts2) clk rng evs)
  = Some (mkWorld c (ts ++ mkTask (Ret tt) true clk false :: ts2) clk rng evs).
Proof.
  unfold resume. cbn [tasks]. rewrite (lookup_mid ts _ _ _ eq_refl). cbn.
  unfold store_task. cbn. rewrite (insert_mid ts _ _ _ _ eq_refl). reflexivity.
Qed.

(** A timer that was asked to stop before it started never runs. *)
Lemma cancelled_timer_never_starts (c : Coordinator) (ts ts2 : list TaskState)
    (since clk : nat) (rng : bool) (evs : list Event) (o : Outcome) :
  resume (length ts) o
    (mkWorld c (ts ++ mkTask _disconnect_after_delay false since true :: ts2)
       clk rng evs)
  = Some (mkWorld c (ts ++ mkTask (Raise CancelledError) true clk false :: ts2)
            clk rng evs).
Proof.
  unfold resume. cbn [tasks]. rewrite (lookup_mid ts _ _ _ eq_refl). cbn.
  unfold store_task. cbn. rewrite (insert_mid ts _ _ _ _ eq_refl). reflexivity.
Qed.

Lemma reading_tasks (payload : list byte) (r : DecodedReading) (w : World) :
  decode payload = Ok (Some r) ->
  tasks (call_back (_notification_handler payload) w)
  = timer_cancelled w ++ [mkTask _disconnect_after_delay false (clock w) false]
  /\ _disconnect_task (coordinator (call_back (_notification_handler payload) w))
     = Some (length (tasks w))
  /\ _client (coordinator (call_back (_notification_handler payload) w))
     = _client (coordinator w)
  /\ clock (call_back (_notification_handler payload) w) = clock w.
Proof.
  intros Hr. rewrite (handler_reading payload r w Hr), publish_and_reset_world.
  destruct w as [c ts clk rng evs]. repeat split; reflexivity.
Qed.

Lemma reading_world_eq (payload : list byte) (r : DecodedReading) (w : World) :
  decode payload = Ok (Some r) ->
  call_back (_notification_handler payload) w
  = mkWorld (set_disconnect_task (Some (length (tasks w))) (apply r (coordinator w)))
      (timer_cancelled w ++ [mkTask _disconnect_after_delay false (clock w) false])
      (clock w) (in_range w)
      (events w ++ EvPublished (data (apply r (coordinator w))) :: restart_events w).
Proof.
  intros Hr. rewrite (handler_reading payload r w Hr), publish_and_reset_world.
  destruct w as [c ts clk rng evs]. reflexivity.
Qed.

Lemma request_cancel_sleeping (s : nat) :
  request_cancel (mkTask sleeping_timer true s false) = mkTask sleeping_timer true s true.
Proof. reflexivity. Qed.

Lemma request_cancel_unstarted (s : nat) :
  request_cancel (mkTask _disconnect_after_delay false s false)
  = mkTask _disconnect_after_delay false s true.
Proof. reflexivity. Qed.

Lemma exec_app (ls1 ls2 : list Label) (w : World) :
  exec (ls1 ++ ls2) w = exec ls1 w ≫= exec ls2.
Proof.
  revert w. induction ls1 as [|l ls1 IH]; intros w; [reflexivity|].
  cbn. destruct (step l w) as [w1|]; [apply IH | reflexivity].
Qed.

(** X22.  A second reading supersedes the timer of the first: the sleeping timer
    is asked to stop and a new one becomes current; resumed after any time
    and with any outcome, the superseded timer ends at once and touches
    neither the coordinator nor the record of events. *)
Theorem superseded_timer_is_harmless (p1 p2 : list byte) (r1 r2 : DecodedReading)
    (w : World) (n : nat) (o : Outcome) :
  _client (coordinator w) = Some (mkClient true true) ->
  decode p1 = Ok (Some r1) -> decode p2 = Ok (Some r2) ->
  exists w2 w3,
    exec [Notification p1; Resume (length (tasks w)) Succeeds; Notification p2] w
    = Some w2
    /\ _disconnect_task (coordinator w2) = Some (S (length (tasks w)))
    /\ exec [Elapse n; Resume (length (tasks w)) o] w2 = Some w3
    /\ coordinator w3 = coordinator w2
    /\ events w3 = events w2
    /\ tasks w3 !! length (tasks w) = Some (mkTask (Ret tt) true (clock w + n) false).
Proof.
  intros Hc H1 H2.
  pose proof (timer_cancelled_length w) as Hlen.
  destruct w as [[a c l dt x d] ts clk rng evs]. cbn in Hc. subst c.
  cbn [tasks clock] in *.
  set (w := mkWorld (mkCoordinator a (Some (mkClient true true)) l dt x d) ts clk rng evs) in *.
  remember (timer_cancelled w) as tc eqn:Htc.
  assert (Hs1 : exec [Notification p1; Resume (length ts) Succeeds] w
                = Some (mkWorld
                          (mkCoordinator a (Some (mkClient true true)) l
                             (Some (length tc)) x (<[metric_key r1 := metric_value r1]> d))
                          (tc ++ [mkTask sleeping_timer true clk false]) clk rng
                          (evs ++ EvPublished (<[metric_key r1 := metric_value r1]> d)
                               :: restart_events w))).
  { cbn [exec step]. unfold w at 1. cbn [coordinator _client is_connected notifying andb].
    cbn [mbind option_bind]. rewrite (reading_world_eq p1 r1 w H1), <- Htc, <- Hlen.
    cbn [coordinator _disconnect_task tasks clock in_range events apply
         set_disconnect_task set_data data device_address _client _connection_lock
         _expected_disconnect w].
    rewrite timer_starts. cbn [mbind option_bind]. rewrite <- ?Hlen. reflexivity. }
  set (w1 := mkWorld
               (mkCoordinator a (Some (mkClient true true)) l
                  (Some (length tc)) x (<[metric_key r1 := metric_value r1]> d))
               (tc ++ [mkTask sleeping_timer true clk false]) clk rng
               (evs ++ EvPublished (<[metric_key r1 := metric_value r1]> d)
                    :: restart_events w)) in *.
  assert (Hs2 : step (Notification p2) w1
                = Some (mkWorld
                          (mkCoordinator a (Some (mkClient true true)) l
                             (Some (S (length tc))) x
                             (<[metric_key r2 := metric_value r2]>
                                (<[metric_key r1 := metric_value r1]> d)))
                          (tc ++ mkTask sleeping_timer true clk true
                              :: [mkTask _disconnect_after_delay false clk false])
                          clk rng
                          (events w1
                           ++ EvPublished (<[metric_key r2 := metric_value r2]>
                                             (<[metric_key r1 := metric_value r1]> d))
                              :: restart_events w1))).
  { cbn [step]. unfold w1 at 1. cbn [coordinator _client is_connected notifying andb].
    rewrite (reading_world_eq p2 r2 w1 H2). f_equal.
    unfold timer_cancelled, w1.
    cbn [coordinator _disconnect_task tasks clock in_range events apply
         set_disconnect_task set_data data device_address _client _connection_lock
         _expected_disconnect].
    rewrite (alter_snoc _ tc _ _ eq_refl), request_cancel_sleeping.
    rewrite length_app, <- app_assoc. cbn [length app]. rewrite Nat.add_1_r.
    reflexivity. }
  eexists. eexists. split.
  { change [Notification p1; Resume (length ts) Succeeds; Notification p2]
      with ([Notification p1; Resume (length ts) Succeeds] ++ [Notification p2]).
    rewrite exec_app, Hs1. cbn [mbind option_bind exec]. rewrite Hs2. reflexivity. }
  split; [cbn; rewrite Hlen; reflexivity|].
  split.
  { cbn [exec step mbind option_bind coordinator tasks clock in_range events].
    rewrite <- Hlen. rewrite cancelled_timer_ends. reflexivity. }
  split; [reflexivity|]. split; [reflexivity|].
  cbn [tasks]. rewrite <- Hlen. apply (lookup_mid tc _ _ _ eq_refl).
Qed.

Lemma superseded_timer_is_harmless_witness :
  exists w2 w3,
    exec [Notification [x0a; x50]; Resume 0 Succeeds; Notification [x0a; x4f]]
      (set_link (Some (mkClient true true)) (boot address_of_bike)) = Some w2
    /\ _disconnect_task (coordinator w2) = Some 1%nat
    /\ exec [Elapse 600; Resume 0 Succeeds] w2 = Some w3
    /\ coordinator w3 = coordinator w2
    /\ events w3 = events w2
    /\ tasks w3 !! 0%nat = Some (mkTask (Ret tt) true 600 false).
Proof.
  apply (superseded_timer_is_harmless [x0a; x50] [x0a; x4f] (BatterySoc 80)
           (BatterySoc 79)
           (set_link (Some (mkClient true true)) (boot address_of_bike))
           600 Succeeds); reflexivity.
Defined.

(** ** Reconnection after a lost link *)

Lemma poll_task_connects (a : string) (dt : option nat) (x : bool)
    (d : gmap string pyval) (ts : list TaskState) (clk0 clk : nat)
    (evs : list Event) :
  exec [Resume (length ts) Succeeds; Resume (length ts) Succeeds;
        Resume (length ts) Succeeds]
    (mkWorld (mkCoordinator a None false dt x d)
       (ts ++ [mkTask (entry_body AsyncUpdateData) false clk0 false]) clk true evs)
  = Some (mkWorld (mkCoordinator a (Some (mkClient true true)) false dt x d)
            (ts ++ [mkTask (Ret tt) true clk false]) clk true
            ((evs ++ [EvConnectAttempt a]) ++ [EvStartNotify])).
Proof.
  cbn [exec step]. unfold resume. cbn [tasks].
  rewrite (lookup_snoc ts _ _ eq_refl). cbn.
  unfold store_task. cbn. rewrite (insert_snoc ts _ _ _ eq_refl).
  rewrite (lookup_snoc ts _ _ eq_refl). cbn.
  unfold store_task. cbn. rewrite (insert_snoc ts _ _ _ eq_refl).
  rewrite (lookup_snoc ts _ _ eq_refl). cbn.
  unfold store_task. cbn. rewrite (insert_snoc ts _ _ _ eq_refl).
  reflexivity.
Qed.

Lemma poll_task_fails (a : string) (dt : option nat) (x : bool)
    (d : gmap string pyval) (ts : list TaskState) (clk0 clk : nat)
    (evs : list Event) (e : exn) :
  exec [Resume (length ts) Succeeds; Resume (length ts) (Fails e)]
    (mkWorld (mkCoordinator a None false dt x d)
       (ts ++ [mkTask (entry_body AsyncUpdateData) false clk0 false]) clk true evs)
  = Some (mkWorld (mkCoordinator a None false dt x d)
            (ts ++ [mkTask (Raise (surfaced e)) true clk false]) clk true
            (evs ++ [EvConnectAttempt a])).
Proof.
  unfold surfaced.
  destruct e;
    (cbn [exec step]; unfold resume; cbn [tasks];
     rewrite (lookup_snoc ts _ _ eq_refl); cbn;
     unfold store_task; cbn; rewrite (insert_snoc ts _ _ _ eq_refl);
     rewrite (lookup_snoc ts _ _ eq_refl); cbn;
     unfold store_task; cbn; rewrite (insert_snoc ts _ _ _ eq_refl);
     reflexivity).
Qed.

Lemma poll_task_out_of_range (a : string) (dt : option nat) (x : bool)
    (d : gmap string pyval) (ts : list TaskState) (clk0 clk : nat)
    (evs : list Event) (o : Outcome) :
  exec [Resume (length ts) o]
    (mkWorld (mkCoordinator a None false dt x d)
       (ts ++ [mkTask (entry_body AsyncUpdateData) false clk0 false]) clk false evs)
  = Some (mkWorld (mkCoordinator a None false dt x d)
            (ts ++ [mkTask (Raise UpdateFailed) true clk false]) clk false evs).
Proof.
  cbn [exec step]. unfold resume. cbn [tasks].
  rewrite (lookup_snoc ts _ _ eq_refl). cbn.
  unfold store_task. cbn. rewrite (insert_snoc ts _ _ _ eq_refl).
  reflexivity.
Qed.

(** X23.  An unexpected loss of the link is followed by exactly one reconnection
    attempt of the integration's own. *)
Theorem link_loss_reconnects_once (w : World) :
  client_connected (coordinator w) = true ->
  _expected_disconnect (coordinator w) = false ->
  _connection_lock (coordinator w) = false ->
  exists w1,
    step LinkLost w = Some w1
    /\ _client (coordinator w1) = None
    /\ tasks w1
       = tasks w ++ [mkTask (entry_body AsyncUpdateData) false (clock w) false]
    /\ (in_range w = true ->
        (exists w2,
           exec [Resume (length (tasks w)) Succeeds; Resume (length (tasks w)) Succeeds;
                 Resume (length (tasks w)) Succeeds] w1 = Some w2
           /\ _client (coordinator w2) = Some (mkClient true true)
           /\ _connection_lock (coordinator w2) = false
           /\ data (coordinator w2) = data (coordinator w)
           /\ length (tasks w2) = S (length (tasks w)))
        /\ (forall e, exists w2,
              exec [Resume (length (tasks w)) Succeeds;
                    Resume (length (tasks w)) (Fails e)] w1 = Some w2
              /\ _client (coordinator w2) = None
              /\ _connection_lock (coordinator w2) = false
              /\ tasks w2
                 = tasks w ++ [mkTask (Raise (surfaced e)) true (clock w) false]))
    /\ (in_range w = false ->
        forall o, exists w2,
          exec [Resume (length (tasks w)) o] w1 = Some w2
          /\ _client (coordinator w2) = None
          /\ _connection_lock (coordinator w2) = false
          /\ tasks w2 = tasks w ++ [mkTask (Raise UpdateFailed) true (clock w) false]
          /\ events w2 = events w1).
Proof.
  destruct w as [[a c l dt x d] ts clk rng evs]. cbn. intros Hc -> ->.
  destruct c as [[conn sub]|]; [|discriminate]. cbn in Hc. subst conn.
  eexists. split; [reflexivity|]. cbn. split; [reflexivity|]. split; [reflexivity|].
  split.
  - intros ->. split.
    + eexists. split; [apply poll_task_connects|]. cbn.
      rewrite length_app, Nat.add_1_r. repeat split; reflexivity.
    + intros e. eexists. split; [apply poll_task_fails|]. repeat split; reflexivity.
  - intros -> o. eexists. split; [apply poll_task_out_of_range|].
    repeat split; reflexivity.
Qed.

Lemma link_loss_reconnects_once_witness :
  exists w1,
    step LinkLost (set_link (Some (mkClient true true)) (boot address_of_bike))
    = Some w1
    /\ _client (coordinator w1) = None
    /\ tasks w1 = [mkTask (entry_body AsyncUpdateData) false 0 false].
Proof.
  destruct (link_loss_reconnects_once
              (set_link (Some (mkClient true true)) (boot address_of_bike))
              eq_refl eq_refl eq_refl) as (w1 & H1 & H2 & H3 & _).
  exists w1. split; [exact H1|]. split; [exact H2 | exact H3].
Defined.

(** ** The decoder loses nothing *)

Lemma raw_recovered_from_spec (n : nat) (v k : Z) :
  raw_recovered_from n v = true -> v <= k < v + Z.of_nat n ->
  raw_of_tenths (tenths k) = k.
Proof.
  revert v. induction n as [|n IH]; intros v H Hk; [lia|].
  cbn [raw_recovered_from] in H. apply andb_true_iff in H as [Hv Hn].
  destruct (Z.eq_dec k v) as [->|Hne]; [apply Z.eqb_eq, Hv|].
  apply (IH (v + 1) Hn). lia.
Qed.

Lemma raw_recovered_all : raw_recovered_from (Z.to_nat 65536) 0 = true.
Proof. vm_compute. reflexivity. Qed.

Lemma byte_val_inj (a b : byte) : byte_val a = byte_val b -> a = b.
Proof.
  intros H. apply (byte_val_eq a (Byte.to_N b) b); [apply Byte.of_to_N | exact H].
Qed.

(** X24.  Decoding loses nothing of a recognised frame but the trailing bytes:
    two battery frames decode to the same reading exactly when they carry
    the same byte, two temperature frames exactly when they carry the same
    two bytes (the division by 10.0 maps different raw values to different
    temperatures), and a battery frame never decodes like a temperature
    frame. *)
Theorem decode_determines_frame (p p' hi lo hi' lo' : byte)
    (rest rest' : list byte) :
  (decode (x0a :: p :: rest) = decode (x0a :: p' :: rest') <-> p = p')
  /\ (decode (x07 :: hi :: lo :: rest) = decode (x07 :: hi' :: lo' :: rest')
      <-> hi = hi' /\ lo = lo')
  /\ decode (x0a :: p :: rest) <> decode (x07 :: hi :: lo :: rest').
Proof.
  rewrite !decode_battery, !decode_temperature. split; [|split].
  - split.
    + intros H. injection H as H. apply byte_val_inj, H.
    + intros ->. reflexivity.
  - split.
    + intros H. injection H as H.
      pose proof (byte_val_range hi) as Hh. pose proof (byte_val_range lo) as Hl.
      pose proof (byte_val_range hi') as Hh'. pose proof (byte_val_range lo') as Hl'.
      assert (Hraw : byte_val hi * 256 + byte_val lo = byte_val hi' * 256 + byte_val lo').
      { rewrite <- (raw_recovered_from_spec _ 0 (byte_val hi * 256 + byte_val lo)
                      raw_recovered_all) by (rewrite Z2Nat.id; lia).
        rewrite <- (raw_recovered_from_spec _ 0 (byte_val hi' * 256 + byte_val lo')
                      raw_recovered_all) by (rewrite Z2Nat.id; lia).
        unfold tenths. rewrite H. reflexivity. }
      split; apply byte_val_inj; lia.
    + intros [-> ->]. reflexivity.
  - discriminate.
Qed.

(** ** A poll run alone *)

(** X25.  A poll run alone always ends, within two completions of the adapter:
    it returns or raises, releases the lock, and leaves the store, the
    timer and the tasks as they were; when it returns, it returns the store
    and the client is connected. *)
Theorem poll_ends_and_frees_lock (o1 o2 : Outcome) (w : World) :
  _connection_lock (coordinator w) = false ->
  exists r w',
    drive [o1; o2] _async_update_data w = Some (r, w')
    /\ _connection_lock (coordinator w') = false
    /\ data (coordinator w') = data (coordinator w)
    /\ _disconnect_task (coordinator w') = _disconnect_task (coordinator w)
    /\ tasks w' = tasks w
    /\ (forall d, r = Ok d ->
          d = data (coordinator w) /\ client_connected (coordinator w') = true)
    /\ (forall e, r = Err e -> isinstance_Exception e = true \/ o1 = Fails e \/ o2 = Fails e).
Proof.
  destruct w as [[a c l t x d] ts clk rng evs]. cbn. intros ->.
  assert (Hfin : forall (r : result (gmap string pyval)) (w' : World) o1 o2,
            _connection_lock (coordinator w') = false ->
            data (coordinator w') = d ->
            _disconnect_task (coordinator w') = t ->
            tasks w' = ts ->
            (forall d', r = Ok d' -> d' = d /\ client_connected (coordinator w') = true) ->
            (forall e, r = Err e ->
               isinstance_Exception e = true \/ o1 = Fails e \/ o2 = Fails e) ->
            _connection_lock (coordinator w') = false
            /\ data (coordinator w') = d
            /\ _disconnect_task (coordinator w') = t
            /\ tasks w' = ts
            /\ (forall d', r = Ok d' -> d' = d /\ client_connected (coordinator w') = true)
            /\ (forall e, r = Err e ->
                  isinstance_Exception e = true \/ o1 = Fails e \/ o2 = Fails e)).
  { intros r w' o1' o2' H1 H2 H3 H4 H5 H6.
    exact (conj H1 (conj H2 (conj H3 (conj H4 (conj H5 H6))))). }
  destruct c as [[[|] sub]|]; destruct rng; cbn.
  1,2: eexists; eexists; (split; [rewrite ?drive_eq; reflexivity|]);
       apply Hfin; cbn; try reflexivity;
       [intros d' Hres; injection Hres as <-; split; reflexivity | discriminate].
  all: destruct o1 as [|e1]; [destruct o2 as [|e2]|];
    try destruct e1; try destruct e2; cbn;
    (eexists; eexists; (split; [rewrite ?drive_eq; reflexivity|]);
     apply Hfin; cbn; try reflexivity;
     [ first [discriminate | intros d' Hres; injection Hres as <-; split; reflexivity]
     | first [discriminate | intros e' Hres; injection Hres as <-; cbn; auto] ]).
Qed.

Lemma poll_ends_and_frees_lock_witness :
  exists r w',
    drive [Succeeds; Fails CancelledError] _async_update_data (boot address_of_bike)
    = Some (r, w')
    /\ _connection_lock (coordinator w') = false.
Proof.
  destruct (poll_ends_and_frees_lock Succeeds (Fails CancelledError)
              (boot address_of_bike) eq_refl) as (r & w' & H1 & H2 & _).
  exists r, w'. split; assumption.
Defined.

(** ** More on the flow and the set-up *)

(** X26.  The flow never forgets a device: the address of a device offered by
    an earlier user step stays in the choice of a later one on the same
    flow, whatever the host then reports, also when the device is
    configured by then or no longer discovered. *)
Theorem user_form_keeps_remembered_devices (host1 host2 : FlowHost)
    (d : ServiceInfo) :
  d ∈ discovered_service_info host1 ->
  offerable host1 d ->
  exists choices,
    (async_step_user host2 None
       (async_step_user host1 None HyenaEBikeConfigFlow).2).1
    = Returns (FlowShowForm "user" (Some (SchemaIn choices)) (Some ∅) None)
    /\ is_Some (choices !! info_address d).
Proof.
  intros Hin Ho. unfold async_step_user. cbn.
  set (self1 := fold_left (remember_device host1) (discovered_service_info host1)
                  HyenaEBikeConfigFlow).
  set (self2 := fold_left (remember_device host2) (discovered_service_info host2) self1).
  assert (H2 : is_Some (_discovered_devices self2 !! info_address d)).
  { apply remember_devices_keeps.
    apply (remember_devices_complete host1 _ HyenaEBikeConfigFlow d Hin Ho). }
  case_bool_decide as He.
  - exfalso. rewrite He, lookup_empty in H2. destruct H2 as [x Hx]. discriminate.
  - eexists. split; [reflexivity|]. rewrite map_lookup_imap.
    destruct H2 as [x ->]. cbn. eauto.
Qed.

Lemma user_form_keeps_remembered_devices_witness :
  exists choices,
    (async_step_user (mkFlowHost SOURCE_USER {[address_of_bike := SOURCE_USER]} ∅ []) None
       (async_step_user
          (mkFlowHost SOURCE_USER ∅ ∅ [mkInfo (Some DEVICE_NAME) address_of_bike]) None
          HyenaEBikeConfigFlow).2).1
    = Returns (FlowShowForm "user" (Some (SchemaIn choices)) (Some ∅) None)
    /\ is_Some (choices !! address_of_bike).
Proof.
  apply (user_form_keeps_remembered_devices
           (mkFlowHost SOURCE_USER ∅ ∅ [mkInfo (Some DEVICE_NAME) address_of_bike])
           (mkFlowHost SOURCE_USER {[address_of_bike := SOURCE_USER]} ∅ [])
           (mkInfo (Some DEVICE_NAME) address_of_bike)).
  - left.
  - split; [reflexivity|]. unfold current_ids. cbn. rewrite dom_empty_L.
    apply not_elem_of_empty.
Defined.

(** X27.  Two set-ups register two coordinators: the second keeps the first's
    registration when the entries differ; when they are the same entry (a
    set-up repeated without an unload) the registration is replaced and
    nothing in [hass.data] refers to the first coordinator any more, so no
    unload will shut it down. *)
Theorem setups_register_independently (e1 e2 : ConfigEntry) (a1 a2 : string)
    (hass : HomeAssistant) (env1 env2 : SetupEnv) :
  entry_data e1 !! CONF_DEVICE_ADDRESS = Some a1 ->
  entry_data e2 !! CONF_DEVICE_ADDRESS = Some a2 ->
  refresh_handled (first_refresh env1 (HyenaEBikeCoordinator a1)).2 ->
  refresh_handled (first_refresh env2 (HyenaEBikeCoordinator a2)).2 ->
  forward_entry_setups env1 = Ok tt ->
  forward_entry_setups env2 = Ok tt ->
  (forall id n, registry_of hass !! id = Some n -> (n < length (objects hass))%nat) ->
  exists hass1 hass2,
    run_setup env1 (async_setup_entry e1) hass = Some (Ok true, hass1)
    /\ run_setup env2 (async_setup_entry e2) hass1 = Some (Ok true, hass2)
    /\ objects hass2
       = objects hass ++ [(first_refresh env1 (HyenaEBikeCoordinator a1)).1;
                          (first_refresh env2 (HyenaEBikeCoordinator a2)).1]
    /\ registry_of hass2 !! entry_id e2 = Some (S (length (objects hass)))
    /\ (entry_id e1 <> entry_id e2 ->
        registry_of hass2 !! entry_id e1 = Some (length (objects hass)))
    /\ (entry_id e1 = entry_id e2 ->
        forall id, registry_of hass2 !! id <> Some (length (objects hass))).
Proof.
  intros Ha1 Ha2 Hr1 Hr2 Hf1 Hf2 Hwf.
  eexists. eexists.
  split; [apply (setup_completes e1 a1 hass env1 Ha1 Hr1 Hf1)|].
  split; [apply (setup_completes e2 a2 _ env2 Ha2 Hr2 Hf2)|].
  unfold registry_of in *. cbn. rewrite !lookup_insert_eq. cbn.
  rewrite length_app. cbn. rewrite Nat.add_1_r.
  split; [rewrite <- app_assoc; reflexivity|].
  split; [apply lookup_insert_eq|]. split.
  - intros Hne. rewrite lookup_insert_ne by congruence. apply lookup_insert_eq.
  - intros Heq id. rewrite Heq, insert_insert_eq.
    destruct (decide (id = entry_id e2)) as [->|Hne].
    + rewrite lookup_insert_eq. intros H. injection H as H. lia.
    + rewrite lookup_insert_ne by congruence. intros H.
      specialize (Hwf id _ H). lia.
Qed.

Lemma setups_register_independently_witness :
  exists hass1 hass2,
    run_setup (mkSetupEnv (fun c => (c, Ok tt)) (Ok tt))
      (async_setup_entry (mkEntry "entry" (<[CONF_DEVICE_ADDRESS := address_of_bike]> ∅)))
      (mkHass [] ∅ []) = Some (Ok true, hass1)
    /\ run_setup (mkSetupEnv (fun c => (c, Ok tt)) (Ok tt))
         (async_setup_entry
            (mkEntry "entry" (<[CONF_DEVICE_ADDRESS := address_of_bike]> ∅)))
         hass1 = Some (Ok true, hass2)
    /\ length (objects hass2) = 2%nat
    /\ forall id, registry_of hass2 !! id <> Some 0%nat.
Proof.
  destruct (setups_register_independently
              (mkEntry "entry" (<[CONF_DEVICE_ADDRESS := address_of_bike]> ∅))
              (mkEntry "entry" (<[CONF_DEVICE_ADDRESS := address_of_bike]> ∅))
              address_of_bike address_of_bike (mkHass [] ∅ [])
              (mkSetupEnv (fun c => (c, Ok tt)) (Ok tt))
              (mkSetupEnv (fun c => (c, Ok tt)) (Ok tt)))
    as (hass1 & hass2 & H1 & H2 & H3 & _ & _ & H4).
  - apply lookup_insert_eq.
  - apply lookup_insert_eq.
  - exact I.
  - exact I.
  - reflexivity.
  - reflexivity.
  - intros id n H. unfold registry_of in H. cbn in H.
    rewrite lookup_empty in H. cbn in H. rewrite lookup_empty in H. discriminate.
  - exists hass1, hass2. split; [exact H1|]. split; [exact H2|].
    split; [rewrite H3; reflexivity | exact (H4 eq_refl)].
Defined.

(** ** At most one idle timer is pending *)

Ltac timer_free_tac :=
  repeat first
    [ progress cbn in *
    | progress intros
    | progress subst
    | split
    | reflexivity
    | assumption
    | exact I
    | congruence
    | match goal with
      | r : result _ |- _ => destruct r
      | u : unit |- _ => destruct u
      | o : option _ |- _ => destruct o
      | |- context [if ?b then _ else _] => destruct b eqn:?
      | |- context [match ?x with _ => _ end] => destruct x eqn:?
      end ].

Lemma timer_free_ensure_connection (cur : option nat) :
  timer_free _ensure_connection cur.
Proof. unfold _ensure_connection, with_connection_lock, client_call. timer_free_tac. Qed.

Lemma timer_free_async_update_data (cur : option nat) :
  timer_free _async_update_data cur.
Proof.
  unfold _async_update_data, _ensure_connection, with_connection_lock, client_call.
  timer_free_tac.
Qed.

Lemma timer_free_async_disconnect (cur : option nat) :
  timer_free _async_disconnect cur.
Proof. unfold _async_disconnect, with_connection_lock, client_call. timer_free_tac. Qed.

Lemma timer_free_disconnected_callback (cur : option nat) :
  timer_free _disconnected_callback cur.
Proof. unfold _disconnected_callback. timer_free_tac. Qed.

Lemma timer_free_after_sleep :
  match sleeping_timer with
  | Await a k => forall r cur, timer_free (k r) cur
  | _ => True
  end.
Proof.
  unfold sleeping_timer, _disconnect_after_delay, _async_disconnect,
    with_connection_lock, client_call.
  timer_free_tac.
Qed.

Lemma entry_body_ok (c : Entry) (clk : nat) :
  c <> DisconnectAfterDelay -> fresh_task (mkTask (entry_body c) false clk false).
Proof.
  intros Hc. destruct c; try congruence; (split; [|reflexivity]).
  - left. intros cur. apply timer_free_ensure_connection.
  - left. intros cur. cbn [prog entry_body].
    unfold _async_update_data, _ensure_connection, with_connection_lock, client_call.
    timer_free_tac.
  - left. intros cur. apply timer_free_async_disconnect.
  - right. left. split; reflexivity.
Qed.

Lemma pending_sleeps_first (task : TaskState) :
  pending task -> sleeps_first (prog task) = true.
Proof. intros [_ [[_ ->]|[_ ->]]]; reflexivity. Qed.

Lemma timer_free_not_sleeping {A} (p : method A) (cur : option nat) :
  timer_free p cur -> sleeps_first p = false.
Proof. destruct p; cbn; try reflexivity. intros [H _]. exact H. Qed.

Lemma grown_refl (ts : list TaskState) : grown ts ts.
Proof. exists []. split; [rewrite app_nil_r; reflexivity | constructor]. Qed.

Lemma grown_trans (ts1 ts2 ts3 : list TaskState) :
  grown ts1 ts2 -> grown ts2 ts3 -> grown ts1 ts3.
Proof.
  intros (n1 & -> & H1) (n2 & -> & H2). exists (n1 ++ n2).
  split; [rewrite app_assoc; reflexivity | apply Forall_app; split; assumption].
Qed.

Lemma fresh_not_pending (task : TaskState) : fresh_task task -> ~ pending task.
Proof.
  intros [_ Hs] Hp. rewrite (pending_sleeps_first task Hp) in Hs. discriminate.
Qed.

Lemma timer_ok_grown (ts ts' : list TaskState) (dt : option nat) :
  timer_ok ts dt -> grown ts ts' -> timer_ok ts' dt.
Proof.
  intros [Hok Hp] (new & -> & Hnew). split.
  - apply Forall_app. split; [exact Hok|].
    eapply Forall_impl; [exact Hnew|]. intros task [H _]. exact H.
  - intros t task Hl Hpend.
    destruct (decide (t < length ts)%nat) as [Hlt|Hge].
    + rewrite lookup_app_l in Hl by exact Hlt. apply (Hp t task Hl Hpend).
    + rewrite lookup_app_r in Hl by lia. exfalso.
      rewrite Forall_lookup in Hnew.
      exact (fresh_not_pending task (Hnew _ _ Hl) Hpend).
Qed.

Lemma timer_ok_store (ts : list TaskState) (dt : option nat) (t : nat)
    (task' : TaskState) :
  timer_ok ts dt -> timer_task_ok task' -> (pending task' -> dt = Some t) ->
  timer_ok (<[t := task']> ts) dt.
Proof.
  intros [Hok Hp] Hok' Hp'. split.
  - apply Forall_insert; assumption.
  - intros t' task Hl Hpend.
    destruct (decide (t' = t)) as [->|Hne].
    + destruct (decide (t < length ts)%nat) as [Hlt|Hge].
      * rewrite list_lookup_insert_eq in Hl by exact Hlt. injection Hl as <-.
        apply Hp', Hpend.
      * rewrite list_insert_ge in Hl by lia. apply (Hp t task Hl Hpend).
    + rewrite list_lookup_insert_ne in Hl by congruence. apply (Hp t' task Hl Hpend).
Qed.

Lemma pending_unfinished (task : TaskState) : pending task -> finished (prog task) = false.
Proof. intros [_ [[_ ->]|[_ ->]]]; reflexivity. Qed.

(** Once the current timer is asked to stop, no timer is pending. *)
Lemma timer_ok_cancelled (w : World) (dt' : option nat) :
  timer_ok (tasks w) (_disconnect_task (coordinator w)) ->
  timer_ok (timer_cancelled w) dt'
  /\ forall t task, timer_cancelled w !! t = Some task -> ~ pending task.
Proof.
  intros [Hok Hp].
  assert (Hnone : forall t task, timer_cancelled w !! t = Some task -> ~ pending task).
  { unfold timer_cancelled. intros t task Hl Hpend.
    destruct (_disconnect_task (coordinator w)) as [t0|] eqn:Hdt.
    - destruct (decide (t = t0)) as [->|Hne].
      + rewrite list_lookup_alter_eq in Hl.
        apply fmap_Some in Hl as (task0 & Hl0 & ->).
        unfold request_cancel in Hpend.
        destruct (finished (prog task0)) eqn:Hf.
        * rewrite (pending_unfinished _ Hpend) in Hf. discriminate.
        * destruct Hpend as [Hc _]. discriminate.
      + rewrite list_lookup_alter_ne in Hl by congruence.
        specialize (Hp t task Hl Hpend). congruence.
    - specialize (Hp t task Hl Hpend). discriminate. }
  split; [|exact Hnone]. split.
  - unfold timer_cancelled. destruct (_disconnect_task (coordinator w)); [|exact Hok].
    apply Forall_alter; [exact Hok|]. intros task _ H. unfold request_cancel.
    destruct (finished (prog task)); exact H.
  - intros t task Hl Hpend. exfalso. exact (Hnone t task Hl Hpend).
Qed.

Lemma host_call_timer {R} (c : hostE R) (w : World) :
  timer_host_ok c ->
  grown (tasks w) (tasks (host_call c w).2)
  /\ coordinator (host_call c w).2 = coordinator w.
Proof.
  intros Hc. destruct c; cbn in *; (split; [|reflexivity]).
  - apply grown_refl.
  - eexists. split; [reflexivity|]. constructor; [|constructor].
    apply entry_body_ok. intros ->. exact Hc.
  - contradiction.
  - apply grown_refl.
Qed.

Lemma run_timer_free {A} (p : method A) (w : World) :
  timer_free p (_disconnect_task (coordinator w)) ->
  (forall cur, timer_free (run p w).1 cur)
  /\ _disconnect_task (coordinator (run p w).2) = _disconnect_task (coordinator w)
  /\ grown (tasks w) (tasks (run p w).2).
Proof.
  revert w. induction p as [a|e|k IH|s k IH|R c k IH|R a k IH]; intros w Hp; cbn in *.
  - split; [intros cur; exact I|]. split; [reflexivity | apply grown_refl].
  - split; [intros cur; exact I|]. split; [reflexivity | apply grown_refl].
  - apply IH, Hp. reflexivity.
  - destruct Hp as [Hs Hk].
    destruct (IH (set_coordinator s w)) as (H1 & H2 & H3); [cbn; rewrite Hs; exact Hk|].
    split; [exact H1|]. split; [rewrite H2; exact Hs | exact H3].
  - destruct Hp as [Hc Hk]. destruct (host_call_timer c w Hc) as [Hg Hco].
    destruct (host_call c w) as [r w1]. cbn in Hg, Hco.
    destruct (IH r w1) as (H1 & H2 & H3); [rewrite Hco; apply Hk|].
    split; [exact H1|]. split; [rewrite H2, Hco; reflexivity|].
    eapply grown_trans; eassumption.
  - destruct Hp as [Hsl Hk].
    destruct (completes_now a w) as [[r w1]|] eqn:Hc.
    + destruct a; try discriminate. cbn in Hc.
      destruct (_connection_lock (coordinator w)); [discriminate|].
      injection Hc as <- <-.
      apply (IH (Ok tt) (set_coordinator (set_connection_lock true (coordinator w)) w)).
      apply Hk.
    + cbn. split; [intros cur; split; [exact Hsl | exact Hk]|].
      destruct a; cbn; (split; [reflexivity | apply grown_refl]).
Qed.

Lemma await_outcome_timer {R} (a : awaitE R) (o : Outcome) (suspended : nat)
    (w w' : World) (r : result R) :
  await_outcome a o suspended w = Some (r, w') ->
  _disconnect_task (coordinator w') = _disconnect_task (coordinator w)
  /\ grown (tasks w) (tasks w').
Proof.
  intros H.
  assert (Hsame : forall w0, _disconnect_task (coordinator w0)
                             = _disconnect_task (coordinator w0)
                             /\ grown (tasks w0) (tasks w0))
    by (intros w0; split; [reflexivity | apply grown_refl]).
  destruct a; cbn in H.
  - destruct o; [|discriminate].
    destruct (_connection_lock (coordinator w)); [discriminate|].
    injection H as _ <-. split; [reflexivity | apply grown_refl].
  - destruct o; injection H as _ <-; apply Hsame.
  - destruct o; [|injection H as _ <-; apply Hsame].
    destruct (_client (coordinator w)) as [c|]; [|discriminate].
    destruct (is_connected c); [|discriminate].
    injection H as _ <-. split; [reflexivity | apply grown_refl].
  - destruct o; [|injection H as _ <-; apply Hsame].
    destruct (_client (coordinator w)) as [c|]; [|discriminate].
    destruct (is_connected c); [|discriminate].
    injection H as _ <-. split; [reflexivity | apply grown_refl].
  - destruct o; [|injection H as _ <-; apply Hsame].
    destruct (_client (coordinator w)) as [c|]; [|injection H as _ <-; apply Hsame].
    destruct (is_connected c); [|injection H as _ <-; apply Hsame].
    injection H as _ <-.
    destruct (run_timer_free _disconnected_callback
                (set_link (Some (mkClient false false)) w)) as (_ & H2 & H3).
    { apply timer_free_disconnected_callback. }
    unfold call_back. split; [exact H2 | exact H3].
  - destruct o; [|discriminate].
    destruct (suspended + seconds <=? clock w)%nat; [|discriminate].
    injection H as _ <-. apply Hsame.
  - discriminate.
  - discriminate.
Qed.

Lemma free_task_ok (p : method unit) (clk : nat) :
  (forall cur, timer_free p cur) ->
  timer_task_ok (mkTask p true clk false) /\ ~ pending (mkTask p true clk false).
Proof.
  intros Hp. split; [left; exact Hp|]. intros Hpend.
  pose proof (pending_sleeps_first _ Hpend) as Hs. cbn in Hs.
  rewrite (timer_free_not_sleeping p None (Hp None)) in Hs. discriminate.
Qed.

Lemma continue_timer (t : nat) (p : method unit) (w : World) :
  timer_free p (_disconnect_task (coordinator w)) ->
  timer_inv w -> timer_inv (continue t p w).
Proof.
  intros Hp Hw. destruct (run_timer_free p w Hp) as (H1 & H2 & H3).
  unfold continue. destruct (run p w) as [p' w']. cbn in *.
  unfold timer_inv, store_task. cbn. rewrite H2.
  destruct (free_task_ok p' (clock w') H1) as [Hok Hnp].
  apply timer_ok_store; [|exact Hok | intros Hpend; exfalso; exact (Hnp Hpend)].
  eapply timer_ok_grown; eassumption.
Qed.

Lemma call_back_timer (p : method unit) (w : World) :
  (forall cur, timer_free p cur) -> timer_inv w -> timer_inv (call_back p w).
Proof.
  intros Hp Hw. destruct (run_timer_free p w (Hp _)) as (_ & H2 & H3).
  unfold timer_inv, call_back. rewrite H2. eapply timer_ok_grown; eassumption.
Qed.

Lemma run_async_shutdown (w : World) :
  run async_shutdown w = run _async_disconnect (timer_dropped w).
Proof.
  destruct w as [[a c l [t|] x d] ts clk rng evs]; reflexivity.
Qed.

Lemma timer_dropped_inv (w : World) : timer_inv w -> timer_inv (timer_dropped w).
Proof.
  intros Hw. unfold timer_inv, timer_dropped.
  destruct (timer_ok_cancelled w None Hw) as [H _]. unfold timer_cancelled in H.
  destruct (_disconnect_task (coordinator w)) as [t|] eqn:Hdt; [exact H|].
  rewrite Hdt. exact H.
Qed.

Lemma run_timer_start (w : World) :
  run _disconnect_after_delay w = (sleeping_timer, w).
Proof. destruct w. reflexivity. Qed.

Lemma resume_timer (t : nat) (o : Outcome) (w w' : World) :
  timer_inv w -> resume t o w = Some w' -> timer_inv w'.
Proof.
  intros Hw H. unfold resume in H.
  destruct (tasks w !! t) as [task|] eqn:Hlk; [|discriminate]. cbn in H.
  assert (Hok : timer_task_ok task).
  { destruct Hw as [Hall _]. rewrite Forall_lookup in Hall. exact (Hall t task Hlk). }
  destruct (started task) eqn:Hst; cbn in H.
  - destruct (prog task) as [| | | | |R a k] eqn:Hprog; try discriminate.
    assert (Hk : forall r cur, timer_free (k r) cur).
    { destruct Hok as [Hf|[[Hs _]|[[Hs _]|[_ Hd]]]]; try congruence.
      - intros r cur. specialize (Hf None). rewrite Hprog in Hf.
        destruct Hf as [_ Hf']. apply Hf'.
      - intros r cur. pose proof timer_free_after_sleep as Hts.
        rewrite <- Hd, Hprog in Hts. apply Hts. }
    destruct (cancel_requested task).
    + injection H as <-. apply continue_timer; [apply Hk | exact Hw].
    + destruct (await_outcome a o (since task) w) as [[r w1]|] eqn:Ha; [|discriminate].
      cbn in H. injection H as <-.
      destruct (await_outcome_timer a o _ w w1 r Ha) as [Hdt Hg].
      apply continue_timer; [apply Hk|].
      unfold timer_inv. rewrite Hdt. eapply timer_ok_grown; eassumption.
  - destruct (cancel_requested task) eqn:Hcr; injection H as <-.
    + change (store_task t (Raise CancelledError) w)
        with (continue t (Raise CancelledError) w).
      apply continue_timer; [exact I | exact Hw].
    + destruct Hok as [Hf|[[_ Hd]|[[_ Hd]|[Hs _]]]]; try congruence.
      * apply continue_timer; [apply Hf | exact Hw].
      * rewrite Hd. unfold continue. rewrite run_async_shutdown.
        apply (continue_timer t _async_disconnect (timer_dropped w)).
        -- apply timer_free_async_disconnect.
        -- apply timer_dropped_inv, Hw.
      * assert (Hpend : pending task).
        { split; [exact Hcr|]. left. split; assumption. }
        rewrite Hd. unfold continue. rewrite run_timer_start.
        unfold timer_inv, store_task. cbn.
        apply timer_ok_store; [exact Hw | |].
        -- right. right. right. split; reflexivity.
        -- intros _. destruct Hw as [_ Hp]. exact (Hp t task Hlk Hpend).
Qed.

Lemma reading_timer (payload : list byte) (w : World) :
  timer_inv w -> timer_inv (call_back (_notification_handler payload) w).
Proof.
  intros Hw. destruct (decode_returns payload) as [[r|] Hr].
  - rewrite (reading_world_eq payload r w Hr). unfold timer_inv. cbn.
    destruct (timer_ok_cancelled w (Some (length (tasks w))) Hw) as [[Hall _] Hnone].
    split.
    + apply Forall_app. split; [exact Hall|]. constructor; [|constructor].
      right. right. left. split; reflexivity.
    + intros t task Hl Hpend.
      destruct (decide (t < length (timer_cancelled w))%nat) as [Hlt|Hge].
      * rewrite lookup_app_l in Hl by exact Hlt. exfalso. exact (Hnone t task Hl Hpend).
      * rewrite lookup_app_r in Hl by lia.
        destruct (t - length (timer_cancelled w))%nat as [|n] eqn:Hn;
          [|destruct n; discriminate].
        rewrite timer_cancelled_length in Hn, Hge. f_equal. lia.
  - rewrite (handler_no_reading payload w Hr). exact Hw.
Qed.

Lemma step_timer (l : Label) (w w' : World) :
  spawns_no_timer l -> timer_inv w -> step l w = Some w' -> timer_inv w'.
Proof.
  intros Hl Hw H. destruct l; cbn in H.
  - apply (resume_timer t o w w' Hw H).
  - destruct (_client (coordinator w)) as [c|]; [|discriminate].
    destruct (is_connected c && notifying c); [|discriminate].
    injection H as <-. apply reading_timer, Hw.
  - destruct (client_connected (coordinator w)); [|discriminate].
    injection H as <-.
    exact (call_back_timer _disconnected_callback
             (set_link (Some (mkClient false false)) w)
             timer_free_disconnected_callback Hw).
  - injection H as <-. exact Hw.
  - injection H as <-.
    destruct (host_call_timer (AsyncCreateTask c) w) as [Hg Hc].
    { cbn. destruct c; try exact I. apply Hl. reflexivity. }
    unfold timer_inv. cbn [snd] in Hc, Hg |- *.
    change (timer_ok (tasks (host_call (AsyncCreateTask c) w).2)
              (_disconnect_task (coordinator (host_call (AsyncCreateTask c) w).2))).
    rewrite Hc. eapply timer_ok_grown; [exact Hw | exact Hg].
  - injection H as <-. exact Hw.
Qed.

Lemma exec_timer (ls : list Label) (w w' : World) :
  Forall spawns_no_timer ls -> timer_inv w -> exec ls w = Some w' -> timer_inv w'.
Proof.
  revert w. induction ls as [|l ls IH]; intros w Hls Hw H.
  - injection H as <-. exact Hw.
  - inversion Hls as [|? ? Hl Hls']; subst. cbn in H.
    destruct (step l w) as [w1|] eqn:Hs; [|discriminate]. cbn in H.
    apply (IH w1 Hls' (step_timer l w w1 Hl Hw Hs) H).
Qed.

(** X28.  At most one idle timer is waiting to fire, and it is the coordinator's
    current one: in every world reached from a fresh coordinator by a
    schedule in which no caller starts a timer of their own, a timer task
    that is not asked to stop and is not yet started or asleep is the task
    [_disconnect_task] refers to. *)
Theorem one_pending_timer (address : string) (ls : list Label) (w : World)
    (t1 t2 : nat) (task1 task2 : TaskState) :
  exec ls (boot address) = Some w ->
  Forall spawns_no_timer ls ->
  tasks w !! t1 = Some task1 -> pending task1 ->
  tasks w !! t2 = Some task2 -> pending task2 ->
  t1 = t2 /\ _disconnect_task (coordinator w) = Some t1.
Proof.
  intros H Hls Hl1 Hp1 Hl2 Hp2.
  assert (Hw : timer_inv w).
  { apply (exec_timer ls (boot address) w Hls); [|exact H].
    split; [constructor|]. intros t task Hl. cbn in Hl. rewrite lookup_nil in Hl.
    discriminate. }
  destruct Hw as [_ Hp].
  pose proof (Hp t1 task1 Hl1 Hp1) as E1. pose proof (Hp t2 task2 Hl2 Hp2) as E2.
  split; [congruence | exact E1].
Qed.

Lemma one_pending_timer_witness :
  exists w,
    exec (connect_schedule ++ [Notification [x0a; x50]]) (boot address_of_bike)
    = Some w
    /\ _disconnect_task (coordinator w) = Some 1%nat.
Proof.
  set (w := call_back (_notification_handler [x0a; x50])
              (mkWorld
                 (mkCoordinator address_of_bike (Some (mkClient true true)) false None
                    false (data (HyenaEBikeCoordinator address_of_bike)))
                 [mkTask (Ret tt) true 0 false] 0 true
                 [EvTaskCreated 0 EnsureConnection; EvConnectAttempt address_of_bike;
                  EvStartNotify])).
  assert (Hx : exec (connect_schedule ++ [Notification [x0a; x50]])
                 (boot address_of_bike) = Some w) by (vm_compute; reflexivity).
  exists w. split; [exact Hx|].
  apply (one_pending_timer address_of_bike _ w 1 1
           (mkTask _disconnect_after_delay false 0 false)
           (mkTask _disconnect_after_delay false 0 false) Hx).
  - repeat constructor; discriminate.
  - reflexivity.
  - split; [reflexivity | left; split; reflexivity].
  - reflexivity.
  - split; [reflexivity | left; split; reflexivity].
Defined.
